(** * Time-entry lifecycle, auto-clockout, correction workflow and reporting

    A shallow embedding of the time-clock application's core:

    - [src/lib/models/TimeEntry.ts]  (schema, defaults, hooks)
    - [src/app/api/timeentries/route.ts]  (clock in / clock out)
    - [src/lib/auto-clockout.ts]  (bulk and selective auto-clockout)
    - [src/lib/database.ts]  (retry helper)
    - [src/app/api/timeentries/[id]/correct/route.ts]  (single correction)
    - [src/app/api/timeentries/needs-review/route.ts]  (batch correction)
    - the grouped-review aggregation and the employee report routes.

    Conventions.  An instant is its number of milliseconds since the epoch
    ([Z]); a nullable field is an [option]; a collection is the list of
    its documents in insertion order; a thrown [Error] is the left summand
    of a sum; a transaction is atomic and rolls the collections back when
    its body throws.  Every [new Date()] of one request reads the same
    instant [now].  Hours are exact rationals rather than doubles.  The
    host's local time is UTC plus a fixed offset [tz]. *)

From Stdlib Require Import ZArith List Bool String Lia QArith Permutation Sorted.
Import ListNotations.
Open Scope Z_scope.

(* ------------------------------------------------------------------ *)
(** * JavaScript [Date] *)
(* ------------------------------------------------------------------ *)

(** A [Date] is its time value.  Local-time accessors depend on the host
    time zone, modelled as a fixed offset [tz] (milliseconds east of UTC,
    no daylight-saving transitions). *)
Module JSDate.

Definition Date := Z.

Definition msPerDay : Z := 86400000.
Definition msPerHour : Z := 3600000.
Definition msPerMinute : Z := 60000.
Definition msPerSecond : Z := 1000.

Definition Day (t : Z) : Z := t / msPerDay.
Definition TimeWithinDay (t : Z) : Z := t mod msPerDay.

(** 1 January 1970 was a Thursday; 0 is Sunday. *)
Definition WeekDay (t : Z) : Z := (Day t + 4) mod 7.

Definition MakeTime (h m s ms : Z) : Z :=
  h * msPerHour + m * msPerMinute + s * msPerSecond + ms.

(** Day number of a civil date in the proleptic Gregorian calendar;
    [m] is 1-based and in range. *)
Definition daysFromCivil (y m d : Z) : Z :=
  let y' := if m <=? 2 then y - 1 else y in
  let era := y' / 400 in
  let yoe := y' - era * 400 in
  let mp := if 2 <? m then m - 3 else m + 9 in
  let doy := (153 * mp + 2) / 5 + d - 1 in
  let doe := yoe * 365 + yoe / 4 - yoe / 100 + doy in
  era * 146097 + doe - 719468.

(** Civil date (year, 1-based month, day of month) of a day number. *)
Definition civilFromDays (z : Z) : Z * Z * Z :=
  let z := z + 719468 in
  let era := z / 146097 in
  let doe := z - era * 146097 in
  let yoe := (doe - doe / 1460 + doe / 36524 - doe / 146096) / 365 in
  let doy := doe - (365 * yoe + yoe / 4 - yoe / 100) in
  let mp := (5 * doy + 2) / 153 in
  let d := doy - (153 * mp + 2) / 5 + 1 in
  let m := if mp <? 10 then mp + 3 else mp - 9 in
  let y := yoe + era * 400 in
  ((if m <=? 2 then y + 1 else y), m, d).

(** [MakeDay(year, month, date)]: the month index is 0-based and may
    overflow into neighbouring years; the date may be 0 or exceed the
    month's length. *)
Definition MakeDay (year month date : Z) : Z :=
  let ym := year + month / 12 in
  let mn := month mod 12 in
  daysFromCivil ym (mn + 1) 1 + date - 1.

(** [new Date(year, monthIndex, day, h, m, s, ms)] in local time; years
    0..99 denote 1900..1999. *)
Definition newDate (tz : Z) (year monthIndex day h m s ms : Z) : Date :=
  let yr := if (0 <=? year) && (year <=? 99) then 1900 + year else year in
  MakeDay yr monthIndex day * msPerDay + MakeTime h m s ms - tz.

Definition getFullYear (tz : Z) (t : Date) : Z :=
  let '(y, _, _) := civilFromDays (Day (t + tz)) in y.

(** 0-based month index. *)
Definition getMonth (tz : Z) (t : Date) : Z :=
  let '(_, m, _) := civilFromDays (Day (t + tz)) in m - 1.

Definition getDate (tz : Z) (t : Date) : Z :=
  let '(_, _, d) := civilFromDays (Day (t + tz)) in d.

Definition getDay (tz : Z) (t : Date) : Z := WeekDay (t + tz).

Definition getHours (tz : Z) (t : Date) : Z :=
  TimeWithinDay (t + tz) / msPerHour.

Definition getMinutes (tz : Z) (t : Date) : Z :=
  (TimeWithinDay (t + tz) mod msPerHour) / msPerMinute.

(** [d.setHours(h, m, s, ms)]: same local day, new time of day. *)
Definition setHours (tz : Z) (t : Date) (h m s ms : Z) : Date :=
  Day (t + tz) * msPerDay + MakeTime h m s ms - tz.

(** [d.setDate(n)]: same local year, month and time of day, day [n]. *)
Definition setDate (tz : Z) (t : Date) (n : Z) : Date :=
  MakeDay (getFullYear tz t) (getMonth tz t) n * msPerDay
  + TimeWithinDay (t + tz) - tz.

(** The [YYYY-MM-DD] prefix of [toISOString()], which is always UTC,
    as the triple it prints. *)
Definition toISODate (t : Date) : Z * Z * Z := civilFromDays (Day t).

End JSDate.
Export JSDate.

Definition isoDate_eqb (a b : Z * Z * Z) : bool :=
  let '(y1, m1, d1) := a in
  let '(y2, m2, d2) := b in
  (y1 =? y2) && (m1 =? m2) && (d1 =? d2).

(* ------------------------------------------------------------------ *)
(** * Documents *)
(* ------------------------------------------------------------------ *)

Definition ObjectId := nat.

Module Employee.
(** The credential fields play no part in the time-entry logic. *)
Record t : Type := mk {
  _id : ObjectId;
  name : string;
  isAdmin : bool
}.
End Employee.

(** What [autoClockOutReason] is rendered from. *)
Inductive AutoClockOutReason : Type :=
| NoOvertimePolicy (clockoutTime : Date)
| ManualByAdmin (clockOutTime : Date).

Record TimeEntry : Type := mkTimeEntry {
  _id : ObjectId;
  employeeId : ObjectId;
  clockIn : Date;
  clockOut : option Date;
  hoursWorked : option Q;
  isAutoClockOut : bool;
  autoClockOutReason : option AutoClockOutReason;
  needsReview : bool;
  originalClockOut : option Date;
  adminCorrected : bool;
  correctedBy : option ObjectId;
  correctedAt : option Date;
  adminNotes : option string;
  createdAt : Date;
  updatedAt : Date
}.

(** [new TimeEntry({ employeeId, clockIn })] saved at [now]: every other
    path takes its schema default.  The [pre('save')] hook computes the
    hours only when [clockOut] is set, so it leaves [hoursWorked] null.
    A request is served at one instant: [clockIn] is the route's
    [new Date()], the two timestamps are stamped by mongoose at the save,
    a moment later, and are given the same value here. *)
Definition newTimeEntry (id emp : ObjectId) (now : Date) : TimeEntry :=
  {| _id := id; employeeId := emp; clockIn := now; clockOut := None;
     hoursWorked := None; isAutoClockOut := false;
     autoClockOutReason := None; needsReview := false;
     originalClockOut := None; adminCorrected := false;
     correctedBy := None; correctedAt := None; adminNotes := None;
     createdAt := now; updatedAt := now |}.

Record DB : Type := mkDB {
  employees : list Employee.t;
  timeEntries : list TimeEntry
}.

Definition withEntries (db : DB) (es : list TimeEntry) : DB :=
  {| employees := employees db; timeEntries := es |}.

(** [diffMs / (1000 * 60 * 60)], kept exact. *)
Definition hoursOf (clockInTime clockOutTime : Date) : Q :=
  Qmake (clockOutTime - clockInTime) 3600000.

(* ------------------------------------------------------------------ *)
(** * Update documents and the Mongoose operations used *)
(* ------------------------------------------------------------------ *)

(** An update object: a key that is absent is [None]; [adminNotes] can be
    set to [null], hence the nested option. *)
Record Update : Type := mkUpdate {
  u_clockOut : option Date;
  u_hoursWorked : option Q;
  u_isAutoClockOut : option bool;
  u_autoClockOutReason : option AutoClockOutReason;
  u_needsReview : option bool;
  u_originalClockOut : option Date;
  u_adminCorrected : option bool;
  u_correctedBy : option ObjectId;
  u_correctedAt : option Date;
  u_adminNotes : option (option string)
}.

Definition setOr {A} (new : option A) (old : A) : A :=
  match new with Some v => v | None => old end.

(** [pre(['findOneAndUpdate', 'updateOne', 'updateMany'])]: the hook
    inspects [update.clockOut] and does nothing. *)
Definition preUpdateHook (u : Update) : Update := u.

(** Applying an update at instant [now] (the schema has
    [timestamps: true]).  Only the keys present are written. *)
Definition applyUpdate (now : Date) (u0 : Update) (e : TimeEntry) : TimeEntry :=
  let u := preUpdateHook u0 in
  {| _id := _id e;
     employeeId := employeeId e;
     clockIn := clockIn e;
     clockOut := match u_clockOut u with Some c => Some c | None => clockOut e end;
     hoursWorked := match u_hoursWorked u with Some h => Some h | None => hoursWorked e end;
     isAutoClockOut := setOr (u_isAutoClockOut u) (isAutoClockOut e);
     autoClockOutReason :=
       match u_autoClockOutReason u with Some r => Some r | None => autoClockOutReason e end;
     needsReview := setOr (u_needsReview u) (needsReview e);
     originalClockOut :=
       match u_originalClockOut u with Some c => Some c | None => originalClockOut e end;
     adminCorrected := setOr (u_adminCorrected u) (adminCorrected e);
     correctedBy := match u_correctedBy u with Some a => Some a | None => correctedBy e end;
     correctedAt := match u_correctedAt u with Some a => Some a | None => correctedAt e end;
     adminNotes := setOr (u_adminNotes u) (adminNotes e);
     createdAt := createdAt e;
     updatedAt := now |}.

(** Update validators ([runValidators: true]) look at the keys present:
    [hoursWorked] has [min: 0], [adminNotes] has [maxLength: 500]. *)
Definition validUpdate (u : Update) : bool :=
  match u_hoursWorked u with
  | Some h => Qle_bool 0 h
  | None => true
  end
  &&
  match u_adminNotes u with
  | Some (Some s) => (String.length s <=? 500)%nat
  | _ => true
  end.

Definition isSome {A} (o : option A) : bool :=
  match o with Some _ => true | None => false end.

Definition isActive (e : TimeEntry) : bool := negb (isSome (clockOut e)).

Definition Employee_findById (id : ObjectId) (db : DB) : option Employee.t :=
  find (fun x => Nat.eqb (Employee._id x) id) (employees db).

Definition TimeEntry_findById (id : ObjectId) (es : list TimeEntry) : option TimeEntry :=
  find (fun e => Nat.eqb (_id e) id) es.

(** [TimeEntry.findOne({ employeeId, clockOut: null })]. *)
Definition findActiveEntry (emp : ObjectId) (es : list TimeEntry) : option TimeEntry :=
  find (fun e => Nat.eqb (employeeId e) emp && isActive e) es.

(** [findOneAndUpdate({ _id }, update, { new: true })] on the collection:
    the first document with that id is replaced; the result is the
    updated document, or [None] (null) when there is none. *)
Fixpoint updateById (now : Date) (id : ObjectId) (u : Update) (es : list TimeEntry)
  : option (TimeEntry * list TimeEntry) :=
  match es with
  | [] => None
  | e :: rest =>
      if Nat.eqb (_id e) id
      then let e' := applyUpdate now u e in Some (e', e' :: rest)
      else match updateById now id u rest with
           | Some (e', rest') => Some (e', e :: rest')
           | None => None
           end
  end.

Definition option_eqb {A} (eqb : A -> A -> bool) (a b : option A) : bool :=
  match a, b with
  | Some x, Some y => eqb x y
  | None, None => true
  | _, _ => false
  end.

Definition reason_eqb (a b : AutoClockOutReason) : bool :=
  match a, b with
  | NoOvertimePolicy x, NoOvertimePolicy y => x =? y
  | ManualByAdmin x, ManualByAdmin y => x =? y
  | _, _ => false
  end.

(** Two documents with the same value at every path; numbers are
    compared by value. *)
Definition sameDocument (a b : TimeEntry) : bool :=
  Nat.eqb (_id a) (_id b) && Nat.eqb (employeeId a) (employeeId b)
  && (clockIn a =? clockIn b)
  && option_eqb Z.eqb (clockOut a) (clockOut b)
  && option_eqb Qeq_bool (hoursWorked a) (hoursWorked b)
  && Bool.eqb (isAutoClockOut a) (isAutoClockOut b)
  && option_eqb reason_eqb (autoClockOutReason a) (autoClockOutReason b)
  && Bool.eqb (needsReview a) (needsReview b)
  && option_eqb Z.eqb (originalClockOut a) (originalClockOut b)
  && Bool.eqb (adminCorrected a) (adminCorrected b)
  && option_eqb Nat.eqb (correctedBy a) (correctedBy b)
  && option_eqb Z.eqb (correctedAt a) (correctedAt b)
  && option_eqb String.eqb (adminNotes a) (adminNotes b)
  && (createdAt a =? createdAt b) && (updatedAt a =? updatedAt b).

(** [updateMany(filter, update)]: the new collection and [modifiedCount],
    the number of matched documents the update changed. *)
Definition updateMany (now : Date) (matches : TimeEntry -> bool) (u : Update)
    (es : list TimeEntry) : list TimeEntry * nat :=
  (map (fun e => if matches e then applyUpdate now u e else e) es,
   List.length
     (filter (fun e => matches e && negb (sameDocument (applyUpdate now u e) e)) es)).

(* ------------------------------------------------------------------ *)
(** * Errors *)
(* ------------------------------------------------------------------ *)

(** What [isTransientError] reads of a thrown value: [code], [message],
    [name] and [hasErrorLabel].  The driver's errors carry a numeric
    [code] when the server reported one; system errors carry a string. *)
Inductive ErrorCode : Type :=
| CodeNumber (n : Z)
| CodeString (s : string).

(** An error thrown by the MongoDB driver. *)
Record DriverError : Type := mkDriverError {
  d_name : string;
  d_code : option ErrorCode;
  d_message : string;
  d_labels : list string
}.

Inductive Error : Type :=
| RequiredFields
| EmployeeNotFound
| AlreadyClockedIn
| NoActiveClockIn
| InvalidAction
| FailedToUpdate
| AdminIdRequired
| AdminPrivilegesRequired
| TimeEntryNotFound
| EntryStillActive
| ClockOutBeforeClockIn
| FutureClockOut
| InvalidCorrectionRequest
| EntryIdsRequired
| InvalidBatchRequest
| ValidationError
| NullEmployeeTypeError
| CodeIncludesTypeError
| Driver (d : DriverError).

(** The text of each error; the quotation marks inside the invalid-action
    text are left out. *)
Definition message (e : Error) : string :=
  match e with
  | RequiredFields => "Employee ID and action are required"
  | EmployeeNotFound => "Employee not found"
  | AlreadyClockedIn => "Employee is already clocked in"
  | NoActiveClockIn => "No active clock-in found"
  | InvalidAction => "Invalid action. Use clockIn or clockOut"
  | FailedToUpdate => "Failed to update time entry"
  | AdminIdRequired => "Admin employee ID is required"
  | AdminPrivilegesRequired => "Admin privileges required"
  | TimeEntryNotFound => "Time entry not found"
  | EntryStillActive => "Cannot correct an entry that is still active (not clocked out)"
  | ClockOutBeforeClockIn => "Clock-out time must be after clock-in time"
  | FutureClockOut => "Clock-out time cannot be in the future"
  | InvalidCorrectionRequest =>
      "Either provide a new clock-out time or set markAsCorrect to true"
  | EntryIdsRequired => "Entry IDs array is required"
  | InvalidBatchRequest => "Invalid action or missing required parameters"
  | ValidationError => "Validation failed"
  | NullEmployeeTypeError => "Cannot read properties of null (reading 'toString')"
  | CodeIncludesTypeError => "error.code.includes is not a function"
  | Driver d => d_message d
  end.

(** [error.name] *)
Definition errorName (e : Error) : string :=
  match e with
  | ValidationError => "ValidationError"
  | NullEmployeeTypeError => "TypeError"
  | CodeIncludesTypeError => "TypeError"
  | Driver d => d_name d
  | _ => "Error"
  end.

(** [error.code]: only the driver's errors have one. *)
Definition errorCode (e : Error) : option ErrorCode :=
  match e with
  | Driver d => d_code d
  | _ => None
  end.

(** The labels [error.hasErrorLabel] answers for; the method exists on
    the driver's errors only. *)
Definition errorLabels (e : Error) : option (list string) :=
  match e with
  | Driver d => Some (d_labels d)
  | _ => None
  end.

Definition Exc (A : Type) : Type := (Error + A)%type.

Definition bindExc {A B} (c : Exc A) (k : A -> Exc B) : Exc B :=
  match c with
  | inl e => inl e
  | inr a => k a
  end.

Notation "x <- c ;; k" := (bindExc c (fun x => k))
  (at level 61, c at next level, right associativity).
Notation "' pat <- c ;; k" :=
  (bindExc c (fun x => match x with pat => k end))
  (at level 61, pat pattern, c at next level, right associativity).

Definition orThrow {A} (o : option A) (e : Error) : Exc A :=
  match o with
  | Some a => inr a
  | None => inl e
  end.

Definition assertExc (b : bool) (e : Error) : Exc unit :=
  if b then inr tt else inl e.

(** [findByIdAndUpdate(id, update, { new: true, runValidators: true })]. *)
Definition findByIdAndUpdate (now : Date) (id : ObjectId) (u : Update)
    (es : list TimeEntry) : Exc (option (TimeEntry * list TimeEntry)) :=
  if validUpdate u then inr (updateById now id u es) else inl ValidationError.

(** A route runs its body in one transaction: a throw aborts it and the
    collections keep their state. *)
Definition inTransaction {A} (body : DB -> Exc (A * DB)) (db : DB) : Exc A * DB :=
  match body db with
  | inl e => (inl e, db)
  | inr (a, db') => (inr a, db')
  end.

(* ------------------------------------------------------------------ *)
(** * Clock in and clock out: [POST /api/timeentries] *)
(* ------------------------------------------------------------------ *)

Module TimeEntriesRoute.

Definition clockInBody (now : Date) (newId employeeId : ObjectId) (db : DB)
  : Exc (TimeEntry * DB) :=
  match findActiveEntry employeeId (timeEntries db) with
  | Some _ => inl AlreadyClockedIn
  | None =>
      let savedEntry := newTimeEntry newId employeeId now in
      inr (savedEntry, withEntries db (timeEntries db ++ [savedEntry]))
  end.

Definition clockOutBody (now : Date) (employeeId : ObjectId) (db : DB)
  : Exc (TimeEntry * DB) :=
  activeEntry <- orThrow (findActiveEntry employeeId (timeEntries db)) NoActiveClockIn ;;
  let clockOutTime := now in
  let hours := hoursOf (clockIn activeEntry) clockOutTime in
  let u := {| u_clockOut := Some clockOutTime; u_hoursWorked := Some hours;
              u_isAutoClockOut := None; u_autoClockOutReason := None;
              u_needsReview := None; u_originalClockOut := None;
              u_adminCorrected := None; u_correctedBy := None;
              u_correctedAt := None; u_adminNotes := None |} in
  r <- findByIdAndUpdate now (_id activeEntry) u (timeEntries db) ;;
  '(updatedEntry, es') <- orThrow r FailedToUpdate ;;
  inr (updatedEntry, withEntries db es').

(** [newId] is the [_id] the driver generates for an inserted document. *)
Definition POST (now : Date) (newId : ObjectId) (employeeId : ObjectId)
    (action : string) (db : DB) : Exc TimeEntry * DB :=
  if String.eqb action "" then (inl RequiredFields, db)
  else
    inTransaction (fun db =>
      employee <- orThrow (Employee_findById employeeId db) EmployeeNotFound ;;
      if String.eqb action "clockIn" then clockInBody now newId employeeId db
      else if String.eqb action "clockOut" then clockOutBody now employeeId db
      else inl InvalidAction) db.

End TimeEntriesRoute.

(* ------------------------------------------------------------------ *)
(** * Retry helper: [src/lib/database.ts] *)
(* ------------------------------------------------------------------ *)

Module Database.

Record RetryOptions : Type := mkRetryOptions {
  maxRetries : nat;
  baseDelayMs : Z;
  maxDelayMs : Z
}.

Definition DEFAULT_RETRY_OPTIONS : RetryOptions :=
  {| maxRetries := 3; baseDelayMs := 100; maxDelayMs := 1000 |}.

Definition transientCodes : list string :=
  ["ENOTFOUND"; "ECONNRESET"; "ECONNREFUSED"; "ETIMEDOUT"; "NETWORK_ERROR";
   "TransientTransactionError"; "UnknownTransactionCommitResult"]%string.

(** [s.includes(sub)] *)
Definition includes (s sub : string) : bool :=
  match String.index 0 sub s with
  | Some _ => true
  | None => false
  end.

(** [error.code && transientCodes.some(code => error.code.includes(code))]:
    a number has no [includes], so a numeric code other than 0 makes the
    call throw a [TypeError]. *)
Definition codeIsTransient (e : Error) : Exc bool :=
  match errorCode e with
  | Some (CodeNumber n) => if n =? 0 then inr false else inl CodeIncludesTypeError
  | Some (CodeString s) =>
      inr (negb (String.eqb s "") && existsb (includes s) transientCodes)
  | None => inr false
  end.

Definition isTransientError (e : Error) : Exc bool :=
  byCode <- codeIsTransient e ;;
  if byCode then inr true
  else if negb (String.eqb (message e) "")
          && existsb (includes (message e)) transientCodes then inr true
  else if String.eqb (errorName e) "MongoNetworkError"
          || String.eqb (errorName e) "MongoTimeoutError"
          || String.eqb (errorName e) "MongoServerSelectionError" then inr true
  else
    match errorLabels e with
    | Some labels =>
        inr (existsb (String.eqb "TransientTransactionError") labels
             || existsb (String.eqb "UnknownTransactionCommitResult") labels)
    | None => inr false
    end.

(** [Math.min(baseDelayMs * Math.pow(2, attempt), maxDelayMs)], the pause
    before the next attempt. *)
Definition retryDelay (opts : RetryOptions) (attempt : nat) : Z :=
  Z.min (baseDelayMs opts * 2 ^ Z.of_nat attempt) (maxDelayMs opts).

(** A transactional computation that also mutates an object [R] captured
    from the enclosing scope.  The collections roll back on a throw; the
    captured object does not. *)
Definition Tx (R : Type) : Type := DB -> R -> Exc DB * R.

(** The loop [for (attempt = 0; attempt <= maxRetries; attempt++)]:
    [left] is [maxRetries - attempt].  [isTransientError] is called in
    the [catch] block, so what it throws leaves the loop. *)
Fixpoint withRetryFrom {R} (left attempt : nat) (operation : nat -> Tx R)
    (db : DB) (r : R) : Exc DB * R :=
  match operation attempt db r with
  | (inr db', r') => (inr db', r')
  | (inl e, r') =>
      match left with
      | O => (inl e, r')
      | S left' =>
          match isTransientError e with
          | inl thrown => (inl thrown, r')
          | inr true => withRetryFrom left' (S attempt) operation db r'
          | inr false => (inl e, r')
          end
      end
  end.

Definition withRetry {R} (operation : nat -> Tx R) (opts : RetryOptions) : Tx R :=
  withRetryFrom (maxRetries opts) 0%nat operation.

(** How committing a transaction ends. *)
Inductive CommitResult : Type :=
| Committed
| CommitFails (e : Error).

(** [session.withTransaction(fn)]: a throw in [fn] aborts; otherwise the
    writes are committed, which can itself fail. *)
Definition session_withTransaction {R} (commit : CommitResult) (fn : Tx R) : Tx R :=
  fun db r =>
    match fn db r with
    | (inl e, r') => (inl e, r')
    | (inr db', r') =>
        match commit with
        | Committed => (inr db', r')
        | CommitFails e => (inl e, r')
        end
    end.

(** [commit n] is the outcome of the commit of attempt [n], and
    [transactionFn n] the callback as it runs in that attempt: what the
    database answers it can differ from one attempt to the next. *)
Definition withTransactionRetry {R} (commit : nat -> CommitResult)
    (transactionFn : nat -> Tx R) : Tx R :=
  withRetry (fun attempt =>
               session_withTransaction (commit attempt) (transactionFn attempt))
            DEFAULT_RETRY_OPTIONS.

End Database.

(* ------------------------------------------------------------------ *)
(** * Auto-clockout: [src/lib/auto-clockout.ts] *)
(* ------------------------------------------------------------------ *)

Module AutoClockout.
Import Database.

Record ClosingTime : Type := mkClosingTime {
  day : list Z;
  hour : Z;
  minute : Z
}.

Record BusinessHours : Type := mkBusinessHours {
  MONDAY_TO_SATURDAY : ClosingTime;
  SUNDAY : ClosingTime
}.

(** Monday = 1, Sunday = 0; 8:00 PM and 6:00 PM. *)
Definition BUSINESS_HOURS : BusinessHours :=
  {| MONDAY_TO_SATURDAY := {| day := [1; 2; 3; 4; 5; 6]; hour := 20; minute := 0 |};
     SUNDAY := {| day := [0]; hour := 18; minute := 0 |} |}.

Definition getAutoClockoutTime (tz : Z) (date : Date) : Date :=
  if getDay tz date =? 0
  then setHours tz date (hour (SUNDAY BUSINESS_HOURS)) (minute (SUNDAY BUSINESS_HOURS)) 0 0
  else setHours tz date (hour (MONDAY_TO_SATURDAY BUSINESS_HOURS))
                (minute (MONDAY_TO_SATURDAY BUSINESS_HOURS)) 0 0.

Definition shouldAutoClockout (tz : Z) (currentTime : Date) : bool :=
  getAutoClockoutTime tz currentTime <=? currentTime.

Record ClockedOutEmployee : Type := mkClockedOutEmployee {
  co_employeeId : ObjectId;
  employeeName : string;
  clockInTime : Date;
  clockOutTime : Date;
  co_hoursWorked : Q
}.

(** What the entries of [errors] are rendered from; [None] is an
    employee reference that populated to null. *)
Inductive ErrorMsg : Type :=
| FailedToAutoClockout (employee : option ObjectId) (cause : Error)
| AutoClockoutProcessFailed (cause : Error)
| NoActiveTimeEntry (employee : ObjectId)
| ClockOutMustBeAfterClockIn (employeeName : option string)
| FailedToClockOut (employee : ObjectId) (cause : Error)
| SelectiveProcessFailed (cause : Error).

Record AutoClockoutResult : Type := mkResult {
  success : bool;
  clockedOutCount : nat;
  errors : list ErrorMsg;
  clockedOutEmployees : list ClockedOutEmployee
}.

Definition emptyResult : AutoClockoutResult :=
  {| success := true; clockedOutCount := 0; errors := [];
     clockedOutEmployees := [] |}.

Definition pushError (m : ErrorMsg) (r : AutoClockoutResult) : AutoClockoutResult :=
  {| success := success r; clockedOutCount := clockedOutCount r;
     errors := errors r ++ [m]; clockedOutEmployees := clockedOutEmployees r |}.

Definition pushEmployee (c : ClockedOutEmployee) (r : AutoClockoutResult)
  : AutoClockoutResult :=
  {| success := success r; clockedOutCount := clockedOutCount r;
     errors := errors r; clockedOutEmployees := clockedOutEmployees r ++ [c] |}.

Definition incCount (r : AutoClockoutResult) : AutoClockoutResult :=
  {| success := success r; clockedOutCount := S (clockedOutCount r);
     errors := errors r; clockedOutEmployees := clockedOutEmployees r |}.

Definition setFailed (r : AutoClockoutResult) : AutoClockoutResult :=
  {| success := false; clockedOutCount := clockedOutCount r;
     errors := errors r; clockedOutEmployees := clockedOutEmployees r |}.

(** The faults of the persistence layer the two functions can meet, each
    with the error thrown: [connectDB] throws; the update of a given
    entry throws in the attempt numbered [n]; the commit of attempt [n]
    fails.  A fault that hits a whole attempt is a commit outcome. *)
Record Faults : Type := mkFaults {
  connectDB_fails : option Error;
  update_fails : nat -> ObjectId -> option Error;
  commit : nat -> CommitResult
}.

Definition noFaults : Faults :=
  {| connectDB_fails := None; update_fails := fun _ _ => None;
     commit := fun _ => Committed |}.

(** [employee?.name || 'Unknown'] *)
Definition nameOrUnknown (employee : option Employee.t) : string :=
  match employee with
  | Some emp => if String.eqb (Employee.name emp) "" then "Unknown" else Employee.name emp
  | None => "Unknown"
  end.

(** [updatedEntry.hoursWorked || 0] *)
Definition hoursOrZero (h : option Q) : Q :=
  match h with Some q => q | None => 0%Q end.

Definition autoClockoutUpdate (autoClockoutTime : Date) : Update :=
  {| u_clockOut := Some autoClockoutTime;
     u_hoursWorked := None;
     u_isAutoClockOut := Some true;
     u_autoClockOutReason := Some (NoOvertimePolicy autoClockoutTime);
     u_needsReview := Some true;
     u_originalClockOut := None; u_adminCorrected := None;
     u_correctedBy := None; u_correctedAt := None; u_adminNotes := None |}.

(** One iteration of [for (const entry of activeEntries)]; [employee] is
    the populated [entry.employeeId]. *)
Definition autoClockoutEntry (f : Faults) (attempt : nat) (now : Date) (dryRun : bool)
    (autoClockoutTime : Date)
    (st : list TimeEntry * AutoClockoutResult)
    (populated : TimeEntry * option Employee.t)
  : list TimeEntry * AutoClockoutResult :=
  let '(es, result) := st in
  let '(entry, employee) := populated in
  if dryRun then
    match employee with
    | None => (es, pushError (FailedToAutoClockout None NullEmployeeTypeError) result)
    | Some emp =>
        let mockHoursWorked := hoursOf (clockIn entry) autoClockoutTime in
        (es, pushEmployee
               {| co_employeeId := employeeId entry;
                  employeeName := nameOrUnknown employee;
                  clockInTime := clockIn entry;
                  clockOutTime := autoClockoutTime;
                  co_hoursWorked := mockHoursWorked |} result)
    end
  else
    match update_fails f attempt (_id entry) with
    | Some thrown =>
        (es, pushError (FailedToAutoClockout (option_map Employee._id employee) thrown)
                       result)
    | None =>
    match findByIdAndUpdate now (_id entry) (autoClockoutUpdate autoClockoutTime) es with
    | inl e =>
        (es, pushError (FailedToAutoClockout (option_map Employee._id employee) e) result)
    | inr None => (es, result)
    | inr (Some (updatedEntry, es')) =>
        let result := incCount result in
        match employee with
        | None =>
            (es', pushError (FailedToAutoClockout None NullEmployeeTypeError) result)
        | Some emp =>
            (es', pushEmployee
                    {| co_employeeId := employeeId entry;
                       employeeName := nameOrUnknown employee;
                       clockInTime := clockIn entry;
                       clockOutTime := autoClockoutTime;
                       co_hoursWorked := hoursOrZero (hoursWorked updatedEntry) |}
                    result)
        end
    end
    end.

(** The callback handed to [withTransactionRetry], as it runs in the
    attempt numbered [attempt]; [result] is the object declared outside
    it. *)
Definition autoClockoutTx (f : Faults) (now : Date) (dryRun : bool)
    (autoClockoutTime : Date) (attempt : nat) : Tx AutoClockoutResult :=
  fun db result =>
    let activeEntries :=
      map (fun e => (e, Employee_findById (employeeId e) db))
          (filter isActive (timeEntries db)) in
    let '(es', result) :=
      fold_left (autoClockoutEntry f attempt now dryRun autoClockoutTime)
                activeEntries (timeEntries db, result) in
    let result :=
      if (0 <? List.length (errors result))%nat then setFailed result else result in
    (inr (withEntries db es'), result).

Definition performAutoClockout (tz : Z) (f : Faults) (now : Date)
    (targetDate : Date) (dryRun : bool) (db : DB) : AutoClockoutResult * DB :=
  let result := emptyResult in
  match connectDB_fails f with
  | Some thrown =>
      (pushError (AutoClockoutProcessFailed thrown) (setFailed result), db)
  | None =>
    let autoClockoutTime := getAutoClockoutTime tz targetDate in
    match withTransactionRetry (commit f)
            (autoClockoutTx f now dryRun autoClockoutTime) db result with
    | (inr db', result) => (result, db')
    | (inl e, result) =>
        (pushError (AutoClockoutProcessFailed e) (setFailed result), db)
    end
  end.

Definition selectiveUpdate (now : Date) (clockOutTime : Date)
    (adminEmployeeId : ObjectId) : Update :=
  {| u_clockOut := Some clockOutTime;
     u_hoursWorked := None;
     u_isAutoClockOut := Some true;
     u_autoClockOutReason := Some (ManualByAdmin clockOutTime);
     u_needsReview := Some false;
     u_originalClockOut := None;
     u_adminCorrected := Some true;
     u_correctedBy := Some adminEmployeeId;
     u_correctedAt := Some now;
     u_adminNotes := None |}.

(** One iteration of
    [for (const { employeeId, clockOutTime } of selectedEmployees)]. *)
Definition selectiveEntry (f : Faults) (attempt : nat) (now : Date)
    (adminEmployeeId : ObjectId) (emps : DB)
    (st : list TimeEntry * AutoClockoutResult)
    (selected : ObjectId * Date)
  : list TimeEntry * AutoClockoutResult :=
  let '(es, result) := st in
  let '(selectedId, clockOutTime) := selected in
  match findActiveEntry selectedId es with
  | None => (es, pushError (NoActiveTimeEntry selectedId) result)
  | Some activeEntry =>
      let employee := Employee_findById (employeeId activeEntry) emps in
      if clockOutTime <=? clockIn activeEntry then
        (es, pushError (ClockOutMustBeAfterClockIn (option_map Employee.name employee))
                       result)
      else
        match update_fails f attempt (_id activeEntry) with
        | Some thrown => (es, pushError (FailedToClockOut selectedId thrown) result)
        | None =>
        match findByIdAndUpdate now (_id activeEntry)
                (selectiveUpdate now clockOutTime adminEmployeeId) es with
        | inl e => (es, pushError (FailedToClockOut selectedId e) result)
        | inr None => (es, result)
        | inr (Some (updatedEntry, es')) =>
            (es', pushEmployee
                    {| co_employeeId := selectedId;
                       employeeName := nameOrUnknown employee;
                       clockInTime := clockIn activeEntry;
                       clockOutTime := clockOutTime;
                       co_hoursWorked := hoursOrZero (hoursWorked updatedEntry) |}
                    (incCount result))
        end
        end
  end.

(** The callback as it runs in the attempt numbered [attempt]. *)
Definition selectiveTx (f : Faults) (now : Date)
    (selectedEmployees : list (ObjectId * Date)) (adminEmployeeId : ObjectId)
    (attempt : nat) : Tx AutoClockoutResult :=
  fun db result =>
    let '(es', result) :=
      fold_left (selectiveEntry f attempt now adminEmployeeId db)
                selectedEmployees (timeEntries db, result) in
    let result :=
      if (0 <? List.length (errors result))%nat && Nat.eqb (clockedOutCount result) 0
      then setFailed result else result in
    (inr (withEntries db es'), result).

Definition performSelectiveAutoClockout (f : Faults) (now : Date)
    (selectedEmployees : list (ObjectId * Date)) (adminEmployeeId : ObjectId)
    (db : DB) : AutoClockoutResult * DB :=
  let result := emptyResult in
  match connectDB_fails f with
  | Some thrown =>
      (pushError (SelectiveProcessFailed thrown) (setFailed result), db)
  | None =>
    match withTransactionRetry (commit f)
            (selectiveTx f now selectedEmployees adminEmployeeId) db result with
    | (inr db', result) => (result, db')
    | (inl e, result) =>
        (pushError (SelectiveProcessFailed e) (setFailed result), db)
    end
  end.

Definition checkAndPerformAutoClockout (tz : Z) (f : Faults) (now : Date) (db : DB)
  : AutoClockoutResult * DB :=
  if negb (shouldAutoClockout tz now) then (emptyResult, db)
  else performAutoClockout tz f now now false db.

Definition enforceNoOvertimePolicy (tz : Z) (f : Faults) (now : Date) (db : DB)
  : AutoClockoutResult * DB :=
  let closingTime := getAutoClockoutTime tz now in
  performAutoClockout tz f now closingTime false db.

End AutoClockout.

(* ------------------------------------------------------------------ *)
(** * Single correction: [PUT /api/timeentries/[id]/correct] *)
(* ------------------------------------------------------------------ *)

(** [notes || null]: an empty string is falsy. *)
Definition orNull (notes : option string) : option string :=
  match notes with
  | Some s => if String.eqb s "" then None else Some s
  | None => None
  end.

Definition isAdminId (id : ObjectId) (db : DB) : bool :=
  match Employee_findById id db with
  | Some admin => Employee.isAdmin admin
  | None => false
  end.

Module CorrectRoute.

Record Body : Type := mkBody {
  b_clockOut : option Date;
  adminEmployeeId : option ObjectId;
  b_adminNotes : option string;
  markAsCorrect : bool
}.

(** The object built in [updateData] before the two modes add to it. *)
Definition baseUpdate (now : Date) (admin : ObjectId) (notes : option string) : Update :=
  {| u_clockOut := None; u_hoursWorked := None; u_isAutoClockOut := None;
     u_autoClockOutReason := None;
     u_needsReview := Some false;
     u_originalClockOut := None; u_adminCorrected := None;
     u_correctedBy := Some admin;
     u_correctedAt := Some now;
     u_adminNotes := Some (orNull notes) |}.

Definition withAdminCorrected (u : Update) : Update :=
  {| u_clockOut := u_clockOut u; u_hoursWorked := u_hoursWorked u;
     u_isAutoClockOut := u_isAutoClockOut u;
     u_autoClockOutReason := u_autoClockOutReason u;
     u_needsReview := u_needsReview u;
     u_originalClockOut := u_originalClockOut u;
     u_adminCorrected := Some true;
     u_correctedBy := u_correctedBy u; u_correctedAt := u_correctedAt u;
     u_adminNotes := u_adminNotes u |}.

Definition withClockOut (c : Date) (u : Update) : Update :=
  {| u_clockOut := Some c; u_hoursWorked := u_hoursWorked u;
     u_isAutoClockOut := u_isAutoClockOut u;
     u_autoClockOutReason := u_autoClockOutReason u;
     u_needsReview := u_needsReview u;
     u_originalClockOut := u_originalClockOut u;
     u_adminCorrected := u_adminCorrected u;
     u_correctedBy := u_correctedBy u; u_correctedAt := u_correctedAt u;
     u_adminNotes := u_adminNotes u |}.

Definition withOriginalClockOut (c : option Date) (u : Update) : Update :=
  {| u_clockOut := u_clockOut u; u_hoursWorked := u_hoursWorked u;
     u_isAutoClockOut := u_isAutoClockOut u;
     u_autoClockOutReason := u_autoClockOutReason u;
     u_needsReview := u_needsReview u;
     u_originalClockOut := c;
     u_adminCorrected := u_adminCorrected u;
     u_correctedBy := u_correctedBy u; u_correctedAt := u_correctedAt u;
     u_adminNotes := u_adminNotes u |}.

(** The update document for an entry that is closed. *)
Definition updateDataFor (now : Date) (admin : ObjectId) (body : Body)
    (timeEntry : TimeEntry) : Exc Update :=
  let updateData := baseUpdate now admin (b_adminNotes body) in
  if markAsCorrect body && negb (isSome (b_clockOut body)) then
    inr (withAdminCorrected updateData)
  else
    match b_clockOut body with
    | Some newClockOut =>
        _ok1 <- assertExc (negb (newClockOut <=? clockIn timeEntry)) ClockOutBeforeClockIn ;;
        _ok2 <- assertExc (negb (now <? newClockOut)) FutureClockOut ;;
        let updateData :=
          if negb (isSome (originalClockOut timeEntry)) && isAutoClockOut timeEntry
          then withOriginalClockOut (clockOut timeEntry) updateData
          else updateData in
        inr (withAdminCorrected (withClockOut newClockOut updateData))
    | None => inl InvalidCorrectionRequest
    end.

Definition correctBody (now : Date) (id : ObjectId) (admin : ObjectId) (body : Body)
    (db : DB) : Exc (TimeEntry * DB) :=
  _admin <- assertExc (isAdminId admin db) AdminPrivilegesRequired ;;
  timeEntry <- orThrow (TimeEntry_findById id (timeEntries db)) TimeEntryNotFound ;;
  _closed <- assertExc (isSome (clockOut timeEntry)) EntryStillActive ;;
  updateData <- updateDataFor now admin body timeEntry ;;
  r <- findByIdAndUpdate now id updateData (timeEntries db) ;;
  '(correctedEntry, es') <- orThrow r FailedToUpdate ;;
  inr (correctedEntry, withEntries db es').

(** The body runs under [withTransactionRetry]; it captures no object it
    mutates, so a retried run repeats it from the same state. *)
Definition PUT (now : Date) (id : ObjectId) (body : Body) (db : DB)
  : Exc TimeEntry * DB :=
  match adminEmployeeId body with
  | None => (inl AdminIdRequired, db)
  | Some admin => inTransaction (correctBody now id admin body) db
  end.

(** The JSON answered after the transaction: [success], a [message] that
    is chosen by [markAsCorrect] alone, and the corrected entry. *)
Record Response : Type := mkResponse {
  r_success : bool;
  r_message : string;
  r_timeEntry : TimeEntry
}.

Definition responseOf (body : Body) (correctedEntry : TimeEntry) : Response :=
  {| r_success := true;
     r_message := if markAsCorrect body then "Time entry marked as correct"
                  else "Time entry corrected successfully";
     r_timeEntry := correctedEntry |}.

(** The route with its answer. *)
Definition PUT_response (now : Date) (id : ObjectId) (body : Body) (db : DB)
  : Exc Response * DB :=
  match PUT now id body db with
  | (inr correctedEntry, db') => (inr (responseOf body correctedEntry), db')
  | (inl e, db') => (inl e, db')
  end.

End CorrectRoute.

(* ------------------------------------------------------------------ *)
(** * Batch correction: [POST /api/timeentries/needs-review] *)
(* ------------------------------------------------------------------ *)

Module NeedsReviewRoute.

Record Body : Type := mkBody {
  action : string;
  entryIds : list ObjectId;
  adminEmployeeId : option ObjectId;
  clockOutTime : option Date;
  b_adminNotes : option string
}.

Definition idIn (ids : list ObjectId) (e : TimeEntry) : bool :=
  existsb (Nat.eqb (_id e)) ids.

(** [updateData] before the transaction: [adminNotes] is a key only when
    the notes are truthy. *)
Definition baseUpdate (now : Date) (admin : ObjectId) (notes : option string) : Update :=
  {| u_clockOut := None; u_hoursWorked := None; u_isAutoClockOut := None;
     u_autoClockOutReason := None;
     u_needsReview := Some false;
     u_originalClockOut := None; u_adminCorrected := None;
     u_correctedBy := Some admin;
     u_correctedAt := Some now;
     u_adminNotes :=
       match orNull notes with
       | Some s => Some (Some s)
       | None => None
       end |}.

Definition batchBody (now : Date) (admin : ObjectId) (body : Body) (db : DB)
  : Exc (nat * DB) :=
  let updateData := baseUpdate now admin (b_adminNotes body) in
  if String.eqb (action body) "mark-correct" then
    let updateData := CorrectRoute.withAdminCorrected updateData in
    _valid <- assertExc (validUpdate updateData) ValidationError ;;
    let '(es', modifiedCount) :=
      updateMany now (fun e => idIn (entryIds body) e && isSome (clockOut e))
                 updateData (timeEntries db) in
    inr (modifiedCount, withEntries db es')
  else
    match String.eqb (action body) "batch-correct", clockOutTime body with
    | true, Some newClockOut =>
        _past <- assertExc (negb (now <? newClockOut)) FutureClockOut ;;
        let updateData :=
          CorrectRoute.withAdminCorrected
            (CorrectRoute.withClockOut newClockOut updateData) in
        _valid <- assertExc (validUpdate updateData) ValidationError ;;
        let '(es', modifiedCount) :=
          updateMany now
            (fun e => idIn (entryIds body) e && isSome (clockOut e)
                      && (clockIn e <? newClockOut))
            updateData (timeEntries db) in
        inr (modifiedCount, withEntries db es')
    | _, _ => inl InvalidBatchRequest
    end.

Definition POST (now : Date) (body : Body) (db : DB) : Exc nat * DB :=
  match adminEmployeeId body with
  | None => (inl AdminIdRequired, db)
  | Some admin =>
      if Nat.eqb (List.length (entryIds body)) 0 then (inl EntryIdsRequired, db)
      else if negb (isAdminId admin db) then (inl AdminPrivilegesRequired, db)
      else inTransaction (batchBody now admin body) db
  end.

End NeedsReviewRoute.

(* ------------------------------------------------------------------ *)
(** * Helpers standing for JavaScript [Map] buckets and [$sort] *)
(* ------------------------------------------------------------------ *)

Section Buckets.
Context {K V : Type} (eqb : K -> K -> bool).

(** [if (!m.has(k)) m.set(k, []); m.get(k).push(v)]: keys stay in the
    order of their first insertion. *)
Fixpoint bucketPush (k : K) (v : V) (m : list (K * list V)) : list (K * list V) :=
  match m with
  | [] => [(k, [v])]
  | (k', vs) :: rest =>
      if eqb k' k then (k', vs ++ [v]) :: rest
      else (k', vs) :: bucketPush k v rest
  end.

Definition bucketsOf (key : V -> K) (l : list V) : list (K * list V) :=
  fold_left (fun m v => bucketPush (key v) v m) l [].

(** [m.get(k) || []] *)
Fixpoint bucketGet (k : K) (m : list (K * list V)) : list V :=
  match m with
  | [] => []
  | (k', vs) :: rest => if eqb k' k then vs else bucketGet k rest
  end.

End Buckets.

Section Sorting.
Context {A : Type} (le : A -> A -> bool).

Fixpoint insertSorted (x : A) (l : list A) : list A :=
  match l with
  | [] => [x]
  | y :: rest => if le x y then x :: l else y :: insertSorted x rest
  end.

Definition sortBy (l : list A) : list A := fold_right insertSorted [] l.

End Sorting.

Definition sumQ (l : list Q) : Q := fold_left Qplus l 0%Q.

(* ------------------------------------------------------------------ *)
(** * Reviews grouped by employee: the aggregation pipeline *)
(* ------------------------------------------------------------------ *)

Module EmployeeGroupedReviews.

Inductive Priority : Type := high | medium | low.

(** [$ceil] of [$divide] on integers. *)
Definition ceilDiv (a b : Z) : Z := - ((- a) / b).

(** A document after [$lookup], [$unwind] and the first [$addFields]. *)
Record Row : Type := mkRow {
  entry : TimeEntry;
  employee : Employee.t;
  daysSinceReview : Z
}.

Record Group : Type := mkGroup {
  g_id : ObjectId;
  employeeName : string;
  g_isAdmin : bool;
  entries : list Row;
  totalEntries : nat;
  totalHours : Q;
  oldestReviewDays : Z;
  avgDaysSinceReview : Q;
  priority : Priority
}.

Definition matchStage (forEmployee : option ObjectId) (e : TimeEntry) : bool :=
  needsReview e &&
  match forEmployee with
  | Some id => Nat.eqb (employeeId e) id
  | None => true
  end.

(** [$lookup] into [employees] followed by [$unwind]: one document per
    matching employee, none when the reference dangles. *)
Definition lookupUnwind (db : DB) (now : Date) (e : TimeEntry) : list Row :=
  map (fun emp =>
         {| entry := e; employee := emp;
            daysSinceReview := ceilDiv (now - updatedAt e) msPerDay |})
      (filter (fun emp => Nat.eqb (Employee._id emp) (employeeId e))
              (employees db)).

(** [{ employeeId: 1, daysSinceReview: -1, updatedAt: 1 }] *)
Definition rowLe (a b : Row) : bool :=
  let ea := employeeId (entry a) in
  let eb := employeeId (entry b) in
  if (ea <? eb)%nat then true
  else if (eb <? ea)%nat then false
  else if daysSinceReview b <? daysSinceReview a then true
  else if daysSinceReview a <? daysSinceReview b then false
  else updatedAt (entry a) <=? updatedAt (entry b).

Definition maxDays (rows : list Row) : Z :=
  match rows with
  | [] => 0
  | r :: rest => fold_left Z.max (map daysSinceReview rest) (daysSinceReview r)
  end.

Definition priorityOf (oldest : Z) : Priority :=
  if 3 <=? oldest then high
  else if 1 <=? oldest then medium
  else low.

Definition groupStage (bucket : ObjectId * list Row) : Group :=
  let '(id, rows) := bucket in
  let oldest := maxDays rows in
  {| g_id := id;
     employeeName :=
       match rows with r :: _ => Employee.name (employee r) | [] => "" end;
     g_isAdmin :=
       match rows with r :: _ => Employee.isAdmin (employee r) | [] => false end;
     entries := rows;
     totalEntries := List.length rows;
     totalHours :=
       sumQ (map (fun r => AutoClockout.hoursOrZero (hoursWorked (entry r))) rows);
     oldestReviewDays := oldest;
     avgDaysSinceReview :=
       Qmake (fold_left Z.add (map daysSinceReview rows) 0)
             (Pos.of_nat (List.length rows));
     priority := priorityOf oldest |}.

(** [{ oldestReviewDays: -1, totalEntries: -1 }] *)
Definition groupLe (a b : Group) : bool :=
  if oldestReviewDays b <? oldestReviewDays a then true
  else if oldestReviewDays a <? oldestReviewDays b then false
  else (totalEntries b <=? totalEntries a)%nat.

Definition employeeGroups (now : Date) (forEmployee : option ObjectId) (db : DB)
  : list Group :=
  let matched := filter (matchStage forEmployee) (timeEntries db) in
  let rows := flat_map (lookupUnwind db now) matched in
  let sorted := sortBy rowLe rows in
  let buckets := bucketsOf Nat.eqb (fun r => employeeId (entry r)) sorted in
  sortBy groupLe (map groupStage buckets).

Record Stats : Type := mkStats {
  totalNeedsReview : nat;
  totalEmployeesWithReviews : nat;
  totalHoursNeedingReview : Q
}.

Definition totalStats (db : DB) : Stats :=
  let flagged := filter needsReview (timeEntries db) in
  {| totalNeedsReview := List.length flagged;
     totalEmployeesWithReviews :=
       List.length (nodup Nat.eq_dec (map employeeId flagged));
     totalHoursNeedingReview :=
       sumQ (map (fun e => AutoClockout.hoursOrZero (hoursWorked e)) flagged) |}.

Definition GET (now : Date) (forEmployee : option ObjectId) (db : DB)
  : list Group * Stats :=
  (employeeGroups now forEmployee db, totalStats db).

(** The group of one employee in the response, if any. *)
Definition groupOf (id : ObjectId) (gs : list Group) : option Group :=
  find (fun g => Nat.eqb (g_id g) id) gs.

End EmployeeGroupedReviews.

(* ------------------------------------------------------------------ *)
(** * Employee report: day, week, month and year totals *)
(* ------------------------------------------------------------------ *)

Module EmployeeReport.

Record EntrySummary : Type := mkEntrySummary {
  s_clockIn : Date;
  s_clockOut : option Date;
  s_hours : Q
}.

Record DailyData : Type := mkDailyData {
  date : Z * Z * Z;
  dayOfWeek : string;
  hours : Q;
  d_entries : list EntrySummary
}.

Record WeeklyData : Type := mkWeeklyData {
  weekNumber : Z;
  startDate : Z * Z * Z;
  endDate : Z * Z * Z;
  w_totalHours : Q;
  days : list DailyData
}.

Record MonthlyData : Type := mkMonthlyData {
  month : Z;
  monthName : string;
  m_year : Z;
  m_totalHours : Q;
  weeks : list WeeklyData
}.

Record YearlyData : Type := mkYearlyData {
  year : Z;
  y_totalHours : Q;
  months : list MonthlyData
}.

Record Summary : Type := mkSummary {
  totalEntries : nat;
  totalHours : Q;
  averageHoursPerDay : Q;
  daysWorked : nat
}.

Record Report : Type := mkReport {
  r_employee : Employee.t;
  r_startDate : Z * Z * Z;
  r_endDate : Z * Z * Z;
  data : YearlyData;
  summary : Summary
}.

Definition getWeekNumber (d monthStart : Date) : Z :=
  let daysDiff := (d - monthStart) / msPerDay in
  daysDiff / 7 + 1.

Definition getWeekDateRange (tz : Z) (weekNum : Z) (monthStart : Date) : Date * Date :=
  let weekStart := setDate tz monthStart (getDate tz monthStart + (weekNum - 1) * 7) in
  let weekEnd := setDate tz weekStart (getDate tz weekStart + 6) in
  let monthEnd :=
    newDate tz (getFullYear tz monthStart) (getMonth tz monthStart + 1) 0 0 0 0 0 in
  (weekStart, if monthEnd <? weekEnd then monthEnd else weekEnd).

Definition formatDate (d : Date) : Z * Z * Z := toISODate d.

Definition dayNames : list string :=
  ["Sunday"; "Monday"; "Tuesday"; "Wednesday"; "Thursday"; "Friday"; "Saturday"]%string.

Definition monthNames : list string :=
  ["January"; "February"; "March"; "April"; "May"; "June"; "July"; "August";
   "September"; "October"; "November"; "December"]%string.

Definition getDayOfWeek (tz : Z) (d : Date) : string :=
  nth (Z.to_nat (getDay tz d)) dayNames ""%string.

Definition getMonthName (tz : Z) (monthNum : Z) : string :=
  nth (Z.to_nat (getMonth tz (newDate tz 2024 (monthNum - 1) 1 0 0 0 0)))
      monthNames ""%string.

(** [if (month)]: [undefined], [NaN] and 0 are falsy. *)
Definition monthGiven (m : option Z) : option Z :=
  match m with
  | Some 0 => None
  | Some k => Some k
  | None => None
  end.

(** The [find] query, sorted by [clockIn] ascending. *)
Definition queryEntries (forEmployee : ObjectId) (startDate endDate : Date) (db : DB)
  : list TimeEntry :=
  sortBy (fun a b => clockIn a <=? clockIn b)
    (filter (fun e =>
               Nat.eqb (employeeId e) forEmployee
               && (startDate <=? clockIn e) && (clockIn e <=? endDate)
               && isSome (clockOut e) && isSome (hoursWorked e))
            (timeEntries db)).

Definition dailyDataOf (tz : Z) (entriesByDay : list (Z * Z * Z * list TimeEntry))
    (d : Date) : DailyData :=
  let dayKey := formatDate d in
  let dayEntries := bucketGet isoDate_eqb dayKey entriesByDay in
  let perEntry :=
    map (fun e => {| s_clockIn := clockIn e; s_clockOut := clockOut e;
                     s_hours := AutoClockout.hoursOrZero (hoursWorked e) |})
        dayEntries in
  {| date := dayKey;
     dayOfWeek := getDayOfWeek tz d;
     hours := sumQ (map s_hours perEntry);
     d_entries := perEntry |}.

(** [for (let d = new Date(weekStart); d <= weekEnd; d.setDate(d.getDate() + 1))];
    a week has at most seven days, so the fuel given below is never used up. *)
Fixpoint dayLoop (fuel : nat) (tz : Z) (d weekEnd : Date) (body : Date -> DailyData)
  : list DailyData :=
  match fuel with
  | O => []
  | S fuel' =>
      if d <=? weekEnd
      then body d :: dayLoop fuel' tz (setDate tz d (getDate tz d + 1)) weekEnd body
      else []
  end.

Definition weeklyDataOf (tz : Z) (monthStart : Date)
    (entriesByWeek : list (Z * list TimeEntry)) (weekNum : Z) : WeeklyData :=
  let weekEntries := bucketGet Z.eqb weekNum entriesByWeek in
  let '(weekStart, weekEnd) := getWeekDateRange tz weekNum monthStart in
  let entriesByDay :=
    bucketsOf isoDate_eqb (fun e => formatDate (clockIn e)) weekEntries in
  let ds := dayLoop 32 tz weekStart weekEnd (dailyDataOf tz entriesByDay) in
  {| weekNumber := weekNum;
     startDate := formatDate weekStart;
     endDate := formatDate weekEnd;
     w_totalHours := sumQ (map hours ds);
     days := ds |}.

(** [for (let weekNum = 1; weekNum <= weeksInMonth; weekNum++)] *)
Definition weekNumbers (weeksInMonth : Z) : list Z :=
  map (fun k => Z.of_nat k + 1) (seq 0 (Z.to_nat weeksInMonth)).

Definition monthlyDataOf (tz : Z) (yr : Z)
    (entriesByMonth : list (Z * list TimeEntry)) (currentMonth : Z) : MonthlyData :=
  let monthEntries := bucketGet Z.eqb currentMonth entriesByMonth in
  let monthStart := newDate tz yr (currentMonth - 1) 1 0 0 0 0 in
  let monthEnd := newDate tz yr currentMonth 0 0 0 0 0 in
  let entriesByWeek :=
    bucketsOf Z.eqb (fun e => getWeekNumber (clockIn e) monthStart) monthEntries in
  let weeksInMonth := getWeekNumber monthEnd monthStart in
  let ws := map (weeklyDataOf tz monthStart entriesByWeek) (weekNumbers weeksInMonth) in
  {| month := currentMonth;
     monthName := getMonthName tz currentMonth;
     m_year := yr;
     m_totalHours := sumQ (map w_totalHours ws);
     weeks := ws |}.

Definition positiveQ (q : Q) : bool := negb (Qle_bool q 0).

Definition yearlyDataOf (tz : Z) (yr : Z) (mo : option Z) (entries : list TimeEntry)
  : YearlyData :=
  let entriesByMonth :=
    bucketsOf Z.eqb (fun e => getMonth tz (clockIn e) + 1) entries in
  let monthsToProcess :=
    match monthGiven mo with
    | Some m => [m]
    | None => map (fun i => Z.of_nat i + 1) (seq 0 12)
    end in
  let included :=
    filter (fun md => positiveQ (m_totalHours md) || isSome (monthGiven mo))
           (map (monthlyDataOf tz yr entriesByMonth) monthsToProcess) in
  {| year := yr;
     y_totalHours := sumQ (map m_totalHours included);
     months := included |}.

Definition GET (tz : Z) (forEmployee : ObjectId) (yr : Z) (mo : option Z) (db : DB)
  : Exc Report :=
  employee <- orThrow (Employee_findById forEmployee db) EmployeeNotFound ;;
  let '(startDate, endDate) :=
    match monthGiven mo with
    | Some m => (newDate tz yr (m - 1) 1 0 0 0 0, newDate tz yr m 0 23 59 59 999)
    | None => (newDate tz yr 0 1 0 0 0 0, newDate tz yr 11 31 23 59 59 999)
    end in
  let entries := queryEntries forEmployee startDate endDate db in
  let yearlyData := yearlyDataOf tz yr mo entries in
  inr {| r_employee := employee;
         r_startDate := formatDate startDate;
         r_endDate := formatDate endDate;
         data := yearlyData;
         summary :=
           {| totalEntries := List.length entries;
              totalHours := y_totalHours yearlyData;
              averageHoursPerDay :=
                if (0 <? List.length entries)%nat
                then (y_totalHours yearlyData / inject_Z (Z.of_nat (List.length entries)))%Q
                else 0%Q;
              daysWorked := List.length entries |} |}.

(** Every day bucket of a report. *)
Definition allDays (r : Report) : list DailyData :=
  flat_map days (flat_map weeks (months (data r))).

(** The closed entries of an employee with [clockIn] inside the window. *)
Definition closedInWindow (forEmployee : ObjectId) (startDate endDate : Date) (db : DB)
  : list TimeEntry :=
  filter (fun e =>
            Nat.eqb (employeeId e) forEmployee
            && (startDate <=? clockIn e) && (clockIn e <=? endDate)
            && isSome (clockOut e))
         (timeEntries db).

(** The distinct local calendar days on which the entries start. *)
Definition distinctDays (tz : Z) (es : list TimeEntry) : list Z :=
  nodup Z.eq_dec (map (fun e => Day (clockIn e + tz)) es).

End EmployeeReport.

(* ------------------------------------------------------------------ *)
(** * The system as a transition system *)
(* ------------------------------------------------------------------ *)

(** A request the core serves.  Employee administration (create, edit,
    delete) only ever replaces the [employees] collection. *)
Inductive Request : Type :=
| ReqTimeEntry (newId employeeId : ObjectId) (action : string)
| ReqAutoClockout (tz : Z) (f : AutoClockout.Faults) (targetDate : Date) (dryRun : bool)
| ReqSelective (f : AutoClockout.Faults) (selected : list (ObjectId * Date))
               (admin : ObjectId)
| ReqCheckAndPerform (tz : Z) (f : AutoClockout.Faults)
| ReqEnforceNoOvertime (tz : Z) (f : AutoClockout.Faults)
| ReqCorrect (id : ObjectId) (body : CorrectRoute.Body)
| ReqBatch (body : NeedsReviewRoute.Body)
| ReqEmployeeAdmin (employees' : list Employee.t).

Definition handle (now : Date) (req : Request) (db : DB) : DB :=
  match req with
  | ReqTimeEntry newId emp action => snd (TimeEntriesRoute.POST now newId emp action db)
  | ReqAutoClockout tz f target dryRun =>
      snd (AutoClockout.performAutoClockout tz f now target dryRun db)
  | ReqSelective f selected admin =>
      snd (AutoClockout.performSelectiveAutoClockout f now selected admin db)
  | ReqCheckAndPerform tz f => snd (AutoClockout.checkAndPerformAutoClockout tz f now db)
  | ReqEnforceNoOvertime tz f => snd (AutoClockout.enforceNoOvertimePolicy tz f now db)
  | ReqCorrect id body => snd (CorrectRoute.PUT now id body db)
  | ReqBatch body => snd (NeedsReviewRoute.POST now body db)
  | ReqEmployeeAdmin emps => {| employees := emps; timeEntries := timeEntries db |}
  end.

(** States reachable from an installation without time entries; requests
    are served one transaction after the other. *)
Inductive reachable : DB -> Prop :=
| reachable_init : forall emps, reachable {| employees := emps; timeEntries := [] |}
| reachable_step : forall db now req,
    reachable db -> reachable (handle now req db).

Definition activeCount (emp : ObjectId) (db : DB) : nat :=
  List.length (filter (fun e => Nat.eqb (employeeId e) emp && isActive e) (timeEntries db)).

(** [n] clock-in calls for one employee, each with its own instant and
    generated id, served in the order of the list. *)
Fixpoint clockInCalls (calls : list (Date * ObjectId)) (emp : ObjectId) (db : DB)
  : list (Exc TimeEntry) * DB :=
  match calls with
  | [] => ([], db)
  | (now, newId) :: rest =>
      let '(r, db') := TimeEntriesRoute.POST now newId emp "clockIn" db in
      let '(rs, db'') := clockInCalls rest emp db' in
      (r :: rs, db'')
  end.

Definition succeeded {A} (r : Exc A) : bool :=
  match r with inr _ => true | inl _ => false end.

(* ------------------------------------------------------------------ *)
(** * Clock-in calls that overlap *)
(* ------------------------------------------------------------------ *)

Module Concurrent.

(** An index declared on the time-entry collection. *)
Record Index : Type := mkIndex {
  keys : list string;
  activeEntriesOnly : bool;
  unique : bool
}.

(** [TimeEntrySchema.index({ employeeId: 1, clockOut: 1 },
    { partialFilterExpression: { clockOut: null } })], the index kept for
    the active-entry check.  Neither it nor any other index of the
    schema is given the [unique] option. *)
Definition activeEntryIndex : Index :=
  {| keys := ["employeeId"; "clockOut"]%string; activeEntriesOnly := true;
     unique := false |}.

(** The same index, had it been declared unique. *)
Definition uniqueActiveEntryIndex : Index :=
  {| keys := ["employeeId"; "clockOut"]%string; activeEntriesOnly := true;
     unique := true |}.

(** What the server answers to an insert a unique index refuses. *)
Definition duplicateKey : Error :=
  Driver {| d_name := "MongoServerError"; d_code := Some (CodeNumber 11000);
            d_message := "E11000 duplicate key error"; d_labels := [] |}.

(** [TimeEntry.create([timeEntry], { session })] and the commit that
    follows it: the document is added unless a unique index holds its
    key already, the key being the employee among the entries without
    clock-out.  Two transactions that insert different documents do not
    conflict. *)
Definition insertUnder (ix : Index) (e : TimeEntry) (db : DB) : Exc DB :=
  if unique ix && isActive e
     && isSome (findActiveEntry (employeeId e) (timeEntries db))
  then inl duplicateKey
  else inr (withEntries db (timeEntries db ++ [e])).

(** Where a clock-in call stands.  The handler gives way to other
    requests at every [await]: before [Employee.findById], before
    [TimeEntry.findOne] and before [TimeEntry.create]. *)
Inductive Progress : Type :=
| BeforeFindEmployee
| BeforeFindActiveEntry
| BeforeCreate
| Returned (result : Exc TimeEntry).

Record Call : Type := mkCall {
  c_now : Date;
  c_newId : ObjectId;
  c_employeeId : ObjectId;
  progress : Progress
}.

Definition start (now : Date) (newId employeeId : ObjectId) : Call :=
  {| c_now := now; c_newId := newId; c_employeeId := employeeId;
     progress := BeforeFindEmployee |}.

Definition moveTo (p : Progress) (c : Call) : Call :=
  {| c_now := c_now c; c_newId := c_newId c; c_employeeId := c_employeeId c;
     progress := p |}.

(** The call runs up to its next [await].  A read sees every write
    committed so far; under the snapshot of a transaction it would see
    no more than that. *)
Definition step (ix : Index) (c : Call) (db : DB) : Call * DB :=
  match progress c with
  | BeforeFindEmployee =>
      match Employee_findById (c_employeeId c) db with
      | None => (moveTo (Returned (inl EmployeeNotFound)) c, db)
      | Some _ => (moveTo BeforeFindActiveEntry c, db)
      end
  | BeforeFindActiveEntry =>
      match findActiveEntry (c_employeeId c) (timeEntries db) with
      | Some _ => (moveTo (Returned (inl AlreadyClockedIn)) c, db)
      | None => (moveTo BeforeCreate c, db)
      end
  | BeforeCreate =>
      let timeEntry := newTimeEntry (c_newId c) (c_employeeId c) (c_now c) in
      match insertUnder ix timeEntry db with
      | inl e => (moveTo (Returned (inl e)) c, db)
      | inr db' => (moveTo (Returned (inr timeEntry)) c, db')
      end
  | Returned _ => (c, db)
  end.

Fixpoint replaceNth {A} (n : nat) (x : A) (l : list A) : list A :=
  match l, n with
  | [], _ => []
  | _ :: rest, O => x :: rest
  | y :: rest, S n' => y :: replaceNth n' x rest
  end.

(** [schedule] names, step after step, the call that runs next. *)
Fixpoint run (ix : Index) (schedule : list nat) (calls : list Call) (db : DB)
  : list Call * DB :=
  match schedule with
  | [] => (calls, db)
  | i :: rest =>
      match nth_error calls i with
      | Some c =>
          let '(c', db') := step ix c db in
          run ix rest (replaceNth i c' calls) db'
      | None => run ix rest calls db
      end
  end.

End Concurrent.

(** An update never reopens an entry and never moves it to another
    employee. *)
Definition keepsClosed (e e' : TimeEntry) : Prop :=
  employeeId e' = employeeId e /\ (isActive e' = true -> isActive e = true).

Definition noReopen (es es' : list TimeEntry) : Prop := Forall2 keepsClosed es es'.

(** [e'] is [e] left alone, or [e] closed with review flag [b]. *)
Definition closedWithFlag (b : bool) (e e' : TimeEntry) : Prop :=
  e' = e \/ (needsReview e' = b /\ isActive e' = false).

(** The identity of an entry and a recorded original clock-out survive. *)
Definition keepsOriginal (e e' : TimeEntry) : Prop :=
  _id e' = _id e /\
  forall c, originalClockOut e = Some c -> originalClockOut e' = Some c.

(** [es'] is [es] with entries rewritten pointwise along [P], possibly
    followed by new entries. *)
Definition evolves (P : TimeEntry -> TimeEntry -> Prop) (es es' : list TimeEntry) : Prop :=
  exists es0 added, Forall2 P es es0 /\ es' = es0 ++ added.

(** Serving a list of requests, each at its own instant. *)
Definition serve (reqs : list (Date * Request)) (db : DB) : DB :=
  fold_left (fun d r => handle (fst r) (snd r) d) reqs db.

(* ------------------------------------------------------------------ *)
(** * Concrete data used in the examples below *)
(* ------------------------------------------------------------------ *)

Module Examples.

Definition alice : Employee.t := Employee.mk 1%nat "Alice" false.
Definition bea : Employee.t := Employee.mk 2%nat "Bea" true.
Definition carl : Employee.t := Employee.mk 3%nat "Carl" false.

(** Monday 1 January 2024, 00:00 UTC. *)
Definition jan1 : Date := 19723 * msPerDay.

Definition at_ (dayOfJanuary hourOfDay : Z) : Date :=
  jan1 + (dayOfJanuary - 1) * msPerDay + hourOfDay * msPerHour.

(** A fresh installation with three employees; Bea is the administrator. *)
Definition staff : DB := {| employees := [alice; bea; carl]; timeEntries := [] |}.

(** Alice clocks in on Monday at 09:00. *)
Definition aliceOpen : TimeEntry := newTimeEntry 10%nat 1%nat (at_ 1 9).

Definition openShop : DB :=
  serve [(at_ 1 9, ReqTimeEntry 10%nat 1%nat "clockIn")] staff.

(** Carl clocks in on Monday at 20:30, after closing time. *)
Definition lateShop : DB :=
  serve [(at_ 1 20 + 30 * msPerMinute, ReqTimeEntry 11%nat 3%nat "clockIn")] staff.

(** At 21:00 the auto-clockout runs (UTC host) and closes Alice's entry
    at 20:00. *)
Definition reviewShop : DB :=
  serve [(at_ 1 21, ReqAutoClockout 0 AutoClockout.noFaults (at_ 1 21) false)] openShop.

Definition aliceAuto : TimeEntry :=
  {| _id := 10%nat; employeeId := 1%nat; clockIn := at_ 1 9;
     clockOut := Some (at_ 1 20); hoursWorked := None;
     isAutoClockOut := true;
     autoClockOutReason := Some (NoOvertimePolicy (at_ 1 20));
     needsReview := true; originalClockOut := None;
     adminCorrected := false; correctedBy := None; correctedAt := None;
     adminNotes := None;
     createdAt := at_ 1 9; updatedAt := at_ 1 21 |}.

(** On Tuesday Bea moves Alice's clock-out to 17:00 and leaves a note. *)
Definition moveTo17 : CorrectRoute.Body :=
  {| CorrectRoute.b_clockOut := Some (at_ 1 17);
     CorrectRoute.adminEmployeeId := Some 2%nat;
     CorrectRoute.b_adminNotes := Some "left at five"%string;
     CorrectRoute.markAsCorrect := false |}.

Definition correctedShop : DB :=
  serve [(at_ 2 10, ReqCorrect 10%nat moveTo17)] reviewShop.

(** On Wednesday she moves it again, to 18:00, without notes. *)
Definition moveTo18 : CorrectRoute.Body :=
  {| CorrectRoute.b_clockOut := Some (at_ 1 18);
     CorrectRoute.adminEmployeeId := Some 2%nat;
     CorrectRoute.b_adminNotes := None;
     CorrectRoute.markAsCorrect := false |}.

(** Alice's entry of Thursday 11 January is closed by a run at 22:00,
    Carl's of Monday 15 January by the run at closing time, 20:00. *)
Definition pendingReviews : DB :=
  serve [(at_ 11 9, ReqTimeEntry 20%nat 1%nat "clockIn");
         (at_ 11 22, ReqAutoClockout 0 AutoClockout.noFaults (at_ 11 22) false);
         (at_ 15 9, ReqTimeEntry 21%nat 3%nat "clockIn");
         (at_ 15 20, ReqAutoClockout 0 AutoClockout.noFaults (at_ 15 20) false)]
        staff.

(** A host one hour east of UTC. *)
Definition oneHourEast : Z := msPerHour.

(** Alice works on Sunday 7 January 2024 from 10:00 to 18:00 local time
    of that host (09:00 to 17:00 UTC). *)
Definition sundayShift : DB :=
  serve [(at_ 7 9, ReqTimeEntry 30%nat 1%nat "clockIn");
         (at_ 7 17, ReqTimeEntry 0%nat 1%nat "clockOut")]
        staff.

(** Monday 4 March 2024, 00:00 UTC. *)
Definition mar4 : Date := daysFromCivil 2024 3 4 * msPerDay.

(** Alice works two sessions that day, 09:00-12:00 and 13:00-17:00. *)
Definition splitShift : DB :=
  serve [(mar4 + 9 * msPerHour, ReqTimeEntry 40%nat 1%nat "clockIn");
         (mar4 + 12 * msPerHour, ReqTimeEntry 0%nat 1%nat "clockOut");
         (mar4 + 13 * msPerHour, ReqTimeEntry 41%nat 1%nat "clockIn");
         (mar4 + 17 * msPerHour, ReqTimeEntry 0%nat 1%nat "clockOut")]
        staff.

End Examples.

(* ------------------------------------------------------------------ *)
(** * The schedule shown to the administrator *)
(* ------------------------------------------------------------------ *)

Module Schedule.

(** The loop [while (nextDate.getDay() === 0 ? false : true)] of
    [getNextAutoClockoutTime] and the [return] after it; [fuel] bounds
    the number of iterations, [None] is a loop that used it up. *)
Fixpoint nextBusinessDay (fuel : nat) (tz : Z) (fromDate nextDate : Date)
  : option Date :=
  match fuel with
  | O => None
  | S fuel' =>
      if negb (getDay tz nextDate =? 0) then
        let autoClockoutTime := AutoClockout.getAutoClockoutTime tz nextDate in
        if fromDate <? autoClockoutTime then Some autoClockoutTime
        else nextBusinessDay fuel' tz fromDate
               (setDate tz nextDate (getDate tz nextDate + 1))
      else Some (AutoClockout.getAutoClockoutTime tz nextDate)
  end.

Definition getNextAutoClockoutTime (fuel : nat) (tz : Z) (fromDate : Date)
  : option Date :=
  let nextDate := setDate tz fromDate (getDate tz fromDate + 1) in
  let nextDate := setHours tz nextDate 0 0 0 0 in
  nextBusinessDay fuel tz fromDate nextDate.

End Schedule.

(** What a dry run keeps true of its result: nothing counted, and every
    previewed employee shown with clock-out [t] and the hours up to it. *)
Definition previewOk (t : Date) (r : AutoClockout.AutoClockoutResult) : Prop :=
  AutoClockout.clockedOutCount r = 0%nat
  /\ Forall (fun c => AutoClockout.clockOutTime c = t
                      /\ AutoClockout.co_hoursWorked c
                         = hoursOf (AutoClockout.clockInTime c) t)
            (AutoClockout.clockedOutEmployees r).

(** The entries with an id in [ids] closed by the bulk update, the others
    as they are. *)
Definition closeListed (now : Date) (t : Date) (ids : list ObjectId) (e : TimeEntry)
  : TimeEntry :=
  if existsb (Nat.eqb (_id e)) ids
  then applyUpdate now (AutoClockout.autoClockoutUpdate t) e else e.

(* ------------------------------------------------------------------ *)
(** * Further scenarios *)
(* ------------------------------------------------------------------ *)

Module Scenarios.
Import Examples.

(** Alice (09:00) and Carl (10:00) are both clocked in on Monday. *)
Definition twoOpen : DB :=
  serve [(at_ 1 9, ReqTimeEntry 10%nat 1%nat "clockIn");
         (at_ 1 10, ReqTimeEntry 11%nat 3%nat "clockIn")] staff.

(** Carl's account is removed at noon, while he is clocked in. *)
Definition carlRemoved : DB :=
  serve [(at_ 1 12, ReqEmployeeAdmin [alice; bea])] twoOpen.

End Scenarios.

(** An operation that records the number of each attempt in the object
    it captures and ends as [outcome] says. *)
Definition recordAttempts (outcome : nat -> Exc DB) : nat -> Database.Tx (list nat) :=
  fun attempt _ log => (outcome attempt, log ++ [attempt]).

(** What the loop answers when it stops after an attempt that ended as
    [o]; [last] tells whether that was the last attempt allowed. *)
Definition stopsWith (last : bool) (o res : Exc DB) : Prop :=
  match o with
  | inr d => res = inr d
  | inl e =>
      if last then res = inl e
      else match Database.isTransientError e with
           | inl thrown => res = inl thrown
           | inr transient => transient = false /\ res = inl e
           end
  end.




(** A connection that closed: the driver's network error has no [code]. *)
Definition connectionClosed : Error :=
  Driver {| d_name := "MongoNetworkError"; d_code := None;
            d_message := "connection 3 to 127.0.0.1:27017 closed";
            d_labels := ["TransientTransactionError"%string] |}.

(** A write conflict as the server reports it: code 112 and the label
    that asks for a retry. *)
Definition writeConflict : Error :=
  Driver {| d_name := "MongoServerError"; d_code := Some (CodeNumber 112);
            d_message := "WriteConflict";
            d_labels := ["TransientTransactionError"%string] |}.



(** The first commit fails with a write conflict. *)
Definition writeConflictAtCommit : AutoClockout.Faults :=
  {| AutoClockout.connectDB_fails := None;
     AutoClockout.update_fails := fun _ _ => None;
     AutoClockout.commit :=
       fun attempt => if Nat.eqb attempt 0 then Database.CommitFails writeConflict
                      else Database.Committed |}.

(** In the first attempt the update of entry 10 fails and the commit
    fails on a closed connection; the second attempt meets no fault. *)
Definition failsThenRecovers : AutoClockout.Faults :=
  {| AutoClockout.connectDB_fails := None;
     AutoClockout.update_fails :=
       fun attempt id =>
         if Nat.eqb attempt 0 && Nat.eqb id 10 then Some writeConflict else None;
     AutoClockout.commit :=
       fun attempt => if Nat.eqb attempt 0 then Database.CommitFails connectionClosed
                      else Database.Committed |}.

(** The update document of the manual clock-out. *)
Definition clockOutUpdate (clockOutTime : Date) (hours : Q) : Update :=
  {| u_clockOut := Some clockOutTime; u_hoursWorked := Some hours;
     u_isAutoClockOut := None; u_autoClockOutReason := None;
     u_needsReview := None; u_originalClockOut := None;
     u_adminCorrected := None; u_correctedBy := None;
     u_correctedAt := None; u_adminNotes := None |}.

(** The update document a successful single correction writes: it is
    determined by the request and the entry found. *)
Definition correctionUpdate (now : Date) (admin : ObjectId) (body : CorrectRoute.Body)
    (timeEntry : TimeEntry) : Update :=
  {| u_clockOut := CorrectRoute.b_clockOut body;
     u_hoursWorked := None; u_isAutoClockOut := None; u_autoClockOutReason := None;
     u_needsReview := Some false;
     u_originalClockOut :=
       if isSome (CorrectRoute.b_clockOut body)
          && negb (isSome (originalClockOut timeEntry)) && isAutoClockOut timeEntry
       then clockOut timeEntry else None;
     u_adminCorrected := Some true;
     u_correctedBy := Some admin;
     u_correctedAt := Some now;
     u_adminNotes := Some (orNull (CorrectRoute.b_adminNotes body)) |}.

(** The update document of a batch request, with or without a new
    clock-out. *)
Definition batchUpdate (now : Date) (admin : ObjectId) (notes : option string)
    (newClockOut : option Date) : Update :=
  {| u_clockOut := newClockOut;
     u_hoursWorked := None; u_isAutoClockOut := None; u_autoClockOutReason := None;
     u_needsReview := Some false;
     u_originalClockOut := None;
     u_adminCorrected := Some true;
     u_correctedBy := Some admin;
     u_correctedAt := Some now;
     u_adminNotes :=
       match orNull notes with
       | Some s => Some (Some s)
       | None => None
       end |}.

(** The entries a batch request selects. *)
Definition batchFilter (ids : list ObjectId) (newClockOut : option Date) (e : TimeEntry)
  : bool :=
  match newClockOut with
  | None => NeedsReviewRoute.idIn ids e && isSome (clockOut e)
  | Some c => NeedsReviewRoute.idIn ids e && isSome (clockOut e) && (clockIn e <? c)
  end.

(** What holds of every stored entry (see [reachable_wellFormed]). *)
Definition wellFormed (e : TimeEntry) : Prop :=
  (isActive e = true ->
   hoursWorked e = None /\ isAutoClockOut e = false /\ autoClockOutReason e = None
   /\ needsReview e = false /\ originalClockOut e = None /\ adminCorrected e = false
   /\ correctedBy e = None /\ correctedAt e = None /\ adminNotes e = None)
  /\ (needsReview e = true -> isAutoClockOut e = true)
  /\ (isAutoClockOut e = true -> autoClockOutReason e <> None)
  /\ (originalClockOut e <> None -> isAutoClockOut e = true /\ adminCorrected e = true)
  /\ (adminCorrected e = true <-> correctedBy e <> None)
  /\ (adminCorrected e = true <-> correctedAt e <> None)
  /\ (forall s, adminNotes e = Some s ->
        adminCorrected e = true /\ s <> ""%string /\ (String.length s <= 500)%nat)
  /\ (forall h, hoursWorked e = Some h -> (0 <= h)%Q).

(** A note of 501 characters. *)
Definition longNote : string := String.concat "" (repeat "a"%string 501).

Module BatchScenarios.
Import Examples.

(** Bea moves the clock-out of entry 10 to 17:00 through the batch
    route, without notes. *)
Definition batchTo17 : NeedsReviewRoute.Body :=
  {| NeedsReviewRoute.action := "batch-correct";
     NeedsReviewRoute.entryIds := [10%nat];
     NeedsReviewRoute.adminEmployeeId := Some 2%nat;
     NeedsReviewRoute.clockOutTime := Some (at_ 1 17);
     NeedsReviewRoute.b_adminNotes := None |}.

(** She marks entry 10 as correct, without notes, after the single
    correction that left a note. *)
Definition markCorrect : NeedsReviewRoute.Body :=
  {| NeedsReviewRoute.action := "mark-correct";
     NeedsReviewRoute.entryIds := [10%nat];
     NeedsReviewRoute.adminEmployeeId := Some 2%nat;
     NeedsReviewRoute.clockOutTime := None;
     NeedsReviewRoute.b_adminNotes := None |}.

End BatchScenarios.

(** Buckets with distinct keys, none of them empty, each holding values
    of its key only. *)
Definition bucketsOk {V : Type} (key : V -> nat) (m : list (nat * list V)) : Prop :=
  NoDup (map fst m)
  /\ Forall (fun kv => snd kv <> [] /\ Forall (fun v => key v = fst kv) (snd kv)) m.

(* ------------------------------------------------------------------ *)
(** * Listing time entries: [GET /api/timeentries] *)
(* ------------------------------------------------------------------ *)

Module TimeEntriesList.

(** [new Date(now.setDate(now.getDate() - now.getDay()))] *)
Definition startOfWeek (tz : Z) (now : Date) : Date :=
  setDate tz now (getDate tz now - getDay tz now).

(** [new Date(now.getFullYear(), now.getMonth(), 1)] *)
Definition startOfMonth (tz : Z) (now : Date) : Date :=
  newDate tz (getFullYear tz now) (getMonth tz now) 1 0 0 0 0.

(** The [clockIn] condition of the query; no period, or an unknown one,
    puts no condition. *)
Definition inPeriod (tz : Z) (now : Date) (period : option string) (e : TimeEntry) : bool :=
  match period with
  | Some p =>
      if String.eqb p "week" then startOfWeek tz now <=? clockIn e
      else if String.eqb p "month" then startOfMonth tz now <=? clockIn e
      else true
  | None => true
  end.

(** [forEmployee] is [None] for a missing [employeeId] and for ['all'].
    The entries come with their employee populated, latest clock-in
    first. *)
Definition GET (tz : Z) (now : Date) (forEmployee : option ObjectId)
    (period : option string) (db : DB) : list (TimeEntry * option Employee.t) :=
  map (fun e => (e, Employee_findById (employeeId e) db))
      (sortBy (fun a b => clockIn b <=? clockIn a)
         (filter (fun e =>
                    match forEmployee with
                    | Some id => Nat.eqb (employeeId e) id
                    | None => true
                    end
                    && inPeriod tz now period e)
                 (timeEntries db))).

End TimeEntriesList.

(* ------------------------------------------------------------------ *)
(** * The review list: [GET /api/timeentries/needs-review] *)
(* ------------------------------------------------------------------ *)

Module NeedsReviewList.

(** The start of the week of the review list: the same Sunday, moved to
    local midnight by [setHours(0, 0, 0, 0)]. *)
Definition startOfWeek (tz : Z) (now : Date) : Date :=
  setHours tz (setDate tz now (getDate tz now - getDay tz now)) 0 0 0 0.

Record Stats : Type := mkStats {
  totalNeedsReview : nat;
  autoClockoutsNeedingReview : nat;
  correctedToday : nat
}.

(** The three [countDocuments] calls. *)
Definition stats (tz : Z) (now : Date) (db : DB) : Stats :=
  {| totalNeedsReview := List.length (filter needsReview (timeEntries db));
     autoClockoutsNeedingReview :=
       List.length (filter (fun e => isAutoClockOut e && needsReview e) (timeEntries db));
     correctedToday :=
       List.length
         (filter (fun e =>
                    adminCorrected e
                    && match correctedAt e with
                       | Some t => setHours tz now 0 0 0 0 <=? t
                       | None => false
                       end)
                 (timeEntries db)) |}.

End NeedsReviewList.

(* ------------------------------------------------------------------ *)
(** * Removing an employee: [DELETE /api/employees/[id]] *)
(* ------------------------------------------------------------------ *)

Module EmployeeRoute.

Inductive DeleteError : Type :=
| DeleteEmployeeNotFound
| CannotDeleteLastAdmin.

(** [findByIdAndDelete]: the first document with that id goes. *)
Fixpoint deleteById (id : ObjectId) (l : list Employee.t) : list Employee.t :=
  match l with
  | [] => []
  | x :: rest =>
      if Nat.eqb (Employee._id x) id then rest else x :: deleteById id rest
  end.

Definition adminCount (db : DB) : nat :=
  List.length (filter Employee.isAdmin (employees db)).

(** The time entries of the employee are left in place. *)
Definition DELETE (id : ObjectId) (db : DB) : (DeleteError + unit) * DB :=
  match Employee_findById id db with
  | None => (inl DeleteEmployeeNotFound, db)
  | Some employee =>
      if Employee.isAdmin employee && (adminCount db <=? 1)%nat
      then (inl CannotDeleteLastAdmin, db)
      else (inr tt, {| employees := deleteById id (employees db);
                       timeEntries := timeEntries db |})
  end.

End EmployeeRoute.

(** The day number of the first day of the month with index [i], where
    month [m] (1..12) of year [y] has index [12 * y + m - 1]. *)
Definition firstOfMonth (i : Z) : Z := daysFromCivil (i / 12) (i mod 12 + 1) 1.

(** The year [new Date(year, ...)] takes [year] for: 0..99 stand for
    1900..1999. *)
Definition yearOf (year : Z) : Z :=
  if (0 <=? year) && (year <=? 99) then 1900 + year else year.

(** The number of days of the month [month] (1..12) of [year], as the
    report sees it: from the first of the month to the day before the
    first of the next. *)
Definition daysInMonth (year month : Z) : Z :=
  firstOfMonth (12 * yearOf year + month) - firstOfMonth (12 * yearOf year + month - 1).

(* ------------------------------------------------------------------ *)
(** * Basic facts about updates *)
(* ------------------------------------------------------------------ *)

Lemma keepsClosed_refl : forall e, keepsClosed e e.
Proof. intro e; split; auto. Qed.

Lemma keepsClosed_trans : forall a b c,
  keepsClosed a b -> keepsClosed b c -> keepsClosed a c.
Proof.
  intros a b c [Hab1 Hab2] [Hbc1 Hbc2]; split.
  - congruence.
  - auto.
Qed.

Lemma noReopen_refl : forall es, noReopen es es.
Proof.
  induction es; constructor; auto using keepsClosed_refl.
Qed.

Lemma noReopen_trans : forall a b c, noReopen a b -> noReopen b c -> noReopen a c.
Proof.
  intros a b c Hab; revert c.
  induction Hab; intros c Hbc; inversion Hbc; subst; constructor.
  - eapply keepsClosed_trans; eauto.
  - apply IHHab; assumption.
Qed.

Lemma applyUpdate_keepsClosed : forall now u e, keepsClosed e (applyUpdate now u e).
Proof.
  intros now u e; split; [reflexivity|].
  unfold isActive, applyUpdate, preUpdateHook; simpl.
  destruct (u_clockOut u); simpl; [discriminate | auto].
Qed.

Lemma updateById_noReopen : forall now id u es e' es',
  updateById now id u es = Some (e', es') -> noReopen es es'.
Proof.
  intros now id u es; induction es as [|e rest IH]; intros e' es' H; simpl in H.
  - discriminate.
  - destruct (Nat.eqb (_id e) id).
    + inversion H; subst. constructor.
      * apply applyUpdate_keepsClosed.
      * apply noReopen_refl.
    + destruct (updateById now id u rest) as [[e1 rest1]|] eqn:E; [|discriminate].
      inversion H; subst. constructor.
      * apply keepsClosed_refl.
      * eapply IH; reflexivity.
Qed.

Lemma updateMany_noReopen : forall now p u es,
  noReopen es (fst (updateMany now p u es)).
Proof.
  intros now p u es; unfold updateMany; simpl.
  induction es as [|e rest IH]; simpl; constructor; auto.
  destruct (p e); [apply applyUpdate_keepsClosed | apply keepsClosed_refl].
Qed.

Lemma findByIdAndUpdate_noReopen : forall now id u es e' es',
  findByIdAndUpdate now id u es = inr (Some (e', es')) -> noReopen es es'.
Proof.
  unfold findByIdAndUpdate; intros now id u es e' es' H.
  destruct (validUpdate u); [|discriminate].
  inversion H. eapply updateById_noReopen; eauto.
Qed.

Lemma noReopen_activeCount : forall emp es es',
  noReopen es es' ->
  (List.length (filter (fun e => Nat.eqb (employeeId e) emp && isActive e) es')
   <= List.length (filter (fun e => Nat.eqb (employeeId e) emp && isActive e) es))%nat.
Proof.
  intros emp es es' H; induction H as [|e e' es es' [Hid Hact] _ IH]; simpl.
  - lia.
  - rewrite Hid.
    destruct (Nat.eqb (employeeId e) emp); simpl; [|exact IH].
    destruct (isActive e') eqn:E'.
    + rewrite (Hact eq_refl); simpl; lia.
    + destruct (isActive e); simpl; lia.
Qed.

(* ------------------------------------------------------------------ *)
(** * Facts about the retry helper *)
(* ------------------------------------------------------------------ *)

Lemma withRetryFrom_inr : forall R (op : nat -> Database.Tx R) left attempt db r db' r',
  Database.withRetryFrom left attempt op db r = (inr db', r') ->
  exists a r0, op a db r0 = (inr db', r').
Proof.
  intros R op left; induction left as [|left IH]; intros attempt db r db' r' H;
    simpl in H.
  - destruct (op attempt db r) as [[e|d] r1] eqn:E.
    + discriminate.
    + inversion H; subst; eauto.
  - destruct (op attempt db r) as [[e|d] r1] eqn:E.
    + destruct (Database.isTransientError e) as [thrown|[|]]; try discriminate.
      eapply IH; eauto.
    + inversion H; subst; eauto.
Qed.

Lemma withTransactionRetry_inr : forall R commit (fn : nat -> Database.Tx R) db r db' r',
  Database.withTransactionRetry commit fn db r = (inr db', r') ->
  exists a r0, fn a db r0 = (inr db', r').
Proof.
  intros R commit fn db r db' r' H.
  apply withRetryFrom_inr in H. destruct H as (a & r0 & H).
  unfold Database.session_withTransaction in H.
  destruct (fn a db r0) as [[e|d] r1] eqn:E; [discriminate|].
  destruct (commit a); inversion H; subst; eauto.
Qed.

(* ------------------------------------------------------------------ *)
(** * No request reopens an entry *)
(* ------------------------------------------------------------------ *)

Lemma fold_left_noReopen : forall (X S : Type)
    (step : list TimeEntry * S -> X -> list TimeEntry * S),
  (forall st x, noReopen (fst st) (fst (step st x))) ->
  forall l st, noReopen (fst st) (fst (fold_left step l st)).
Proof.
  intros X S step Hstep l; induction l as [|x l IH]; intro st; simpl.
  - apply noReopen_refl.
  - eapply noReopen_trans; [apply Hstep | apply IH].
Qed.

Lemma autoClockoutEntry_noReopen : forall f att now dryRun t st x,
  noReopen (fst st) (fst (AutoClockout.autoClockoutEntry f att now dryRun t st x)).
Proof.
  intros f att now dryRun t [es r] [entry employee]; unfold AutoClockout.autoClockoutEntry.
  destruct dryRun.
  - destruct employee; apply noReopen_refl.
  - destruct (AutoClockout.update_fails f att (_id entry)) as [thrown|]; [apply noReopen_refl|].
    destruct (findByIdAndUpdate now (_id entry) (AutoClockout.autoClockoutUpdate t) es)
      as [e|[[u es']|]] eqn:E; simpl; try apply noReopen_refl.
    apply findByIdAndUpdate_noReopen in E.
    destruct employee; exact E.
Qed.

Lemma selectiveEntry_noReopen : forall f att now admin db st x,
  noReopen (fst st) (fst (AutoClockout.selectiveEntry f att now admin db st x)).
Proof.
  intros f att now admin db [es r] [sel t]; unfold AutoClockout.selectiveEntry.
  destruct (findActiveEntry sel es) as [a|]; [|apply noReopen_refl].
  destruct (t <=? clockIn a); [apply noReopen_refl|].
  destruct (AutoClockout.update_fails f att (_id a)) as [thrown|]; [apply noReopen_refl|].
  destruct (findByIdAndUpdate now (_id a) (AutoClockout.selectiveUpdate now t admin) es)
    as [e|[[u es']|]] eqn:E; simpl; try apply noReopen_refl.
  eapply findByIdAndUpdate_noReopen; eauto.
Qed.

Lemma autoClockoutTx_noReopen : forall f att now dryRun t db r db' r',
  AutoClockout.autoClockoutTx f now dryRun t att db r = (inr db', r') ->
  noReopen (timeEntries db) (timeEntries db').
Proof.
  intros f att now dryRun t db r db' r' H; unfold AutoClockout.autoClockoutTx in H.
  match type of H with
  | context [fold_left ?s ?l ?st] =>
      pose proof (fold_left_noReopen _ _ s
                    (autoClockoutEntry_noReopen f att now dryRun t) l st) as Hn;
      destruct (fold_left s l st) as [es' r1]
  end.
  inversion H; subst; exact Hn.
Qed.

Lemma selectiveTx_noReopen : forall f att now sel admin db r db' r',
  AutoClockout.selectiveTx f now sel admin att db r = (inr db', r') ->
  noReopen (timeEntries db) (timeEntries db').
Proof.
  intros f att now sel admin db r db' r' H; unfold AutoClockout.selectiveTx in H.
  match type of H with
  | context [fold_left ?s ?l ?st] =>
      pose proof (fold_left_noReopen _ _ s
                    (selectiveEntry_noReopen f att now admin db) l st) as Hn;
      destruct (fold_left s l st) as [es' r1]
  end.
  inversion H; subst; exact Hn.
Qed.

Lemma performAutoClockout_noReopen : forall tz f now target dryRun db,
  noReopen (timeEntries db)
           (timeEntries (snd (AutoClockout.performAutoClockout tz f now target dryRun db))).
Proof.
  intros; unfold AutoClockout.performAutoClockout.
  destruct (AutoClockout.connectDB_fails f) as [thrown|]; [apply noReopen_refl|].
  match goal with
  | |- context [Database.withTransactionRetry ?c ?fn ?d ?r] =>
      destruct (Database.withTransactionRetry c fn d r) as [[e|db'] r'] eqn:E
  end; simpl; [apply noReopen_refl|].
  apply withTransactionRetry_inr in E; destruct E as (att & r0 & E).
  eapply autoClockoutTx_noReopen; eauto.
Qed.

Lemma performSelective_noReopen : forall f now sel admin db,
  noReopen (timeEntries db)
           (timeEntries (snd (AutoClockout.performSelectiveAutoClockout f now sel admin db))).
Proof.
  intros; unfold AutoClockout.performSelectiveAutoClockout.
  destruct (AutoClockout.connectDB_fails f) as [thrown|]; [apply noReopen_refl|].
  match goal with
  | |- context [Database.withTransactionRetry ?c ?fn ?d ?r] =>
      destruct (Database.withTransactionRetry c fn d r) as [[e|db'] r'] eqn:E
  end; simpl; [apply noReopen_refl|].
  apply withTransactionRetry_inr in E; destruct E as (att & r0 & E).
  eapply selectiveTx_noReopen; eauto.
Qed.

Lemma inTransaction_cases : forall A (body : DB -> Exc (A * DB)) db,
  (exists e, body db = inl e /\ inTransaction body db = (inl e, db)) \/
  (exists a db', body db = inr (a, db') /\ inTransaction body db = (inr a, db')).
Proof.
  intros A body db; unfold inTransaction.
  destruct (body db) as [e|[a db']]; [left|right]; eauto.
Qed.

Lemma correctBody_noReopen : forall now id admin body db e db',
  CorrectRoute.correctBody now id admin body db = inr (e, db') ->
  noReopen (timeEntries db) (timeEntries db').
Proof.
  intros now id admin body db e db' H; unfold CorrectRoute.correctBody in H.
  destruct (assertExc (isAdminId admin db) AdminPrivilegesRequired); [discriminate|].
  simpl in H.
  destruct (TimeEntry_findById id (timeEntries db)) as [te|]; [|discriminate].
  simpl in H.
  destruct (assertExc (isSome (clockOut te)) EntryStillActive); [discriminate|].
  simpl in H.
  destruct (CorrectRoute.updateDataFor now admin body te) as [?|ud]; [discriminate|].
  simpl in H.
  destruct (findByIdAndUpdate now id ud (timeEntries db)) as [?|[[e1 es1]|]] eqn:E;
    simpl in H; try discriminate.
  inversion H; subst; simpl.
  eapply findByIdAndUpdate_noReopen; eauto.
Qed.

Lemma batchBody_noReopen : forall now admin body db n db',
  NeedsReviewRoute.batchBody now admin body db = inr (n, db') ->
  noReopen (timeEntries db) (timeEntries db').
Proof.
  intros now admin body db n db' H; unfold NeedsReviewRoute.batchBody in H.
  cbv zeta in H.
  destruct (String.eqb (NeedsReviewRoute.action body) "mark-correct").
  - match type of H with
    | context [assertExc ?b ?e] => destruct (assertExc b e); [discriminate|]
    end.
    cbn [bindExc] in H.
    match type of H with
    | context [updateMany ?a ?p ?u ?es] =>
        pose proof (updateMany_noReopen a p u es) as Hn;
        destruct (updateMany a p u es) as [es' m]
    end.
    inversion H; subst; exact Hn.
  - destruct (String.eqb (NeedsReviewRoute.action body) "batch-correct");
      [|discriminate].
    destruct (NeedsReviewRoute.clockOutTime body) as [c|]; [|discriminate].
    destruct (assertExc (negb (now <? c)) FutureClockOut); [discriminate|].
    cbn [bindExc] in H.
    match type of H with
    | context [assertExc ?b ?e] => destruct (assertExc b e); [discriminate|]
    end.
    cbn [bindExc] in H.
    match type of H with
    | context [updateMany ?a ?p ?u ?es] =>
        pose proof (updateMany_noReopen a p u es) as Hn;
        destruct (updateMany a p u es) as [es' m]
    end.
    inversion H; subst; exact Hn.
Qed.

(* ------------------------------------------------------------------ *)
(** * Clock in, clock out and the active-entry invariant *)
(* ------------------------------------------------------------------ *)

Lemma findActiveEntry_None_count : forall emp es,
  findActiveEntry emp es = None ->
  filter (fun e => Nat.eqb (employeeId e) emp && isActive e) es = [].
Proof.
  intros emp es; unfold findActiveEntry; induction es as [|e es IH]; simpl; auto.
  destruct (Nat.eqb (employeeId e) emp && isActive e); [discriminate | auto].
Qed.

Lemma findActiveEntry_app_new : forall emp es id now,
  findActiveEntry emp es = None ->
  findActiveEntry emp (es ++ [newTimeEntry id emp now]) = Some (newTimeEntry id emp now).
Proof.
  intros emp es id now; unfold findActiveEntry; induction es as [|e es IH]; simpl.
  - intros _. rewrite Nat.eqb_refl. reflexivity.
  - destruct (Nat.eqb (employeeId e) emp && isActive e); [discriminate | auto].
Qed.

Lemma clockOutBody_noReopen : forall now emp db e db',
  TimeEntriesRoute.clockOutBody now emp db = inr (e, db') ->
  noReopen (timeEntries db) (timeEntries db').
Proof.
  intros now emp db e db' H; unfold TimeEntriesRoute.clockOutBody in H.
  destruct (findActiveEntry emp (timeEntries db)) as [a|]; [|discriminate].
  cbn [orThrow bindExc] in H.
  match type of H with
  | context [findByIdAndUpdate ?n ?i ?u ?es] =>
      destruct (findByIdAndUpdate n i u es) as [?|[[e1 es1]|]] eqn:E
  end; cbn [orThrow bindExc] in H; try discriminate.
  inversion H; subst; simpl.
  eapply findByIdAndUpdate_noReopen; eauto.
Qed.

(** What a time-entry request does to the collection: nothing is
    reopened, or one entry is appended for an employee who had none
    active. *)
Lemma POST_effect : forall now newId emp action db,
  noReopen (timeEntries db)
           (timeEntries (snd (TimeEntriesRoute.POST now newId emp action db)))
  \/ (findActiveEntry emp (timeEntries db) = None /\
      timeEntries (snd (TimeEntriesRoute.POST now newId emp action db))
      = timeEntries db ++ [newTimeEntry newId emp now]).
Proof.
  intros now newId emp action db; unfold TimeEntriesRoute.POST.
  destruct (String.eqb action ""); [left; apply noReopen_refl|].
  match goal with
  | |- context [inTransaction ?b db] => destruct (inTransaction_cases _ b db)
      as [(e & Hb & ->)|(a & db' & Hb & ->)]
  end; [left; apply noReopen_refl|].
  simpl.
  destruct (Employee_findById emp db); [|discriminate]. cbn [orThrow bindExc] in Hb.
  destruct (String.eqb action "clockIn").
  - unfold TimeEntriesRoute.clockInBody in Hb.
    destruct (findActiveEntry emp (timeEntries db)) eqn:E; [discriminate|].
    inversion Hb; subst. right; split; reflexivity.
  - destruct (String.eqb action "clockOut"); [|discriminate].
    left. eapply clockOutBody_noReopen; eauto.
Qed.

Lemma handle_effect : forall now req db,
  noReopen (timeEntries db) (timeEntries (handle now req db))
  \/ exists newId emp,
       findActiveEntry emp (timeEntries db) = None /\
       timeEntries (handle now req db) = timeEntries db ++ [newTimeEntry newId emp now].
Proof.
  intros now req db; destruct req; simpl.
  - destruct (POST_effect now newId employeeId0 action db) as [H|H]; [left|right]; eauto.
  - left; apply performAutoClockout_noReopen.
  - left; apply performSelective_noReopen.
  - left; unfold AutoClockout.checkAndPerformAutoClockout.
    destruct (negb (AutoClockout.shouldAutoClockout tz now));
      [apply noReopen_refl | apply performAutoClockout_noReopen].
  - left; apply performAutoClockout_noReopen.
  - left; unfold CorrectRoute.PUT.
    destruct (CorrectRoute.adminEmployeeId body) as [admin|]; [|apply noReopen_refl].
    destruct (inTransaction_cases _ (CorrectRoute.correctBody now id admin body) db)
      as [(e & Hb & ->)|(a & db' & Hb & ->)]; [apply noReopen_refl|].
    eapply correctBody_noReopen; eauto.
  - left; unfold NeedsReviewRoute.POST.
    destruct (NeedsReviewRoute.adminEmployeeId body) as [admin|]; [|apply noReopen_refl].
    destruct (Nat.eqb _ 0); [apply noReopen_refl|].
    destruct (negb (isAdminId admin db)); [apply noReopen_refl|].
    destruct (inTransaction_cases _ (NeedsReviewRoute.batchBody now admin body) db)
      as [(e & Hb & ->)|(a & db' & Hb & ->)]; [apply noReopen_refl|].
    eapply batchBody_noReopen; eauto.
  - left; apply noReopen_refl.
Qed.

Lemma handle_preserves : forall now req db,
  (forall emp, (activeCount emp db <= 1)%nat) ->
  forall emp, (activeCount emp (handle now req db) <= 1)%nat.
Proof.
  intros now req db Hinv emp; unfold activeCount in *.
  destruct (handle_effect now req db) as [H|(newId & emp' & Hnone & ->)].
  - etransitivity; [apply noReopen_activeCount; exact H | apply Hinv].
  - rewrite filter_app, length_app; simpl.
    destruct (Nat.eqb emp' emp) eqn:E; simpl.
    + apply Nat.eqb_eq in E; subst emp'.
      rewrite (findActiveEntry_None_count _ _ Hnone); simpl; lia.
    + specialize (Hinv emp); lia.
Qed.

Lemma reachable_invariant : forall db,
  reachable db -> forall emp, (activeCount emp db <= 1)%nat.
Proof.
  induction 1 as [emps | db now req _ IH].
  - intro emp; unfold activeCount; simpl; lia.
  - apply handle_preserves; assumption.
Qed.

Lemma clockIn_rejected : forall now newId emp db,
  Employee_findById emp db <> None ->
  findActiveEntry emp (timeEntries db) <> None ->
  TimeEntriesRoute.POST now newId emp "clockIn" db = (inl AlreadyClockedIn, db).
Proof.
  intros now newId emp db He Ha; unfold TimeEntriesRoute.POST; simpl.
  unfold inTransaction.
  destruct (Employee_findById emp db); [|congruence]. cbn [orThrow bindExc].
  unfold TimeEntriesRoute.clockInBody.
  destruct (findActiveEntry emp (timeEntries db)); [reflexivity | congruence].
Qed.

Lemma clockIn_accepted : forall now newId emp db,
  Employee_findById emp db <> None ->
  findActiveEntry emp (timeEntries db) = None ->
  TimeEntriesRoute.POST now newId emp "clockIn" db
  = (inr (newTimeEntry newId emp now),
     withEntries db (timeEntries db ++ [newTimeEntry newId emp now])).
Proof.
  intros now newId emp db He Ha; unfold TimeEntriesRoute.POST; simpl.
  unfold inTransaction.
  destruct (Employee_findById emp db); [|congruence]. cbn [orThrow bindExc].
  unfold TimeEntriesRoute.clockInBody. rewrite Ha. reflexivity.
Qed.

Lemma clockInCalls_all_rejected : forall calls emp db,
  Employee_findById emp db <> None ->
  findActiveEntry emp (timeEntries db) <> None ->
  clockInCalls calls emp db = (map (fun _ => inl AlreadyClockedIn) calls, db).
Proof.
  induction calls as [|[now newId] rest IH]; intros emp db He Ha; simpl.
  - reflexivity.
  - rewrite (clockIn_rejected now newId emp db He Ha).
    rewrite (IH emp db He Ha). reflexivity.
Qed.

Lemma filter_succeeded_rejected : forall (calls : list (Date * ObjectId)),
  filter succeeded (map (fun _ => @inl Error TimeEntry AlreadyClockedIn) calls) = [].
Proof. induction calls; simpl; auto. Qed.

(** Requests served one after the other, each from its first read to
    its commit before the next begins, keep at most one open entry per
    employee: a clock-in for an employee who has an open entry is refused
    with 'Employee is already clocked in', every request preserves the
    bound, and of any number of clock-in calls for one employee exactly
    one succeeds.  Calls that overlap are the subject of
    [Concurrent.run]. *)
Theorem at_most_one_active_entry :
  (forall db, reachable db -> forall emp, (activeCount emp db <= 1)%nat)
  /\ (forall now newId emp db,
        Employee_findById emp db <> None ->
        findActiveEntry emp (timeEntries db) <> None ->
        TimeEntriesRoute.POST now newId emp "clockIn" db = (inl AlreadyClockedIn, db)
        /\ message AlreadyClockedIn = "Employee is already clocked in"%string)
  /\ (forall now req db,
        (forall emp, (activeCount emp db <= 1)%nat) ->
        forall emp, (activeCount emp (handle now req db) <= 1)%nat)
  /\ (forall calls order emp db,
        Employee_findById emp db <> None ->
        findActiveEntry emp (timeEntries db) = None ->
        calls <> [] ->
        Permutation calls order ->
        let results := fst (clockInCalls order emp db) in
        List.length (filter succeeded results) = 1%nat
        /\ Forall (fun r => succeeded r = true \/ r = inl AlreadyClockedIn) results
        /\ activeCount emp (snd (clockInCalls order emp db)) = 1%nat).
Proof.
  split; [exact reachable_invariant|].
  split; [intros; split; [apply clockIn_rejected; assumption | reflexivity]|].
  split; [exact handle_preserves|].
  intros calls order emp db He Ha Hne Hperm.
  destruct order as [|[now newId] rest];
    [apply Permutation_sym, Permutation_nil in Hperm; congruence|].
  cbv zeta. simpl clockInCalls.
  rewrite (clockIn_accepted now newId emp db He Ha).
  assert (He' : Employee_findById emp
                  (withEntries db (timeEntries db ++ [newTimeEntry newId emp now])) <> None)
    by exact He.
  assert (Ha' : findActiveEntry emp
                  (timeEntries
                     (withEntries db (timeEntries db ++ [newTimeEntry newId emp now])))
                <> None).
  { simpl. rewrite (findActiveEntry_app_new _ _ _ _ Ha). discriminate. }
  rewrite (clockInCalls_all_rejected rest emp _ He' Ha'). simpl.
  rewrite filter_succeeded_rejected. split; [reflexivity|]. split.
  - constructor; [left; reflexivity|].
    apply Forall_forall. intros r Hr. apply in_map_iff in Hr.
    destruct Hr as (c & <- & _). right; reflexivity.
  - unfold activeCount; simpl. rewrite filter_app, length_app.
    rewrite (findActiveEntry_None_count _ _ Ha). simpl.
    rewrite Nat.eqb_refl. reflexivity.
Qed.

Lemma activeCount_app_new : forall emp db id now,
  activeCount emp (withEntries db (timeEntries db ++ [newTimeEntry id emp now]))
  = S (activeCount emp db).
Proof.
  intros emp db id now. unfold activeCount. cbn [withEntries timeEntries].
  rewrite filter_app, length_app. cbn. rewrite Nat.eqb_refl. cbn. lia.
Qed.

Ltac run_calls :=
  cbn [Concurrent.run nth_error Concurrent.replaceNth Concurrent.step
       Concurrent.start Concurrent.moveTo Concurrent.progress
       Concurrent.c_employeeId Concurrent.c_now Concurrent.c_newId].

Lemma call_alone_is_the_route : forall now newId emp db,
  Concurrent.run Concurrent.activeEntryIndex [0; 0; 0]%nat
    [Concurrent.start now newId emp] db
  = ([Concurrent.moveTo
        (Concurrent.Returned (fst (TimeEntriesRoute.POST now newId emp "clockIn" db)))
        (Concurrent.start now newId emp)],
     snd (TimeEntriesRoute.POST now newId emp "clockIn" db)).
Proof.
  intros now newId emp db.
  unfold TimeEntriesRoute.POST. cbn [String.eqb Ascii.eqb Bool.eqb].
  unfold inTransaction, TimeEntriesRoute.clockInBody.
  run_calls.
  destruct (Employee_findById emp db) as [x|]; cbn [orThrow bindExc fst snd];
    run_calls; [|reflexivity].
  destruct (findActiveEntry emp (timeEntries db)) as [a|]; cbn [fst snd];
    run_calls; reflexivity.
Qed.

Lemma overlapping_calls : forall ix now1 id1 now2 id2 emp db,
  Employee_findById emp db <> None ->
  findActiveEntry emp (timeEntries db) = None ->
  let c1 := Concurrent.start now1 id1 emp in
  let c2 := Concurrent.start now2 id2 emp in
  let e1 := newTimeEntry id1 emp now1 in
  let e2 := newTimeEntry id2 emp now2 in
  let db1 := withEntries db (timeEntries db ++ [e1]) in
  Concurrent.run ix [0; 1; 0; 1; 0; 1]%nat [c1; c2] db
  = if Concurrent.unique ix
    then ([Concurrent.moveTo (Concurrent.Returned (inr e1)) c1;
           Concurrent.moveTo (Concurrent.Returned (inl Concurrent.duplicateKey)) c2],
          db1)
    else ([Concurrent.moveTo (Concurrent.Returned (inr e1)) c1;
           Concurrent.moveTo (Concurrent.Returned (inr e2)) c2],
          withEntries db1 (timeEntries db1 ++ [e2])).
Proof.
  intros ix now1 id1 now2 id2 emp db He Ha. cbv zeta.
  destruct (Employee_findById emp db) as [x|] eqn:Ee; [clear He|congruence].
  run_calls. rewrite Ee. run_calls. rewrite Ee. run_calls.
  rewrite Ha. run_calls. rewrite Ha. run_calls.
  unfold Concurrent.insertUnder at 1.
  cbn [employeeId newTimeEntry]. rewrite Ha. cbn [isSome]. rewrite andb_false_r.
  run_calls.
  unfold Concurrent.insertUnder. cbn [employeeId newTimeEntry withEntries timeEntries].
  rewrite (findActiveEntry_app_new _ _ _ _ Ha).
  change (isActive (newTimeEntry id2 emp now2)) with true.
  cbn [isSome]. rewrite !andb_true_r.
  destruct (Concurrent.unique ix); reflexivity.
Qed.

(** C1. Two clock-in calls for one employee that overlap both succeed.
    Each call, run alone, is the route: it is refused with 'Employee is
    already clocked in' when an open entry exists.  But when both calls
    have looked for the open entry before either has created its own,
    as happens when the requests arrive together, both find none and
    both create one: under the index the schema declares, which is not
    unique, both calls return their entry and the employee has two open
    entries.  Had the index been unique, the second call would have been
    refused and one open entry stored. *)
Theorem overlapping_clock_ins_both_succeed :
  (forall now newId emp db,
     Concurrent.run Concurrent.activeEntryIndex [0; 0; 0]%nat
       [Concurrent.start now newId emp] db
     = ([Concurrent.moveTo
           (Concurrent.Returned (fst (TimeEntriesRoute.POST now newId emp "clockIn" db)))
           (Concurrent.start now newId emp)],
        snd (TimeEntriesRoute.POST now newId emp "clockIn" db)))
  /\ (forall now1 id1 now2 id2 emp db,
        Employee_findById emp db <> None ->
        findActiveEntry emp (timeEntries db) = None ->
        let '(calls, db') :=
          Concurrent.run Concurrent.activeEntryIndex [0; 1; 0; 1; 0; 1]%nat
            [Concurrent.start now1 id1 emp; Concurrent.start now2 id2 emp] db in
        map Concurrent.progress calls
        = [Concurrent.Returned (inr (newTimeEntry id1 emp now1));
           Concurrent.Returned (inr (newTimeEntry id2 emp now2))]
        /\ timeEntries db'
           = timeEntries db ++ [newTimeEntry id1 emp now1; newTimeEntry id2 emp now2]
        /\ activeCount emp db = 0%nat
        /\ activeCount emp db' = 2%nat)
  /\ (forall now1 id1 now2 id2 emp db,
        Employee_findById emp db <> None ->
        findActiveEntry emp (timeEntries db) = None ->
        let '(calls, db') :=
          Concurrent.run Concurrent.uniqueActiveEntryIndex [0; 1; 0; 1; 0; 1]%nat
            [Concurrent.start now1 id1 emp; Concurrent.start now2 id2 emp] db in
        map Concurrent.progress calls
        = [Concurrent.Returned (inr (newTimeEntry id1 emp now1));
           Concurrent.Returned (inl Concurrent.duplicateKey)]
        /\ activeCount emp db' = 1%nat)
  /\ (let '(calls, db') :=
        Concurrent.run Concurrent.activeEntryIndex [0; 1; 0; 1; 0; 1]%nat
          [Concurrent.start (Examples.at_ 1 9) 10%nat 1%nat;
           Concurrent.start (Examples.at_ 1 9) 11%nat 1%nat] Examples.staff in
      map Concurrent.progress calls
      = [Concurrent.Returned (inr (newTimeEntry 10%nat 1%nat (Examples.at_ 1 9)));
         Concurrent.Returned (inr (newTimeEntry 11%nat 1%nat (Examples.at_ 1 9)))]
      /\ map (fun e => (_id e, employeeId e, clockOut e)) (timeEntries db')
         = [(10%nat, 1%nat, None); (11%nat, 1%nat, None)]
      /\ Concurrent.unique Concurrent.activeEntryIndex = false).
Proof.
  split; [exact call_alone_is_the_route|]. split; [|split].
  - intros now1 id1 now2 id2 emp db He Ha.
    rewrite (overlapping_calls Concurrent.activeEntryIndex now1 id1 now2 id2 emp db He Ha).
    cbn [Concurrent.unique Concurrent.activeEntryIndex].
    split; [reflexivity|]. split.
    + cbn [withEntries timeEntries]. rewrite <- app_assoc. reflexivity.
    + assert (H0 : activeCount emp db = 0%nat)
        by (unfold activeCount; rewrite (findActiveEntry_None_count _ _ Ha); reflexivity).
      split; [exact H0|].
      rewrite !activeCount_app_new, H0. reflexivity.
  - intros now1 id1 now2 id2 emp db He Ha.
    rewrite (overlapping_calls Concurrent.uniqueActiveEntryIndex now1 id1 now2 id2 emp db
               He Ha).
    cbn [Concurrent.unique Concurrent.uniqueActiveEntryIndex].
    split; [reflexivity|].
    rewrite activeCount_app_new. unfold activeCount.
    rewrite (findActiveEntry_None_count _ _ Ha). reflexivity.
  - vm_compute. repeat split.
Qed.

(* ------------------------------------------------------------------ *)
(** * Pointwise reasoning about the collection *)
(* ------------------------------------------------------------------ *)

Section Pointwise.
Variable P : TimeEntry -> TimeEntry -> Prop.
Hypothesis P_refl : forall e, P e e.
Hypothesis P_trans : forall a b c, P a b -> P b c -> P a c.

Lemma pointwise_refl : forall es, Forall2 P es es.
Proof. induction es; constructor; auto. Qed.

Lemma pointwise_trans : forall a b c, Forall2 P a b -> Forall2 P b c -> Forall2 P a c.
Proof.
  intros a b c Hab; revert c.
  induction Hab; intros c Hbc; inversion Hbc; subst; constructor; eauto.
Qed.

Lemma updateById_pointwise : forall now id u es e' es',
  (forall e, TimeEntry_findById id es = Some e -> P e (applyUpdate now u e)) ->
  updateById now id u es = Some (e', es') ->
  Forall2 P es es'.
Proof.
  intros now id u es; unfold TimeEntry_findById.
  induction es as [|e rest IH]; intros e' es' Hu H; simpl in *.
  - discriminate.
  - destruct (Nat.eqb (_id e) id).
    + inversion H; subst. constructor; [apply Hu; reflexivity | apply pointwise_refl].
    + destruct (updateById now id u rest) as [[e1 rest1]|] eqn:E; [|discriminate].
      inversion H; subst. constructor; [apply P_refl | eapply IH; eauto].
Qed.

Lemma findByIdAndUpdate_pointwise : forall now id u es e' es',
  (forall e, TimeEntry_findById id es = Some e -> P e (applyUpdate now u e)) ->
  findByIdAndUpdate now id u es = inr (Some (e', es')) ->
  Forall2 P es es'.
Proof.
  unfold findByIdAndUpdate; intros now id u es e' es' Hu H.
  destruct (validUpdate u); [|discriminate].
  inversion H. eapply updateById_pointwise; eauto.
Qed.

Lemma updateMany_pointwise : forall now p u es,
  (forall e, p e = true -> P e (applyUpdate now u e)) ->
  Forall2 P es (fst (updateMany now p u es)).
Proof.
  intros now p u es Hu; unfold updateMany; simpl.
  induction es as [|e rest IH]; simpl; constructor; auto.
  destruct (p e) eqn:E; auto.
Qed.

Lemma fold_left_pointwise : forall (X S : Type)
    (step : list TimeEntry * S -> X -> list TimeEntry * S),
  (forall st x, Forall2 P (fst st) (fst (step st x))) ->
  forall l st, Forall2 P (fst st) (fst (fold_left step l st)).
Proof.
  intros X S step Hstep l; induction l as [|x l IH]; intro st; simpl.
  - apply pointwise_refl.
  - eapply pointwise_trans; [apply Hstep | apply IH].
Qed.

Lemma autoClockoutEntry_pointwise : forall f att now dryRun t st x,
  (forall e, P e (applyUpdate now (AutoClockout.autoClockoutUpdate t) e)) ->
  Forall2 P (fst st) (fst (AutoClockout.autoClockoutEntry f att now dryRun t st x)).
Proof.
  intros f att now dryRun t [es r] [entry employee] Hu; unfold AutoClockout.autoClockoutEntry.
  destruct dryRun.
  - destruct employee; apply pointwise_refl.
  - destruct (AutoClockout.update_fails f att (_id entry)) as [thrown|]; [apply pointwise_refl|].
    destruct (findByIdAndUpdate now (_id entry) (AutoClockout.autoClockoutUpdate t) es)
      as [e|[[u es']|]] eqn:E; simpl; try apply pointwise_refl.
    eapply findByIdAndUpdate_pointwise in E; [|intros; apply Hu].
    destruct employee; exact E.
Qed.

Lemma selectiveEntry_pointwise : forall f att now admin db st x,
  (forall e, P e (applyUpdate now (AutoClockout.selectiveUpdate now (snd x) admin) e)) ->
  Forall2 P (fst st) (fst (AutoClockout.selectiveEntry f att now admin db st x)).
Proof.
  intros f att now admin db [es r] [sel t] Hu; unfold AutoClockout.selectiveEntry.
  destruct (findActiveEntry sel es) as [a|]; [|apply pointwise_refl].
  destruct (t <=? clockIn a); [apply pointwise_refl|].
  destruct (AutoClockout.update_fails f att (_id a)) as [thrown|]; [apply pointwise_refl|].
  destruct (findByIdAndUpdate now (_id a) (AutoClockout.selectiveUpdate now t admin) es)
    as [e|[[u es']|]] eqn:E; simpl; try apply pointwise_refl.
  eapply findByIdAndUpdate_pointwise; eauto.
Qed.

Lemma performAutoClockout_pointwise : forall tz f now target dryRun db,
  (forall t e, P e (applyUpdate now (AutoClockout.autoClockoutUpdate t) e)) ->
  Forall2 P (timeEntries db)
    (timeEntries (snd (AutoClockout.performAutoClockout tz f now target dryRun db))).
Proof.
  intros tz f now target dryRun db Hu; unfold AutoClockout.performAutoClockout.
  destruct (AutoClockout.connectDB_fails f) as [thrown|]; [apply pointwise_refl|].
  match goal with
  | |- context [Database.withTransactionRetry ?c ?fn ?d ?r] =>
      destruct (Database.withTransactionRetry c fn d r) as [[e|db'] r'] eqn:E
  end; simpl; [apply pointwise_refl|].
  apply withTransactionRetry_inr in E; destruct E as (att & r0 & E).
  unfold AutoClockout.autoClockoutTx in E.
  match type of E with
  | context [fold_left ?s ?l ?st] =>
      pose proof (fold_left_pointwise _ _ s
                    (fun st0 x0 => autoClockoutEntry_pointwise f att now dryRun _ st0 x0 (Hu _))
                    l st) as Hn;
      destruct (fold_left s l st) as [es' r1]
  end.
  inversion E; subst; exact Hn.
Qed.

Lemma performSelective_pointwise : forall f now sel admin db,
  (forall t e, P e (applyUpdate now (AutoClockout.selectiveUpdate now t admin) e)) ->
  Forall2 P (timeEntries db)
    (timeEntries (snd (AutoClockout.performSelectiveAutoClockout f now sel admin db))).
Proof.
  intros f now sel admin db Hu; unfold AutoClockout.performSelectiveAutoClockout.
  destruct (AutoClockout.connectDB_fails f) as [thrown|]; [apply pointwise_refl|].
  match goal with
  | |- context [Database.withTransactionRetry ?c ?fn ?d ?r] =>
      destruct (Database.withTransactionRetry c fn d r) as [[e|db'] r'] eqn:E
  end; simpl; [apply pointwise_refl|].
  apply withTransactionRetry_inr in E; destruct E as (att & r0 & E).
  unfold AutoClockout.selectiveTx in E.
  match type of E with
  | context [fold_left ?s ?l ?st] =>
      pose proof (fold_left_pointwise _ _ s
                    (fun st0 x0 => selectiveEntry_pointwise f att now admin db st0 x0 (Hu _))
                    l st) as Hn;
      destruct (fold_left s l st) as [es' r1]
  end.
  inversion E; subst; exact Hn.
Qed.

End Pointwise.

(* ------------------------------------------------------------------ *)
(** * Single and batch correction: what a successful call wrote *)
(* ------------------------------------------------------------------ *)

Lemma applyUpdate_id : forall now u e, _id (applyUpdate now u e) = _id e.
Proof. reflexivity. Qed.

Lemma updateById_found : forall now id u es e' es',
  updateById now id u es = Some (e', es') ->
  exists e, TimeEntry_findById id es = Some e
            /\ e' = applyUpdate now u e
            /\ TimeEntry_findById id es' = Some e'.
Proof.
  intros now id u es; unfold TimeEntry_findById.
  induction es as [|e rest IH]; intros e' es' H; simpl in *.
  - discriminate.
  - destruct (Nat.eqb (_id e) id) eqn:Eid.
    + inversion H; subst. exists e. repeat split. simpl.
      rewrite Eid. reflexivity.
    + destruct (updateById now id u rest) as [[e1 rest1]|] eqn:E; [|discriminate].
      inversion H; subst. destruct (IH _ _ eq_refl) as (e0 & H1 & H2 & H3).
      exists e0. repeat split; auto. simpl. rewrite Eid. exact H3.
Qed.

Lemma updateDataFor_fields : forall now admin body te u,
  CorrectRoute.updateDataFor now admin body te = inr u ->
  u_needsReview u = Some false
  /\ u_adminNotes u = Some (orNull (CorrectRoute.b_adminNotes body))
  /\ u_hoursWorked u = None
  /\ match CorrectRoute.b_clockOut body with
     | Some c => u_clockOut u = Some c /\ clockIn te < c /\ c <= now
     | None => u_clockOut u = None
     end
  /\ (u_originalClockOut u = None \/
      (originalClockOut te = None /\ isAutoClockOut te = true
       /\ u_originalClockOut u = clockOut te
       /\ exists c, CorrectRoute.b_clockOut body = Some c)).
Proof.
  intros now admin body te u H; unfold CorrectRoute.updateDataFor in H.
  cbv zeta in H.
  destruct (CorrectRoute.b_clockOut body) as [c|]; simpl in H.
  - rewrite andb_false_r in H.
    destruct (c <=? clockIn te) eqn:E1; simpl in H; [discriminate|].
    destruct (now <? c) eqn:E2; simpl in H; [discriminate|].
    apply Z.leb_gt in E1. apply Z.ltb_ge in E2.
    destruct (negb (isSome (originalClockOut te)) && isAutoClockOut te) eqn:E3;
      inversion H; subst; simpl; repeat split; eauto.
    right. apply andb_prop in E3. destruct E3 as [E3 E4].
    destruct (originalClockOut te); [discriminate|]. repeat split; eauto.
  - rewrite andb_true_r in H.
    destruct (CorrectRoute.markAsCorrect body); [|discriminate].
    inversion H; subst; simpl. repeat split; auto.
Qed.

(** A successful single correction, taken apart. *)
Lemma PUT_success : forall now id body db e db',
  CorrectRoute.PUT now id body db = (inr e, db') ->
  exists admin te u,
    CorrectRoute.adminEmployeeId body = Some admin
    /\ isAdminId admin db = true
    /\ TimeEntry_findById id (timeEntries db) = Some te
    /\ isSome (clockOut te) = true
    /\ CorrectRoute.updateDataFor now admin body te = inr u
    /\ e = applyUpdate now u te
    /\ TimeEntry_findById id (timeEntries db') = Some e
    /\ exists es', updateById now id u (timeEntries db) = Some (e, es')
                   /\ db' = withEntries db es'.
Proof.
  intros now id body db e db' H; unfold CorrectRoute.PUT in H.
  destruct (CorrectRoute.adminEmployeeId body) as [admin|]; [|discriminate].
  destruct (inTransaction_cases _ (CorrectRoute.correctBody now id admin body) db)
    as [(e0 & Hb & Hr)|(a & db0 & Hb & Hr)]; rewrite Hr in H; [discriminate|].
  inversion H; subst; clear H Hr.
  unfold CorrectRoute.correctBody in Hb.
  destruct (isAdminId admin db) eqn:Ea; simpl in Hb; [|discriminate].
  destruct (TimeEntry_findById id (timeEntries db)) as [te|] eqn:Ef; [|discriminate].
  simpl in Hb.
  destruct (isSome (clockOut te)) eqn:Ec; simpl in Hb; [|discriminate].
  destruct (CorrectRoute.updateDataFor now admin body te) as [?|u] eqn:Eu;
    [discriminate|].
  simpl in Hb. unfold findByIdAndUpdate in Hb.
  destruct (validUpdate u); simpl in Hb; [|discriminate].
  destruct (updateById now id u (timeEntries db)) as [[e1 es1]|] eqn:E;
    simpl in Hb; [|discriminate].
  inversion Hb; subst.
  destruct (updateById_found _ _ _ _ _ _ E) as (te' & H1 & H2 & H3).
  rewrite Ef in H1; inversion H1; subst te'.
  exists admin, te, u. repeat split; auto. exists es1; auto.
Qed.

(** A successful batch request, taken apart. *)
Lemma batch_success : forall now body db n db',
  NeedsReviewRoute.POST now body db = (inr n, db') ->
  exists admin p u,
    NeedsReviewRoute.adminEmployeeId body = Some admin
    /\ u_needsReview u = Some false
    /\ u_originalClockOut u = None
    /\ u_hoursWorked u = None
    /\ (timeEntries db', n) = updateMany now p u (timeEntries db)
    /\ ((NeedsReviewRoute.action body = "mark-correct"%string
         /\ u_clockOut u = None
         /\ p = (fun e => NeedsReviewRoute.idIn (NeedsReviewRoute.entryIds body) e
                          && isSome (clockOut e)))
        \/ (exists c, NeedsReviewRoute.action body <> "mark-correct"%string
                      /\ NeedsReviewRoute.clockOutTime body = Some c
                      /\ u_clockOut u = Some c
                      /\ p = (fun e => NeedsReviewRoute.idIn (NeedsReviewRoute.entryIds body) e
                                       && isSome (clockOut e) && (clockIn e <? c)))).
Proof.
  intros now body db n db' H; unfold NeedsReviewRoute.POST in H.
  destruct (NeedsReviewRoute.adminEmployeeId body) as [admin|]; [|discriminate].
  destruct (Nat.eqb _ 0); [discriminate|].
  destruct (negb (isAdminId admin db)); [discriminate|].
  destruct (inTransaction_cases _ (NeedsReviewRoute.batchBody now admin body) db)
    as [(e0 & Hb & Hr)|(a & db0 & Hb & Hr)]; rewrite Hr in H; [discriminate|].
  inversion H; subst; clear H Hr.
  unfold NeedsReviewRoute.batchBody in Hb. cbv zeta in Hb.
  destruct (String.eqb (NeedsReviewRoute.action body) "mark-correct") eqn:Ea.
  - match type of Hb with
    | context [assertExc ?b ?e] => destruct (assertExc b e); [discriminate|]
    end.
    cbn [bindExc] in Hb.
    match type of Hb with
    | context [updateMany ?a ?p ?u ?es] =>
        exists admin, p, u; destruct (updateMany a p u es) as [es' m] eqn:E
    end.
    inversion Hb; subst. apply String.eqb_eq in Ea.
    repeat split; auto.
  - destruct (String.eqb (NeedsReviewRoute.action body) "batch-correct");
      [|discriminate].
    destruct (NeedsReviewRoute.clockOutTime body) as [c|]; [|discriminate].
    destruct (assertExc (negb (now <? c)) FutureClockOut); [discriminate|].
    cbn [bindExc] in Hb.
    match type of Hb with
    | context [assertExc ?b ?e] => destruct (assertExc b e); [discriminate|]
    end.
    cbn [bindExc] in Hb.
    match type of Hb with
    | context [updateMany ?a ?p ?u ?es] =>
        exists admin, p, u; destruct (updateMany a p u es) as [es' m] eqn:E
    end.
    inversion Hb; subst. apply String.eqb_neq in Ea.
    repeat split; auto. right. exists c. auto.
Qed.

Lemma closedWithFlag_refl : forall b e, closedWithFlag b e e.
Proof. intros; left; reflexivity. Qed.

Lemma closedWithFlag_trans : forall b x y z,
  closedWithFlag b x y -> closedWithFlag b y z -> closedWithFlag b x z.
Proof.
  intros b x y z [->|Hxy] [->|Hyz]; unfold closedWithFlag; auto.
Qed.

Lemma closedWithFlag_closes : forall b es es',
  Forall2 (closedWithFlag b) es es' ->
  Forall2 (fun e e' => isActive e = true -> isActive e' = false -> needsReview e' = b)
          es es'.
Proof.
  intros b es es'; apply Forall2_impl.
  intros e e' [->|[H _]] Ha Hc; [congruence | exact H].
Qed.

(** C3. A successful single correction and a 'mark-correct' batch leave
    the entries they touch with needsReview = false; every entry a
    selective auto-clockout closes has needsReview = false; every entry a
    real (not dry-run) auto-clockout closes has needsReview = true. *)
Theorem review_flag_after_each_operation :
  (forall now id body db e db',
     CorrectRoute.PUT now id body db = (inr e, db') ->
     needsReview e = false /\ TimeEntry_findById id (timeEntries db') = Some e)
  /\ (forall now body db n db',
        NeedsReviewRoute.action body = "mark-correct"%string ->
        NeedsReviewRoute.POST now body db = (inr n, db') ->
        forall e', In e' (timeEntries db') ->
                   In (_id e') (NeedsReviewRoute.entryIds body) ->
                   isSome (clockOut e') = true ->
                   needsReview e' = false)
  /\ (forall f now selected admin db,
        Forall2 (fun e e' => isActive e = true -> isActive e' = false ->
                             needsReview e' = false)
          (timeEntries db)
          (timeEntries
             (snd (AutoClockout.performSelectiveAutoClockout f now selected admin db))))
  /\ (forall tz f now target db,
        Forall2 (fun e e' => isActive e = true -> isActive e' = false ->
                             needsReview e' = true)
          (timeEntries db)
          (timeEntries (snd (AutoClockout.performAutoClockout tz f now target false db)))).
Proof.
  repeat split.
  - apply PUT_success in H.
    destruct H as (admin & te & u & _ & _ & _ & _ & Hu & -> & _).
    apply updateDataFor_fields in Hu. destruct Hu as (Hn & _).
    unfold applyUpdate, preUpdateHook; simpl. rewrite Hn. reflexivity.
  - apply PUT_success in H.
    destruct H as (admin & te & u & _ & _ & _ & _ & _ & _ & Hf & _). exact Hf.
  - intros now body db n db' Hact H e' Hin Hid Hclosed.
    apply batch_success in H.
    destruct H as (admin & p & u & _ & Hn & _ & _ & Hupd & Hmode).
    destruct Hmode as [(_ & Hco & ->)|(c & Hc & _)].
    + unfold updateMany in Hupd. inversion Hupd as [[Hes Hcount]]. clear Hupd Hcount.
      rewrite Hes in Hin. apply in_map_iff in Hin. destruct Hin as (e & He & _).
      destruct (NeedsReviewRoute.idIn (NeedsReviewRoute.entryIds body) e
                && isSome (clockOut e)) eqn:Ep.
      * subst e'. unfold applyUpdate, preUpdateHook; simpl. rewrite Hn. reflexivity.
      * subst e'. exfalso.
        assert (NeedsReviewRoute.idIn (NeedsReviewRoute.entryIds body) e = true).
        { unfold NeedsReviewRoute.idIn. apply existsb_exists.
          exists (_id e). split; [exact Hid | apply Nat.eqb_refl]. }
        rewrite H, Hclosed in Ep. discriminate.
    + congruence.
  - intros f now selected admin db. apply closedWithFlag_closes.
    apply (performSelective_pointwise (closedWithFlag false)
             (closedWithFlag_refl false) (closedWithFlag_trans false)).
    intros t e. right. split; reflexivity.
  - intros tz f now target db. apply closedWithFlag_closes.
    apply (performAutoClockout_pointwise (closedWithFlag true)
             (closedWithFlag_refl true) (closedWithFlag_trans true)).
    intros t e. right. split; reflexivity.
Qed.

(* ------------------------------------------------------------------ *)
(** * The original clock-out survives every later request *)
(* ------------------------------------------------------------------ *)

Lemma keepsOriginal_refl : forall e, keepsOriginal e e.
Proof. intro e; split; auto. Qed.

Lemma keepsOriginal_trans : forall a b c,
  keepsOriginal a b -> keepsOriginal b c -> keepsOriginal a c.
Proof.
  intros a b c [Hab1 Hab2] [Hbc1 Hbc2]; split; [congruence | auto].
Qed.

Lemma keepsOriginal_update : forall now u e,
  u_originalClockOut u = None -> keepsOriginal e (applyUpdate now u e).
Proof.
  intros now u e Hu; split; [reflexivity|].
  intros c Hc. unfold applyUpdate, preUpdateHook; simpl. rewrite Hu. exact Hc.
Qed.

Lemma evolves_refl : forall P, (forall e, P e e) -> forall es, evolves P es es.
Proof.
  intros P Hr es. exists es, []. split; [|symmetry; apply app_nil_r].
  induction es; constructor; auto.
Qed.

Lemma evolves_pointwise : forall (P : TimeEntry -> TimeEntry -> Prop) es es',
  Forall2 P es es' -> evolves P es es'.
Proof.
  intros P es es' H. exists es', []. split; [exact H | symmetry; apply app_nil_r].
Qed.

Lemma evolves_trans : forall P,
  (forall e, P e e) -> (forall a b c, P a b -> P b c -> P a c) ->
  forall x y z, evolves P x y -> evolves P y z -> evolves P x z.
Proof.
  intros P Hr Ht x y z (y0 & ya & Hxy & ->) (z0 & za & Hyz & ->).
  apply Forall2_app_inv_l in Hyz.
  destruct Hyz as (z1 & z2 & H1 & H2 & ->).
  exists z1, (z2 ++ za). split.
  - eapply pointwise_trans; eauto.
  - rewrite app_assoc. reflexivity.
Qed.

Lemma findById_evolves : forall id es es' e,
  evolves keepsOriginal es es' ->
  TimeEntry_findById id es = Some e ->
  exists e', TimeEntry_findById id es' = Some e' /\ keepsOriginal e e'.
Proof.
  intros id es es' e (es0 & added & HF & ->). unfold TimeEntry_findById.
  induction HF as [|a a' l l' [Hid Ho] _ IH]; simpl; intro H.
  - discriminate.
  - rewrite Hid. destruct (Nat.eqb (_id a) id).
    + inversion H; subst. exists a'. split; [reflexivity | split; assumption].
    + apply IH; assumption.
Qed.

Lemma inTransaction_inl : forall A (body : DB -> Exc (A * DB)) db e db',
  inTransaction body db = (inl e, db') -> db' = db.
Proof.
  intros A body db e db'; unfold inTransaction.
  destruct (body db) as [?|[? ?]]; intro H; inversion H; reflexivity.
Qed.

Lemma PUT_failure : forall now id body db e db',
  CorrectRoute.PUT now id body db = (inl e, db') -> db' = db.
Proof.
  intros now id body db e db'; unfold CorrectRoute.PUT.
  destruct (CorrectRoute.adminEmployeeId body).
  - apply inTransaction_inl.
  - intro H; inversion H; reflexivity.
Qed.

Lemma batch_failure : forall now body db e db',
  NeedsReviewRoute.POST now body db = (inl e, db') -> db' = db.
Proof.
  intros now body db e db'; unfold NeedsReviewRoute.POST.
  destruct (NeedsReviewRoute.adminEmployeeId body);
    [|intro H; inversion H; reflexivity].
  destruct (Nat.eqb _ 0); [intro H; inversion H; reflexivity|].
  destruct (negb (isAdminId o db)); [intro H; inversion H; reflexivity|].
  apply inTransaction_inl.
Qed.

Lemma PUT_keepsOriginal : forall now id body db,
  Forall2 keepsOriginal (timeEntries db)
          (timeEntries (snd (CorrectRoute.PUT now id body db))).
Proof.
  intros now id body db.
  destruct (CorrectRoute.PUT now id body db) as [[err|e] db'] eqn:E; simpl.
  - apply PUT_failure in E; subst. apply pointwise_refl, keepsOriginal_refl.
  - apply PUT_success in E.
    destruct E as (admin & te & u & _ & _ & Hf & _ & Hu & _ & _ & es' & Hupd & ->).
    simpl. eapply updateById_pointwise; eauto using keepsOriginal_refl.
    intros e0 He0. rewrite Hf in He0; inversion He0; subst e0.
    apply updateDataFor_fields in Hu.
    destruct Hu as (_ & _ & _ & _ & [Ho|(Ho & _)]).
    + apply keepsOriginal_update; assumption.
    + split; [reflexivity|]. intros c Hc; congruence.
Qed.

Lemma batch_keepsOriginal : forall now body db,
  Forall2 keepsOriginal (timeEntries db)
          (timeEntries (snd (NeedsReviewRoute.POST now body db))).
Proof.
  intros now body db.
  destruct (NeedsReviewRoute.POST now body db) as [[err|n] db'] eqn:E; simpl.
  - apply batch_failure in E; subst. apply pointwise_refl, keepsOriginal_refl.
  - apply batch_success in E.
    destruct E as (admin & p & u & _ & _ & Ho & _ & Hupd & _).
    pose proof (updateMany_pointwise keepsOriginal keepsOriginal_refl now p u
                  (timeEntries db) (fun e _ => keepsOriginal_update now u e Ho)) as H.
    rewrite <- Hupd in H. exact H.
Qed.

Lemma POST_keepsOriginal : forall now newId emp action db,
  evolves keepsOriginal (timeEntries db)
          (timeEntries (snd (TimeEntriesRoute.POST now newId emp action db))).
Proof.
  intros now newId emp action db; unfold TimeEntriesRoute.POST.
  destruct (String.eqb action ""); [apply evolves_refl, keepsOriginal_refl|].
  match goal with
  | |- context [inTransaction ?b db] => destruct (inTransaction_cases _ b db)
      as [(e & Hb & ->)|(a & db' & Hb & ->)]
  end; [apply evolves_refl, keepsOriginal_refl|].
  simpl.
  destruct (Employee_findById emp db); [|discriminate]. cbn [orThrow bindExc] in Hb.
  destruct (String.eqb action "clockIn").
  - unfold TimeEntriesRoute.clockInBody in Hb.
    destruct (findActiveEntry emp (timeEntries db)); [discriminate|].
    inversion Hb; subst; simpl.
    exists (timeEntries db), [newTimeEntry newId emp now].
    split; [apply pointwise_refl, keepsOriginal_refl | reflexivity].
  - destruct (String.eqb action "clockOut"); [|discriminate].
    unfold TimeEntriesRoute.clockOutBody in Hb.
    destruct (findActiveEntry emp (timeEntries db)) as [ae|]; [|discriminate].
    cbn [orThrow bindExc] in Hb.
    match type of Hb with
    | context [findByIdAndUpdate ?n ?i ?u ?es] =>
        destruct (findByIdAndUpdate n i u es) as [?|[[e1 es1]|]] eqn:E
    end; cbn [orThrow bindExc] in Hb; try discriminate.
    inversion Hb; subst; simpl.
    apply evolves_pointwise.
    eapply findByIdAndUpdate_pointwise; eauto using keepsOriginal_refl.
    intros e0 _. apply keepsOriginal_update. reflexivity.
Qed.

Lemma handle_keepsOriginal : forall now req db,
  evolves keepsOriginal (timeEntries db) (timeEntries (handle now req db)).
Proof.
  intros now req db; destruct req; simpl.
  - apply POST_keepsOriginal.
  - apply evolves_pointwise.
    apply (performAutoClockout_pointwise keepsOriginal keepsOriginal_refl
             keepsOriginal_trans).
    intros t e; apply keepsOriginal_update; reflexivity.
  - apply evolves_pointwise.
    apply (performSelective_pointwise keepsOriginal keepsOriginal_refl
             keepsOriginal_trans).
    intros t e; apply keepsOriginal_update; reflexivity.
  - unfold AutoClockout.checkAndPerformAutoClockout.
    destruct (negb (AutoClockout.shouldAutoClockout tz now));
      [apply evolves_refl, keepsOriginal_refl|].
    apply evolves_pointwise.
    apply (performAutoClockout_pointwise keepsOriginal keepsOriginal_refl
             keepsOriginal_trans).
    intros t e; apply keepsOriginal_update; reflexivity.
  - apply evolves_pointwise.
    apply (performAutoClockout_pointwise keepsOriginal keepsOriginal_refl
             keepsOriginal_trans).
    intros t e; apply keepsOriginal_update; reflexivity.
  - apply evolves_pointwise, PUT_keepsOriginal.
  - apply evolves_pointwise, batch_keepsOriginal.
  - apply evolves_refl, keepsOriginal_refl.
Qed.

Lemma serve_keepsOriginal : forall reqs db,
  evolves keepsOriginal (timeEntries db) (timeEntries (serve reqs db)).
Proof.
  unfold serve; induction reqs as [|[now req] rest IH]; intro db; simpl.
  - apply evolves_refl, keepsOriginal_refl.
  - eapply evolves_trans;
      [exact keepsOriginal_refl | exact keepsOriginal_trans
       | apply handle_keepsOriginal | apply IH].
Qed.

(** C4. The first successful correction of an auto-clockout entry with a
    new clock-out time records the clock-out it replaces as
    originalClockOut; whatever is served afterwards, every later
    successful correction of that entry returns it with the same
    originalClockOut. *)
Theorem original_clock_out_set_once :
  forall now id body db e0 c1 c2 e1 db1,
    TimeEntry_findById id (timeEntries db) = Some e0 ->
    isAutoClockOut e0 = true ->
    clockOut e0 = Some c1 ->
    originalClockOut e0 = None ->
    CorrectRoute.b_clockOut body = Some c2 ->
    CorrectRoute.PUT now id body db = (inr e1, db1) ->
    originalClockOut e1 = Some c1
    /\ clockOut e1 = Some c2
    /\ (forall reqs,
          exists e, TimeEntry_findById id (timeEntries (serve reqs db1)) = Some e
                    /\ originalClockOut e = Some c1)
    /\ (forall reqs now' body' c3 e2 db2,
          CorrectRoute.b_clockOut body' = Some c3 ->
          CorrectRoute.PUT now' id body' (serve reqs db1) = (inr e2, db2) ->
          originalClockOut e2 = Some c1 /\ clockOut e2 = Some c3).
Proof.
  intros now id body db e0 c1 c2 e1 db1 Hf Hauto Hc1 Horig Hc2 HPUT.
  pose proof HPUT as HS. apply PUT_success in HS.
  destruct HS as (admin & te & u & _ & _ & Hf' & _ & Hu & He1 & Hf1 & _).
  rewrite Hf in Hf'; inversion Hf'; subst te.
  assert (Ho1 : originalClockOut e1 = Some c1 /\ clockOut e1 = Some c2).
  { unfold CorrectRoute.updateDataFor in Hu. cbv zeta in Hu.
    rewrite Hc2 in Hu. rewrite andb_false_r in Hu.
    destruct (c2 <=? clockIn e0); simpl in Hu; [discriminate|].
    destruct (now <? c2); simpl in Hu; [discriminate|].
    rewrite Horig, Hauto in Hu. simpl in Hu. inversion Hu; subst u.
    subst e1. unfold applyUpdate, preUpdateHook; simpl. rewrite Hc1. split; reflexivity. }
  destruct Ho1 as [Ho1 Hco1].
  assert (Hlater : forall reqs,
            exists e, TimeEntry_findById id (timeEntries (serve reqs db1)) = Some e
                      /\ originalClockOut e = Some c1).
  { intro reqs.
    destruct (findById_evolves id _ _ e1 (serve_keepsOriginal reqs db1) Hf1)
      as (e & He & _ & Hk).
    exists e; split; [exact He | apply Hk; exact Ho1]. }
  repeat split; auto.
  - destruct (Hlater reqs) as (e & He & Ho).
    pose proof (PUT_keepsOriginal now' id body' (serve reqs db1)) as HK.
    rewrite H0 in HK. simpl in HK.
    apply PUT_success in H0.
    destruct H0 as (? & ? & ? & _ & _ & _ & _ & _ & _ & Hf2 & _).
    destruct (findById_evolves id _ _ e (evolves_pointwise _ _ _ HK) He)
      as (e2' & He2 & _ & Hk2).
    rewrite Hf2 in He2; inversion He2; subst e2'. apply Hk2; exact Ho.
  - apply PUT_success in H0.
    destruct H0 as (? & te & u' & _ & _ & _ & _ & Hu' & -> & _).
    apply updateDataFor_fields in Hu'.
    destruct Hu' as (_ & _ & _ & Hco & _). rewrite H in Hco.
    destruct Hco as (Hco & _).
    unfold applyUpdate, preUpdateHook; simpl. rewrite Hco. reflexivity.
Qed.

(** C9. A successful single correction that carries no notes writes null
    into adminNotes, whatever the entry held before. *)
Theorem correction_without_notes_erases_admin_notes :
  forall now id body db e db',
    CorrectRoute.b_adminNotes body = None ->
    CorrectRoute.PUT now id body db = (inr e, db') ->
    adminNotes e = None
    /\ TimeEntry_findById id (timeEntries db') = Some e.
Proof.
  intros now id body db e db' Hnotes H.
  apply PUT_success in H.
  destruct H as (admin & te & u & _ & _ & _ & _ & Hu & -> & Hf & _).
  split; [|exact Hf].
  apply updateDataFor_fields in Hu. destruct Hu as (_ & Hn & _).
  unfold applyUpdate, preUpdateHook; simpl. rewrite Hn, Hnotes. reflexivity.
Qed.

(* ------------------------------------------------------------------ *)
(** * Selective auto-clockout: what is validated *)
(* ------------------------------------------------------------------ *)

Lemma updateById_of_found : forall now id u es e,
  TimeEntry_findById id es = Some e ->
  exists es', updateById now id u es = Some (applyUpdate now u e, es')
              /\ TimeEntry_findById id es' = Some (applyUpdate now u e).
Proof.
  intros now id u es e; unfold TimeEntry_findById.
  induction es as [|x rest IH]; simpl; intro H.
  - discriminate.
  - destruct (Nat.eqb (_id x) id) eqn:Eid.
    + inversion H; subst. eexists; split; [reflexivity|]. simpl. rewrite Eid. reflexivity.
    + destruct (IH H) as (es' & H1 & H2). rewrite H1.
      eexists; split; [reflexivity|]. simpl. rewrite Eid. exact H2.
Qed.

(** C10. A selective auto-clockout checks an item's clock-out time only
    against the clock-in of the employee's open entry: a time that is
    after clock-in is accepted however far it lies after the present
    instant, and the entry is closed with it; a time that is not after
    clock-in is the only one refused.  The single-correction route
    refuses the same future time. *)
Theorem selective_clockout_accepts_future_time :
  forall now admin emp db a T,
    findActiveEntry emp (timeEntries db) = Some a ->
    TimeEntry_findById (_id a) (timeEntries db) = Some a ->
    clockIn a < T ->
    now < T ->
    (let '(r, db') :=
       AutoClockout.performSelectiveAutoClockout AutoClockout.noFaults now
         [(emp, T)] admin db in
     AutoClockout.success r = true
     /\ AutoClockout.clockedOutCount r = 1%nat
     /\ AutoClockout.errors r = []
     /\ exists e', TimeEntry_findById (_id a) (timeEntries db') = Some e'
                   /\ clockOut e' = Some T)
    /\ (forall T', T' <= clockIn a ->
          exists m,
            AutoClockout.performSelectiveAutoClockout AutoClockout.noFaults now
              [(emp, T')] admin db
            = ({| AutoClockout.success := false;
                  AutoClockout.clockedOutCount := 0;
                  AutoClockout.errors := [AutoClockout.ClockOutMustBeAfterClockIn m];
                  AutoClockout.clockedOutEmployees := [] |},
               withEntries db (timeEntries db)))
    /\ (forall id body e db',
          CorrectRoute.b_clockOut body = Some T ->
          CorrectRoute.PUT now id body db <> (inr e, db')).
Proof.
  intros now admin emp db a T Hact Hfound Hin Hfut.
  assert (Hle : (T <=? clockIn a) = false) by (apply Z.leb_gt; exact Hin).
  split; [|split].
  - unfold AutoClockout.performSelectiveAutoClockout, Database.withTransactionRetry,
      Database.withRetry, Database.session_withTransaction, AutoClockout.selectiveTx.
    simpl. rewrite Hact, Hle.
    unfold findByIdAndUpdate. simpl.
    destruct (updateById_of_found now (_id a)
                (AutoClockout.selectiveUpdate now T admin) _ _ Hfound)
      as (es' & Hupd & Hf').
    rewrite Hupd. simpl.
    repeat split; auto. eexists; split; [exact Hf' | reflexivity].
  - intros T' HT'.
    assert (Hle' : (T' <=? clockIn a) = true) by (apply Z.leb_le; exact HT').
    unfold AutoClockout.performSelectiveAutoClockout, Database.withTransactionRetry,
      Database.withRetry, Database.session_withTransaction, AutoClockout.selectiveTx.
    simpl. rewrite Hact, Hle'. simpl. eexists; reflexivity.
  - intros id body e db' Hb H.
    apply PUT_success in H.
    destruct H as (adm & te & u & _ & _ & _ & _ & Hu & _).
    apply updateDataFor_fields in Hu. destruct Hu as (_ & _ & _ & Hco & _).
    rewrite Hb in Hco. lia.
Qed.

(* ------------------------------------------------------------------ *)
(** * The success flag of the two auto-clockout functions *)
(* ------------------------------------------------------------------ *)

Lemma withRetryFrom_invariant : forall R (I : R -> Prop) (op : nat -> Database.Tx R) db,
  (forall a r res r', I r -> op a db r = (res, r') -> I r') ->
  forall left attempt r res r',
    I r -> Database.withRetryFrom left attempt op db r = (res, r') -> I r'.
Proof.
  intros R I op db Hop left; induction left as [|left IH];
    intros attempt r res r' Hr H; simpl in H.
  - destruct (op attempt db r) as [[e|d] r1] eqn:E;
      inversion H; subst; eapply Hop; eauto.
  - destruct (op attempt db r) as [[e|d] r1] eqn:E.
    + destruct (Database.isTransientError e) as [thrown|[|]].
      * inversion H; subst. eapply Hop; eauto.
      * eapply IH; [|exact H]. eapply Hop; eauto.
      * inversion H; subst. eapply Hop; eauto.
    + inversion H; subst. eapply Hop; eauto.
Qed.

Lemma withTransactionRetry_invariant : forall R (I : R -> Prop) commit
    (fn : nat -> Database.Tx R) db,
  (forall a r res r', I r -> fn a db r = (res, r') -> I r') ->
  forall r res r',
    I r -> Database.withTransactionRetry commit fn db r = (res, r') -> I r'.
Proof.
  intros R I commit fn db Hfn r res r' Hr H.
  unfold Database.withTransactionRetry, Database.withRetry in H.
  eapply withRetryFrom_invariant; [|exact Hr|exact H].
  intros a r0 res0 r0' Hr0 Hop. unfold Database.session_withTransaction in Hop.
  destruct (fn a db r0) as [[e|d] r1] eqn:E.
  - inversion Hop; subst. eapply Hfn; eauto.
  - destruct (commit a); inversion Hop; subst; eapply Hfn; eauto.
Qed.

Lemma autoClockoutEntry_result : forall f att now dryRun t es r x,
  AutoClockout.success (snd (AutoClockout.autoClockoutEntry f att now dryRun t (es, r) x))
  = AutoClockout.success r
  /\ exists l,
       AutoClockout.errors (snd (AutoClockout.autoClockoutEntry f att now dryRun t (es, r) x))
       = AutoClockout.errors r ++ l.
Proof.
  intros f att now dryRun t es r [entry employee]; unfold AutoClockout.autoClockoutEntry.
  destruct dryRun.
  - destruct employee; simpl; split; auto; eexists;
      [symmetry; apply app_nil_r | reflexivity].
  - destruct (AutoClockout.update_fails f att (_id entry)) as [thrown|].
    { simpl; split; auto; eexists; reflexivity. }
    destruct (findByIdAndUpdate now (_id entry) (AutoClockout.autoClockoutUpdate t) es)
      as [e|[[u es']|]]; simpl.
    + split; auto; eexists; reflexivity.
    + destruct employee; simpl; split; auto; eexists;
        [symmetry; apply app_nil_r | reflexivity].
    + split; auto; exists []; symmetry; apply app_nil_r.
Qed.

Lemma autoClockout_fold_result : forall f att now dryRun t l es r,
  AutoClockout.success
    (snd (fold_left (AutoClockout.autoClockoutEntry f att now dryRun t) l (es, r)))
  = AutoClockout.success r
  /\ exists k,
       AutoClockout.errors
         (snd (fold_left (AutoClockout.autoClockoutEntry f att now dryRun t) l (es, r)))
       = AutoClockout.errors r ++ k.
Proof.
  intros f att now dryRun t l; induction l as [|x l IH]; intros es r; cbn [fold_left snd].
  - split; auto. exists []; symmetry; apply app_nil_r.
  - destruct (AutoClockout.autoClockoutEntry f att now dryRun t (es, r) x) as [es1 r1] eqn:E.
    pose proof (autoClockoutEntry_result f att now dryRun t es r x) as H1.
    rewrite E in H1; simpl in H1. destruct H1 as (Hs1 & k1 & He1).
    destruct (IH es1 r1) as (Hs & k & He).
    split; [congruence|]. exists (k1 ++ k). rewrite He, He1, app_assoc. reflexivity.
Qed.

Lemma nonempty_length : forall A (l : list A),
  (0 <? List.length l)%nat = true <-> l <> [].
Proof.
  intros A l; destruct l; simpl; split; intro H; try congruence; try discriminate.
  reflexivity.
Qed.

Lemma app_nonempty : forall A (l k : list A), l <> [] -> l ++ k <> [].
Proof. intros A l k H; destruct l; [congruence | discriminate]. Qed.

(** After the callback has run, the flag agrees with the error list,
    provided it did before. *)
Lemma autoClockoutTx_flag : forall f att now dryRun t db r res r',
  (AutoClockout.success r = false -> AutoClockout.errors r <> []) ->
  AutoClockout.autoClockoutTx f now dryRun t att db r = (res, r') ->
  (AutoClockout.success r' = false <-> AutoClockout.errors r' <> []).
Proof.
  intros f att now dryRun t db r res r' Hr H; unfold AutoClockout.autoClockoutTx in H.
  match type of H with
  | context [fold_left ?s ?l (?es, r)] =>
      pose proof (autoClockout_fold_result f att now dryRun t l es r) as HF;
      destruct (fold_left s l (es, r)) as [es' r1]
  end.
  simpl in HF. destruct HF as (Hs & k & He).
  destruct (0 <? List.length (AutoClockout.errors r1))%nat eqn:E;
    injection H as Hres Hr'; subst r'; simpl.
  - apply nonempty_length in E. tauto.
  - assert (Hnil : AutoClockout.errors r1 = []).
    { destruct (AutoClockout.errors r1); [reflexivity | discriminate]. }
    split; [|congruence].
    intro Hf. rewrite Hs in Hf. apply Hr in Hf.
    rewrite He in Hnil. destruct (AutoClockout.errors r); [congruence | discriminate].
Qed.

Lemma performAutoClockout_flag : forall tz f now target dryRun db,
  let r := fst (AutoClockout.performAutoClockout tz f now target dryRun db) in
  AutoClockout.success r = false <-> AutoClockout.errors r <> [].
Proof.
  intros tz f now target dryRun db; unfold AutoClockout.performAutoClockout.
  destruct (AutoClockout.connectDB_fails f) as [thrown|]; simpl.
  { split; [discriminate | reflexivity]. }
  match goal with
  | |- context [Database.withTransactionRetry ?c ?fn ?d ?r] =>
      destruct (Database.withTransactionRetry c fn d r) as [[e|db'] r'] eqn:E
  end; simpl.
  - split; [intros _; apply not_eq_sym, app_cons_not_nil | reflexivity].
  - eapply (withTransactionRetry_invariant _
              (fun r => AutoClockout.success r = false <-> AutoClockout.errors r <> []))
      in E; [exact E | | simpl; split; intro H0; [discriminate | congruence]].
    intros a0 r0 res0 r0' Hr0 Htx.
    eapply autoClockoutTx_flag; [apply Hr0 | exact Htx].
Qed.

(** One selective item: the flag is untouched, errors are only appended,
    the count grows exactly when the collection is written, and what is
    done to the collection does not depend on the result object. *)
Lemma selectiveEntry_result : forall f att now admin db es r x,
  let st := AutoClockout.selectiveEntry f att now admin db (es, r) x in
  AutoClockout.success (snd st) = AutoClockout.success r
  /\ (exists l, AutoClockout.errors (snd st) = AutoClockout.errors r ++ l)
  /\ (AutoClockout.clockedOutCount r <= AutoClockout.clockedOutCount (snd st))%nat
  /\ (AutoClockout.clockedOutCount (snd st) = AutoClockout.clockedOutCount r ->
      fst st = es)
  /\ forall r0,
       let st0 := AutoClockout.selectiveEntry f att now admin db (es, r0) x in
       fst st0 = fst st
       /\ (AutoClockout.clockedOutCount (snd st0) + AutoClockout.clockedOutCount r
           = AutoClockout.clockedOutCount (snd st) + AutoClockout.clockedOutCount r0)%nat.
Proof.
  intros f att now admin db es r [sel t]; cbv zeta; unfold AutoClockout.selectiveEntry.
  destruct (findActiveEntry sel es) as [a|].
  2:{ simpl; repeat split; auto; try lia. eexists; reflexivity. }
  destruct (t <=? clockIn a).
  { simpl; repeat split; auto; try lia. eexists; reflexivity. }
  destruct (AutoClockout.update_fails f att (_id a)) as [thrown|].
  { simpl; repeat split; auto; try lia. eexists; reflexivity. }
  destruct (findByIdAndUpdate now (_id a) (AutoClockout.selectiveUpdate now t admin) es)
    as [e|[[u es']|]]; simpl; repeat split; auto; try lia.
  - eexists; reflexivity.
  - exists []; symmetry; apply app_nil_r.
  - exists []; symmetry; apply app_nil_r.
Qed.

Lemma selective_fold_result : forall f att now admin db l es r,
  let st := fold_left (AutoClockout.selectiveEntry f att now admin db) l (es, r) in
  AutoClockout.success (snd st) = AutoClockout.success r
  /\ (exists k, AutoClockout.errors (snd st) = AutoClockout.errors r ++ k)
  /\ (AutoClockout.clockedOutCount r <= AutoClockout.clockedOutCount (snd st))%nat
  /\ (AutoClockout.clockedOutCount (snd st) = AutoClockout.clockedOutCount r ->
      fst st = es)
  /\ forall r0,
       let st0 := fold_left (AutoClockout.selectiveEntry f att now admin db) l (es, r0) in
       fst st0 = fst st
       /\ (AutoClockout.clockedOutCount (snd st0) + AutoClockout.clockedOutCount r
           = AutoClockout.clockedOutCount (snd st) + AutoClockout.clockedOutCount r0)%nat.
Proof.
  intros f att now admin db l; induction l as [|x l IH]; intros es r; cbv zeta;
    cbn [fold_left].
  - simpl; repeat split; auto; try lia. exists []; symmetry; apply app_nil_r.
  - pose proof (selectiveEntry_result f att now admin db es r x) as H1. cbv zeta in H1.
    destruct (AutoClockout.selectiveEntry f att now admin db (es, r) x) as [es1 r1] eqn:E.
    cbn [fst snd] in H1. destruct H1 as (Hs1 & (k1 & He1) & Hc1 & Hz1 & Hi1).
    pose proof (IH es1 r1) as H2. cbv zeta in H2.
    destruct H2 as (Hs & (k & He) & Hc & Hz & Hi).
    split; [congruence|]. split.
    { exists (k1 ++ k). rewrite He, He1, app_assoc. reflexivity. }
    split; [lia|]. split.
    { intro Heq. rewrite Hz by lia. apply Hz1. lia. }
    intro r0. destruct (Hi1 r0) as (Hf0 & Hn0).
    destruct (AutoClockout.selectiveEntry f att now admin db (es, r0) x) as [es0 r0'] eqn:E0.
    cbn [fst snd] in Hf0, Hn0. subst es0.
    destruct (Hi r0') as (Hf & Hn). split; [exact Hf | lia].
Qed.

Lemma selectiveTx_check : forall f att now sel admin db r res r',
  AutoClockout.selectiveTx f now sel admin att db r = (res, r') ->
  AutoClockout.errors r' <> [] -> AutoClockout.clockedOutCount r' = 0%nat ->
  AutoClockout.success r' = false.
Proof.
  intros f att now sel admin db r res r' H; unfold AutoClockout.selectiveTx in H.
  destruct (fold_left (AutoClockout.selectiveEntry f att now admin db) sel
                      (timeEntries db, r)) as [es' r1].
  destruct ((0 <? List.length (AutoClockout.errors r1))%nat
            && Nat.eqb (AutoClockout.clockedOutCount r1) 0) eqn:Echk;
    injection H as Hres Hr'; subst r'; simpl; [reflexivity|].
  intros Hne Hz0. apply nonempty_length in Hne.
  rewrite Hne, Hz0 in Echk. discriminate.
Qed.

(** The callback never clears the flag and never drops an error: a
    result that says failure lists an error. *)
Lemma selectiveTx_failure_has_error : forall f att now sel admin db r res r',
  (AutoClockout.success r = false -> AutoClockout.errors r <> []) ->
  AutoClockout.selectiveTx f now sel admin att db r = (res, r') ->
  AutoClockout.success r' = false -> AutoClockout.errors r' <> [].
Proof.
  intros f att now sel admin db r res r' Hr H; unfold AutoClockout.selectiveTx in H.
  pose proof (selective_fold_result f att now admin db sel (timeEntries db) r) as HF.
  cbv zeta in HF.
  destruct (fold_left (AutoClockout.selectiveEntry f att now admin db) sel
                      (timeEntries db, r)) as [es' r1] eqn:E.
  cbn [fst snd] in HF. destruct HF as (Hs & (k & He) & _).
  destruct ((0 <? List.length (AutoClockout.errors r1))%nat
            && Nat.eqb (AutoClockout.clockedOutCount r1) 0) eqn:Echk;
    injection H as Hres Hr'; subst r'; simpl.
  - apply andb_prop in Echk. destruct Echk as [E1 _].
    apply nonempty_length in E1. intros _. exact E1.
  - intro Hf. rewrite Hs in Hf. rewrite He. apply app_nonempty, Hr, Hf.
Qed.

(** The first run of the callback, on the fresh result object. *)
Lemma selectiveTx_first : forall f att now sel admin db,
  exists es' r',
    AutoClockout.selectiveTx f now sel admin att db AutoClockout.emptyResult
    = (inr (withEntries db es'), r')
    /\ (AutoClockout.success r' = false ->
        AutoClockout.errors r' <> [] /\ AutoClockout.clockedOutCount r' = 0%nat)
    /\ (AutoClockout.clockedOutCount r' = 0%nat -> es' = timeEntries db).
Proof.
  intros f att now sel admin db. unfold AutoClockout.selectiveTx.
  pose proof (selective_fold_result f att now admin db sel (timeEntries db)
                AutoClockout.emptyResult) as HF.
  cbv zeta in HF.
  destruct (fold_left (AutoClockout.selectiveEntry f att now admin db) sel
                      (timeEntries db, AutoClockout.emptyResult)) as [es' r1] eqn:E.
  cbn [fst snd] in HF. destruct HF as (Hs & _ & _ & Hz & _).
  cbn [AutoClockout.success AutoClockout.emptyResult AutoClockout.clockedOutCount] in Hs, Hz.
  exists es'.
  destruct ((0 <? List.length (AutoClockout.errors r1))%nat
            && Nat.eqb (AutoClockout.clockedOutCount r1) 0) eqn:Echk;
    eexists; (split; [reflexivity|]); simpl.
  - apply andb_prop in Echk. destruct Echk as [E1 E2].
    apply nonempty_length in E1. apply Nat.eqb_eq in E2. split; auto.
  - split; [congruence|exact Hz].
Qed.

Lemma withEntries_same : forall db, withEntries db (timeEntries db) = db.
Proof. destruct db; reflexivity. Qed.

(** Without a commit failure that is classified as transient there is
    one attempt. *)
Lemma withTransactionRetry_single : forall R commit (fn : nat -> Database.Tx R)
    db r db1 r1,
  fn 0%nat db r = (inr db1, r1) ->
  (forall e, commit 0%nat = Database.CommitFails e ->
             Database.isTransientError e <> inr true) ->
  Database.withTransactionRetry commit fn db r = (inr db1, r1)
  \/ exists e, Database.withTransactionRetry commit fn db r = (inl e, r1).
Proof.
  intros R commit fn db r db1 r1 Hfn Hc.
  unfold Database.withTransactionRetry, Database.withRetry.
  generalize (Database.maxRetries Database.DEFAULT_RETRY_OPTIONS). intro left.
  assert (Hop : Database.session_withTransaction (commit 0%nat) (fn 0%nat) db r
                = match commit 0%nat with
                  | Database.Committed => (inr db1, r1)
                  | Database.CommitFails e => (inl e, r1)
                  end).
  { unfold Database.session_withTransaction. rewrite Hfn. reflexivity. }
  destruct left; cbn [Database.withRetryFrom]; rewrite Hop;
    destruct (commit 0%nat) as [|e] eqn:Ec;
    try (left; reflexivity); right; try (eexists; reflexivity).
  specialize (Hc e eq_refl).
  destruct (Database.isTransientError e) as [thrown|[|]];
    [eexists; reflexivity|congruence|eexists; reflexivity].
Qed.

Lemma performSelective_flag : forall f now sel admin db,
  let '(r, db') := AutoClockout.performSelectiveAutoClockout f now sel admin db in
  (AutoClockout.success r = false -> AutoClockout.errors r <> [])
  /\ (AutoClockout.errors r <> [] -> AutoClockout.clockedOutCount r = 0%nat ->
      AutoClockout.success r = false).
Proof.
  intros f now sel admin db; unfold AutoClockout.performSelectiveAutoClockout.
  destruct (AutoClockout.connectDB_fails f) as [thrown|]; simpl.
  { split; [|reflexivity]. intros _. discriminate. }
  match goal with
  | |- context [Database.withTransactionRetry ?c ?fn ?d ?r] =>
      destruct (Database.withTransactionRetry c fn d r) as [[e|db'] r'] eqn:E
  end.
  - split; [|reflexivity]. intros _. simpl. apply not_eq_sym, app_cons_not_nil.
  - split.
    + refine (withTransactionRetry_invariant _
                (fun r => AutoClockout.success r = false -> AutoClockout.errors r <> [])
                _ _ _ _ _ _ _ _ E).
      * intros a1 r1 res0 r1' Hr1 Htx.
        eapply selectiveTx_failure_has_error; [exact Hr1 | exact Htx].
      * simpl; discriminate.
    + apply withTransactionRetry_inr in E. destruct E as (att & r0 & E).
      eapply selectiveTx_check; exact E.
Qed.

Lemma performSelective_single_attempt : forall f now sel admin db,
  (forall e, AutoClockout.commit f 0%nat = Database.CommitFails e ->
             Database.isTransientError e <> inr true) ->
  let '(r, db') := AutoClockout.performSelectiveAutoClockout f now sel admin db in
  AutoClockout.success r = false ->
  db' = db
  /\ (AutoClockout.clockedOutCount r = 0%nat
      \/ exists e, In (AutoClockout.SelectiveProcessFailed e) (AutoClockout.errors r)).
Proof.
  intros f now sel admin db Hc; unfold AutoClockout.performSelectiveAutoClockout.
  destruct (AutoClockout.connectDB_fails f) as [thrown|]; simpl.
  { intros _. split; auto. }
  destruct (selectiveTx_first f 0%nat now sel admin db) as (es' & r1 & Htx & Hfl & Hz).
  destruct (withTransactionRetry_single _ (AutoClockout.commit f)
              (AutoClockout.selectiveTx f now sel admin) db AutoClockout.emptyResult
              _ _ Htx Hc) as [E|[e E]]; rewrite E.
  - intro Hf. destruct (Hfl Hf) as [_ Hcount].
    split; [|left; exact Hcount].
    rewrite (Hz Hcount). apply withEntries_same.
  - intros _. split; [reflexivity|]. right. exists e. simpl.
    apply in_or_app. right. left. reflexivity.
Qed.

(** C8.  The bulk auto-clockout reports success = false exactly when its
    error list is not empty.  The selective one reports failure only
    with an error listed, and always when errors are listed and its
    count is zero.  As long as no attempt is repeated, failure also
    means that nothing was stored, with a zero count unless the whole
    run was aborted, and a run that clocked somebody out reports
    success.  A repeated attempt breaks this: the result object is
    shared by the attempts and the flag is never set back.  When the
    update of Alice's entry fails in the first attempt, the commit of
    that attempt fails on a closed connection and the second attempt
    meets no fault, her entry is stored closed and counted, and the run
    reports success = false. *)
Theorem success_flag_is_not_reset_on_retry :
  (forall tz f now target dryRun db,
     let r := fst (AutoClockout.performAutoClockout tz f now target dryRun db) in
     AutoClockout.success r = false <-> AutoClockout.errors r <> [])
  /\ (forall f now selected admin db,
        let r := fst (AutoClockout.performSelectiveAutoClockout f now selected admin db) in
        (AutoClockout.success r = false -> AutoClockout.errors r <> [])
        /\ (AutoClockout.errors r <> [] -> AutoClockout.clockedOutCount r = 0%nat ->
            AutoClockout.success r = false))
  /\ (forall f now selected admin db,
        (forall e, AutoClockout.commit f 0%nat = Database.CommitFails e ->
                   Database.isTransientError e <> inr true) ->
        let r := fst (AutoClockout.performSelectiveAutoClockout f now selected admin db) in
        let db' := snd (AutoClockout.performSelectiveAutoClockout f now selected admin db) in
        (AutoClockout.success r = false ->
         db' = db
         /\ (AutoClockout.clockedOutCount r = 0%nat
             \/ exists e, In (AutoClockout.SelectiveProcessFailed e) (AutoClockout.errors r)))
        /\ (AutoClockout.clockedOutCount r <> 0%nat ->
            (forall e, ~ In (AutoClockout.SelectiveProcessFailed e) (AutoClockout.errors r)) ->
            AutoClockout.success r = true))
  /\ (Database.isTransientError connectionClosed = inr true
      /\ let '(r, db') :=
           AutoClockout.performSelectiveAutoClockout failsThenRecovers
             (Examples.at_ 1 21) [(1%nat, Examples.at_ 1 17)] 2%nat Examples.openShop in
         AutoClockout.success r = false
         /\ AutoClockout.clockedOutCount r = 1%nat
         /\ AutoClockout.errors r = [AutoClockout.FailedToClockOut 1%nat writeConflict]
         /\ map (fun e => (_id e, clockOut e)) (timeEntries Examples.openShop)
            = [(10%nat, None)]
         /\ map (fun e => (_id e, clockOut e)) (timeEntries db')
            = [(10%nat, Some (Examples.at_ 1 17))]).
Proof.
  split; [exact performAutoClockout_flag|]. split; [|split].
  - intros f now selected admin db.
    pose proof (performSelective_flag f now selected admin db) as H.
    destruct (AutoClockout.performSelectiveAutoClockout f now selected admin db)
      as [r db'].
    cbv zeta; cbn [fst]. exact H.
  - intros f now selected admin db Hc.
    pose proof (performSelective_single_attempt f now selected admin db Hc) as H.
    destruct (AutoClockout.performSelectiveAutoClockout f now selected admin db)
      as [r db'].
    cbv zeta; cbn [fst snd]. split; [exact H|].
    intros Hcount Hnp. destruct (AutoClockout.success r) eqn:Es; [reflexivity|].
    destruct (H eq_refl) as (_ & [Hz|(e & He)]); [congruence|].
    exfalso; exact (Hnp e He).
  - split; [vm_compute; reflexivity|].
    vm_compute. repeat split; reflexivity.
Qed.

(* ------------------------------------------------------------------ *)
(** * Worked hours *)
(* ------------------------------------------------------------------ *)

Lemma clockOut_computes_hours : forall now newId emp db e db',
  TimeEntriesRoute.POST now newId emp "clockOut" db = (inr e, db') ->
  clockOut e = Some now
  /\ exists a, findActiveEntry emp (timeEntries db) = Some a
               /\ hoursWorked e = Some (hoursOf (clockIn a) now).
Proof.
  intros now newId emp db e db' H; unfold TimeEntriesRoute.POST in H; simpl in H.
  unfold inTransaction in H.
  destruct (Employee_findById emp db); [|discriminate]. cbn [orThrow bindExc] in H.
  unfold TimeEntriesRoute.clockOutBody in H.
  destruct (findActiveEntry emp (timeEntries db)) as [a|]; [|discriminate].
  cbn [orThrow bindExc] in H. unfold findByIdAndUpdate in H.
  match type of H with
  | context [validUpdate ?u] => destruct (validUpdate u); [|discriminate]
  end.
  cbn [bindExc] in H.
  match type of H with
  | context [updateById ?n ?i ?u ?es] =>
      destruct (updateById n i u es) as [[e1 es1]|] eqn:E; [|discriminate]
  end.
  cbn [orThrow bindExc] in H. inversion H; subst.
  apply updateById_found in E. destruct E as (e0 & _ & -> & _).
  split; [reflexivity|]. exists a. split; reflexivity.
Qed.

(** The auto-clockout functions never write [hoursWorked]. *)
Lemma auto_clockout_keeps_hours : forall tz f now target dryRun selected admin db,
  Forall2 (fun e e' => hoursWorked e' = hoursWorked e) (timeEntries db)
    (timeEntries (snd (AutoClockout.performAutoClockout tz f now target dryRun db)))
  /\ Forall2 (fun e e' => hoursWorked e' = hoursWorked e) (timeEntries db)
       (timeEntries
          (snd (AutoClockout.performSelectiveAutoClockout f now selected admin db))).
Proof.
  intros; split.
  - apply (performAutoClockout_pointwise (fun e e' => hoursWorked e' = hoursWorked e));
      [reflexivity | intros; congruence | reflexivity].
  - apply (performSelective_pointwise (fun e e' => hoursWorked e' = hoursWorked e));
      [reflexivity | intros; congruence | reflexivity].
Qed.

(** Nor does a single correction, also when it replaces the clock-out. *)
Lemma correction_keeps_hours : forall now id body db e db',
  CorrectRoute.PUT now id body db = (inr e, db') ->
  exists te, TimeEntry_findById id (timeEntries db) = Some te
             /\ hoursWorked e = hoursWorked te.
Proof.
  intros now id body db e db' H. apply PUT_success in H.
  destruct H as (admin & te & u & _ & _ & Hf & _ & Hu & -> & _).
  exists te; split; [exact Hf|].
  apply updateDataFor_fields in Hu. destruct Hu as (_ & _ & Hh & _).
  unfold applyUpdate, preUpdateHook; simpl. rewrite Hh. reflexivity.
Qed.

(** Nor does a batch request, in either mode. *)
Lemma batch_keeps_hours : forall now body db,
  Forall2 (fun e e' => hoursWorked e' = hoursWorked e) (timeEntries db)
          (timeEntries (snd (NeedsReviewRoute.POST now body db))).
Proof.
  intros now body db.
  destruct (NeedsReviewRoute.POST now body db) as [[err|n] db'] eqn:E; simpl.
  - apply batch_failure in E; subst.
    apply (pointwise_refl (fun e e' => hoursWorked e' = hoursWorked e)). reflexivity.
  - apply batch_success in E.
    destruct E as (admin & p & u & _ & _ & _ & Hh & Hupd & _).
    pose proof (updateMany_pointwise (fun e e' => hoursWorked e' = hoursWorked e)
                  (fun e => eq_refl) now p u (timeEntries db)) as H.
    rewrite <- Hupd in H. apply H.
    intros e _. unfold applyUpdate, preUpdateHook; simpl. rewrite Hh. reflexivity.
Qed.

(** C2 (what the code does).  A manual clock-out stores the hours between
    clock-in and clock-out, but the other writers of clockOut do not:
    after the auto-clockout of Alice's 09:00 entry at 20:00 hoursWorked
    is still null (and the run reports 0 hours); a correction that moves
    the clock-out to 17:00 leaves it null as well; and Carl, who clocked
    in at 20:30, is closed at 20:00, before his clock-in. *)
Theorem hours_not_recomputed_when_clock_out_changes :
  (forall now newId emp db e db',
     TimeEntriesRoute.POST now newId emp "clockOut" db = (inr e, db') ->
     clockOut e = Some now
     /\ exists a, findActiveEntry emp (timeEntries db) = Some a
                  /\ hoursWorked e = Some (hoursOf (clockIn a) now))
  /\ (let '(r, db') :=
        AutoClockout.performAutoClockout 0 AutoClockout.noFaults
          (Examples.at_ 1 21) (Examples.at_ 1 21) false Examples.openShop in
      map (fun e => (clockIn e, clockOut e, hoursWorked e)) (timeEntries db')
      = [(Examples.at_ 1 9, Some (Examples.at_ 1 20), None)]
      /\ map AutoClockout.co_hoursWorked (AutoClockout.clockedOutEmployees r) = [0%Q]
      /\ AutoClockout.success r = true)
  /\ (let '(r, db') :=
        CorrectRoute.PUT (Examples.at_ 2 10) 10%nat Examples.moveTo17 Examples.reviewShop in
      option_map (fun e => (clockIn e, clockOut e, hoursWorked e))
                 (match r with inr e => Some e | inl _ => None end)
      = Some (Examples.at_ 1 9, Some (Examples.at_ 1 17), None))
  /\ (let db' :=
        snd (AutoClockout.performAutoClockout 0 AutoClockout.noFaults
               (Examples.at_ 1 21) (Examples.at_ 1 21) false Examples.lateShop) in
      map (fun e => (clockIn e, clockOut e)) (timeEntries db')
      = [(Examples.at_ 1 20 + 30 * msPerMinute, Some (Examples.at_ 1 20))]
      /\ Examples.at_ 1 20 < Examples.at_ 1 20 + 30 * msPerMinute).
Proof.
  split; [exact clockOut_computes_hours|].
  split; [vm_compute; repeat split; reflexivity|].
  split; [vm_compute; reflexivity|].
  vm_compute; repeat split; reflexivity.
Qed.

(* ------------------------------------------------------------------ *)
(** * Review priority *)
(* ------------------------------------------------------------------ *)

Lemma ceilDiv_within_first_day : forall age,
  0 < age <= msPerDay -> EmployeeGroupedReviews.ceilDiv age msPerDay = 1.
Proof.
  intros age H; unfold EmployeeGroupedReviews.ceilDiv, msPerDay in *.
  assert ((- age) / 86400000 = -1); [|lia].
  symmetry. apply (Z.div_unique_pos _ _ _ (86400000 - age)); lia.
Qed.

(** C5 (what the code does).  The age is rounded up to whole days before
    it is compared with 3 and 1: every flag older than the present
    instant by at most a day counts as one day and is 'medium'.  With
    Alice flagged four days ago and Carl two hours ago, Alice's group is
    'high' and Carl's is 'medium', not 'low'. *)
Theorem flag_two_hours_old_is_medium :
  (forall age, 0 < age <= msPerDay ->
     EmployeeGroupedReviews.priorityOf (EmployeeGroupedReviews.ceilDiv age msPerDay)
     = EmployeeGroupedReviews.medium)
  /\ (let now := Examples.at_ 15 22 in
      map (fun e => (employeeId e, now - updatedAt e))
          (filter needsReview (timeEntries Examples.pendingReviews))
      = [(1%nat, 4 * msPerDay); (3%nat, 2 * msPerHour)]
      /\ map (fun g => (EmployeeGroupedReviews.g_id g,
                        EmployeeGroupedReviews.oldestReviewDays g,
                        EmployeeGroupedReviews.priority g))
             (fst (EmployeeGroupedReviews.GET now None Examples.pendingReviews))
         = [(1%nat, 4, EmployeeGroupedReviews.high);
            (3%nat, 1, EmployeeGroupedReviews.medium)]).
Proof.
  split.
  - intros age H. rewrite (ceilDiv_within_first_day age H). reflexivity.
  - vm_compute. split; reflexivity.
Qed.

(* ------------------------------------------------------------------ *)
(** * The employee report *)
(* ------------------------------------------------------------------ *)

Lemma GET_data : forall tz emp yr mo db r,
  EmployeeReport.GET tz emp yr mo db = inr r ->
  exists entries,
    EmployeeReport.data r = EmployeeReport.yearlyDataOf tz yr mo entries
    /\ EmployeeReport.totalEntries (EmployeeReport.summary r) = List.length entries
    /\ EmployeeReport.daysWorked (EmployeeReport.summary r) = List.length entries.
Proof.
  intros tz emp yr mo db r H; unfold EmployeeReport.GET in H.
  destruct (Employee_findById emp db); [|discriminate]. cbn [orThrow bindExc] in H.
  destruct (EmployeeReport.monthGiven mo); injection H as <-;
    eexists; cbn [EmployeeReport.data EmployeeReport.summary
                  EmployeeReport.totalEntries EmployeeReport.daysWorked];
    repeat split.
Qed.

Lemma weeklyData_total : forall tz monthStart byWeek n,
  EmployeeReport.w_totalHours (EmployeeReport.weeklyDataOf tz monthStart byWeek n)
  = sumQ (map EmployeeReport.hours
              (EmployeeReport.days (EmployeeReport.weeklyDataOf tz monthStart byWeek n))).
Proof.
  intros; unfold EmployeeReport.weeklyDataOf.
  destruct (EmployeeReport.getWeekDateRange tz n monthStart).
  cbn [EmployeeReport.w_totalHours EmployeeReport.days]. reflexivity.
Qed.

(** Totals are sums of their children by construction. *)
Lemma report_totals_are_sums : forall tz yr mo entries,
  let y := EmployeeReport.yearlyDataOf tz yr mo entries in
  EmployeeReport.y_totalHours y
  = sumQ (map EmployeeReport.m_totalHours (EmployeeReport.months y))
  /\ Forall (fun m => EmployeeReport.m_totalHours m
                      = sumQ (map EmployeeReport.w_totalHours (EmployeeReport.weeks m)))
            (EmployeeReport.months y)
  /\ Forall (fun m =>
               Forall (fun w => EmployeeReport.w_totalHours w
                                = sumQ (map EmployeeReport.hours (EmployeeReport.days w)))
                      (EmployeeReport.weeks m))
            (EmployeeReport.months y).
Proof.
  intros tz yr mo entries; cbv zeta; unfold EmployeeReport.yearlyDataOf.
  cbn [EmployeeReport.y_totalHours EmployeeReport.months].
  split; [reflexivity|]. split.
  - apply Forall_forall. intros md Hin. apply filter_In in Hin.
    destruct Hin as [Hin _]. apply in_map_iff in Hin. destruct Hin as (k & <- & _).
    unfold EmployeeReport.monthlyDataOf.
    cbn [EmployeeReport.m_totalHours EmployeeReport.weeks]. reflexivity.
  - apply Forall_forall. intros md Hin. apply filter_In in Hin.
    destruct Hin as [Hin _]. apply in_map_iff in Hin. destruct Hin as (k & <- & _).
    apply Forall_forall. intros w Hw.
    unfold EmployeeReport.monthlyDataOf in Hw. cbn [EmployeeReport.weeks] in Hw.
    apply in_map_iff in Hw. destruct Hw as (n & <- & _).
    apply weeklyData_total.
Qed.

(** C6 (what the code does).  Weeks and months are cut in local time but
    the day key is the UTC date.  On a host one hour east of UTC, Alice's
    eight hours on Sunday 7 January fall into week 1, whose seven day
    keys run from 2023-12-31 to 2024-01-06: the entry is in the query
    result but in no day bucket, and the year total is 0.  On a UTC host
    the same entry is counted. *)
Theorem report_loses_entry_on_seventh_day :
  let tz := Examples.oneHourEast in
  let db := Examples.sundayShift in
  let window := (newDate tz 2024 0 1 0 0 0 0, newDate tz 2024 11 31 23 59 59 999) in
  map (fun e => (getMonth tz (clockIn e) + 1, getDate tz (clockIn e), hoursWorked e))
      (EmployeeReport.closedInWindow 1%nat (fst window) (snd window) db)
  = [(1, 7, Some (Qmake 28800000 3600000))]
  /\ (exists r,
        EmployeeReport.GET tz 1%nat 2024 None db = inr r
        /\ EmployeeReport.totalEntries (EmployeeReport.summary r) = 1%nat
        /\ EmployeeReport.allDays r = []
        /\ sumQ (map EmployeeReport.hours (EmployeeReport.allDays r)) = 0%Q
        /\ EmployeeReport.y_totalHours (EmployeeReport.data r) = 0%Q)
  /\ (exists r,
        EmployeeReport.GET tz 1%nat 2024 (Some 1) db = inr r
        /\ map EmployeeReport.date
             (flat_map EmployeeReport.days
                (firstn 1 (flat_map EmployeeReport.weeks
                                    (EmployeeReport.months (EmployeeReport.data r)))))
           = [(2023, 12, 31); (2024, 1, 1); (2024, 1, 2); (2024, 1, 3);
              (2024, 1, 4); (2024, 1, 5); (2024, 1, 6)]
        /\ Forall (fun d => EmployeeReport.d_entries d = []) (EmployeeReport.allDays r)
        /\ List.length (EmployeeReport.allDays r) = 31%nat)
  /\ (exists r,
        EmployeeReport.GET 0 1%nat 2024 None db = inr r
        /\ Qeq (sumQ (map EmployeeReport.hours (EmployeeReport.allDays r))) 8).
Proof.
  cbv zeta. split; [vm_compute; reflexivity|]. split; [|split].
  - eexists. split; [vm_compute; reflexivity|].
    vm_compute. repeat split; reflexivity.
  - eexists. split; [vm_compute; reflexivity|].
    split; [vm_compute; reflexivity|]. split; [|vm_compute; reflexivity].
    vm_compute. repeat constructor.
  - eexists. split; [vm_compute; reflexivity|]. vm_compute. reflexivity.
Qed.

Lemma report_days_worked_counts_entries : forall tz emp yr mo db r,
  EmployeeReport.GET tz emp yr mo db = inr r ->
  EmployeeReport.daysWorked (EmployeeReport.summary r)
  = EmployeeReport.totalEntries (EmployeeReport.summary r).
Proof.
  intros tz emp yr mo db r H. apply GET_data in H.
  destruct H as (entries & _ & H1 & H2). congruence.
Qed.

(** C7 (what the code does).  The summary's daysWorked is the number of
    entries, as totalEntries is: for Alice's two sessions on 4 March the
    report has one day with entries and says 2 days worked.  The average
    is the total divided by the number of entries. *)
Theorem days_worked_counts_entries_not_days :
  (forall tz emp yr mo db r,
     EmployeeReport.GET tz emp yr mo db = inr r ->
     EmployeeReport.daysWorked (EmployeeReport.summary r)
     = EmployeeReport.totalEntries (EmployeeReport.summary r))
  /\ (exists r,
        EmployeeReport.GET 0 1%nat 2024 None Examples.splitShift = inr r
        /\ EmployeeReport.totalEntries (EmployeeReport.summary r) = 2%nat
        /\ EmployeeReport.daysWorked (EmployeeReport.summary r) = 2%nat
        /\ map EmployeeReport.date
             (filter (fun d => negb (Nat.eqb (List.length (EmployeeReport.d_entries d)) 0))
                     (EmployeeReport.allDays r))
           = [(2024, 3, 4)]
        /\ List.length (EmployeeReport.distinctDays 0 (timeEntries Examples.splitShift))
           = 1%nat
        /\ Qeq (EmployeeReport.totalHours (EmployeeReport.summary r)) 7
        /\ Qeq (EmployeeReport.averageHoursPerDay (EmployeeReport.summary r)) (7 # 2)).
Proof.
  split; [exact report_days_worked_counts_entries|].
  eexists. split; [vm_compute; reflexivity|].
  vm_compute. repeat split; reflexivity.
Qed.

(* ------------------------------------------------------------------ *)
(** * The theorems at concrete inputs *)
(* ------------------------------------------------------------------ *)

Lemma serve_reachable : forall reqs db, reachable db -> reachable (serve reqs db).
Proof.
  unfold serve; induction reqs as [|[now req] rest IH]; intros db H; simpl.
  - exact H.
  - apply IH. apply reachable_step. exact H.
Qed.

(** The states used as examples arise from the installation [staff] by
    serving requests. *)
Lemma examples_are_reachable :
  reachable Examples.openShop /\ reachable Examples.lateShop
  /\ reachable Examples.reviewShop /\ reachable Examples.correctedShop
  /\ reachable Examples.pendingReviews /\ reachable Examples.sundayShift
  /\ reachable Examples.splitShift.
Proof.
  assert (H0 : reachable Examples.staff) by apply reachable_init.
  repeat split; repeat apply serve_reachable; exact H0.
Qed.

Lemma example_entries :
  timeEntries Examples.openShop = [Examples.aliceOpen]
  /\ timeEntries Examples.reviewShop = [Examples.aliceAuto].
Proof. split; reflexivity. Qed.

(** Three clock-in calls for Alice on an installation without entries:
    one succeeds. *)
(** Bea's correction of Alice's flagged entry clears the flag, and the
    auto-clockout that closes Alice's open entry sets it. *)
Lemma review_flag_after_each_operation_witness :
  needsReview Examples.aliceAuto = true
  /\ match fst (CorrectRoute.PUT (Examples.at_ 2 10) 10%nat Examples.moveTo17
                  Examples.reviewShop) with
     | inr e => needsReview e = false
     | inl _ => False
     end
  /\ match timeEntries
             (snd (AutoClockout.performAutoClockout 0 AutoClockout.noFaults
                     (Examples.at_ 1 21) (Examples.at_ 1 21) false Examples.openShop)) with
     | [e'] => isActive Examples.aliceOpen = true /\ isActive e' = false
               /\ needsReview e' = true
     | _ => False
     end.
Proof.
  split; [reflexivity|]. split.
  - destruct (CorrectRoute.PUT (Examples.at_ 2 10) 10%nat Examples.moveTo17
                Examples.reviewShop) as [[err|e] db'] eqn:E; cbn [fst].
    + vm_compute in E. discriminate.
    + exact (proj1 (proj1 review_flag_after_each_operation _ _ _ _ _ _ E)).
  - pose proof (proj2 (proj2 (proj2 review_flag_after_each_operation))
                  0 AutoClockout.noFaults (Examples.at_ 1 21) (Examples.at_ 1 21)
                  Examples.openShop) as H.
    remember (timeEntries
                (snd (AutoClockout.performAutoClockout 0 AutoClockout.noFaults
                        (Examples.at_ 1 21) (Examples.at_ 1 21) false
                        Examples.openShop))) as es' eqn:E.
    destruct es' as [|e' [|e'' rest]].
    + vm_compute in E. discriminate.
    + inversion H as [|e0 e1 l0 l1 Hhd Htl].
      assert (Hc : isActive e' = false).
      { vm_compute in E. injection E as ->. reflexivity. }
      split; [reflexivity|]. split; [exact Hc|].
      exact (Hhd eq_refl Hc).
    + vm_compute in E. discriminate.
Defined.

(** Moving Alice's clock-out from 20:00 to 17:00 records 20:00 as the
    original; moving it again to 18:00 keeps 20:00. *)
Lemma original_clock_out_set_once_witness :
  match CorrectRoute.PUT (Examples.at_ 2 10) 10%nat Examples.moveTo17
          Examples.reviewShop with
  | (inr e1, db1) =>
      originalClockOut e1 = Some (Examples.at_ 1 20)
      /\ match CorrectRoute.PUT (Examples.at_ 3 10) 10%nat Examples.moveTo18 db1 with
         | (inr e2, _) =>
             originalClockOut e2 = Some (Examples.at_ 1 20)
             /\ clockOut e2 = Some (Examples.at_ 1 18)
         | (inl _, _) => False
         end
  | (inl _, _) => False
  end.
Proof.
  remember (CorrectRoute.PUT (Examples.at_ 2 10) 10%nat Examples.moveTo17
              Examples.reviewShop) as out eqn:E1.
  destruct out as [[err|e1] db1]; symmetry in E1.
  - vm_compute in E1. discriminate.
  - destruct (original_clock_out_set_once (Examples.at_ 2 10) 10%nat
                Examples.moveTo17 Examples.reviewShop Examples.aliceAuto
                (Examples.at_ 1 20) (Examples.at_ 1 17) e1 db1
                eq_refl eq_refl eq_refl eq_refl eq_refl E1) as (H1 & _ & _ & H4).
    split; [exact H1|].
    remember (CorrectRoute.PUT (Examples.at_ 3 10) 10%nat Examples.moveTo18 db1)
      as out2 eqn:E2.
    destruct out2 as [[err|e2] db2]; symmetry in E2.
    + vm_compute in E1. injection E1 as _ Hdb. subst db1.
      vm_compute in E2. discriminate.
    + exact (H4 [] (Examples.at_ 3 10) Examples.moveTo18 (Examples.at_ 1 18)
                e2 db2 eq_refl E2).
Defined.

(** Bea's second correction carries no notes: the note her first one
    left on Alice's entry is gone. *)
Lemma correction_without_notes_erases_admin_notes_witness :
  option_map adminNotes (TimeEntry_findById 10%nat (timeEntries Examples.correctedShop))
  = Some (Some "left at five"%string)
  /\ CorrectRoute.b_adminNotes Examples.moveTo18 = None
  /\ match fst (CorrectRoute.PUT (Examples.at_ 3 10) 10%nat Examples.moveTo18
                  Examples.correctedShop) with
     | inr e => adminNotes e = None
     | inl _ => False
     end.
Proof.
  split; [reflexivity|]. split; [reflexivity|].
  destruct (CorrectRoute.PUT (Examples.at_ 3 10) 10%nat Examples.moveTo18
              Examples.correctedShop) as [[err|e] db'] eqn:E; cbn [fst].
  - vm_compute in E. discriminate.
  - exact (proj1 (correction_without_notes_erases_admin_notes
                    (Examples.at_ 3 10) 10%nat Examples.moveTo18 Examples.correctedShop
                    e db' eq_refl E)).
Defined.

(** At noon Bea closes Alice's open entry with a time ten years ahead. *)
Lemma selective_clockout_accepts_future_time_witness :
  let now := Examples.at_ 1 12 in
  let T := now + 3650 * msPerDay in
  findActiveEntry 1%nat (timeEntries Examples.openShop) = Some Examples.aliceOpen
  /\ clockIn Examples.aliceOpen < T
  /\ now < T
  /\ exists e',
       TimeEntry_findById 10%nat
         (timeEntries
            (snd (AutoClockout.performSelectiveAutoClockout AutoClockout.noFaults now
                    [(1%nat, T)] 2%nat Examples.openShop)))
       = Some e'
       /\ clockOut e' = Some T.
Proof.
  cbv zeta. split; [reflexivity|]. split; [reflexivity|]. split; [reflexivity|].
  destruct (selective_clockout_accepts_future_time (Examples.at_ 1 12) 2%nat 1%nat
              Examples.openShop Examples.aliceOpen
              (Examples.at_ 1 12 + 3650 * msPerDay)
              eq_refl eq_refl eq_refl eq_refl) as (H & _).
  destruct H as (_ & _ & _ & H). exact H.
Defined.

(* ------------------------------------------------------------------ *)
(** * Closing times *)
(* ------------------------------------------------------------------ *)

Lemma day_of_local_time : forall d H,
  0 <= H < msPerDay ->
  Day (d * msPerDay + H) = d /\ TimeWithinDay (d * msPerDay + H) = H.
Proof.
  intros d H HH; unfold Day, TimeWithinDay, msPerDay in *. split.
  - symmetry. apply (Z.div_unique_pos _ _ _ H); lia.
  - symmetry. apply (Z.mod_unique_pos _ _ d); lia.
Qed.

Lemma closing_time_local : forall tz date,
  AutoClockout.getAutoClockoutTime tz date + tz
  = Day (date + tz) * msPerDay
    + (if getDay tz date =? 0 then 18 else 20) * msPerHour.
Proof.
  intros tz date; unfold AutoClockout.getAutoClockoutTime, setHours, MakeTime.
  destruct (getDay tz date =? 0); simpl; unfold msPerHour, msPerMinute, msPerSecond; lia.
Qed.

Lemma closing_hour_bounds : forall (b : bool),
  0 <= (if b then 18 else 20) * msPerHour < msPerDay.
Proof. intros []; unfold msPerHour, msPerDay; lia. Qed.

Lemma closing_time_facts : forall tz date,
  Day (AutoClockout.getAutoClockoutTime tz date + tz) = Day (date + tz)
  /\ TimeWithinDay (AutoClockout.getAutoClockoutTime tz date + tz)
     = (if getDay tz date =? 0 then 18 else 20) * msPerHour
  /\ getDay tz (AutoClockout.getAutoClockoutTime tz date) = getDay tz date.
Proof.
  intros tz date. rewrite closing_time_local.
  destruct (day_of_local_time (Day (date + tz))
              ((if getDay tz date =? 0 then 18 else 20) * msPerHour)
              (closing_hour_bounds _)) as [H1 H2].
  split; [exact H1|]. split; [exact H2|].
  unfold getDay, WeekDay. rewrite closing_time_local, H1. reflexivity.
Qed.

Lemma closing_time_idempotent : forall tz date,
  AutoClockout.getAutoClockoutTime tz (AutoClockout.getAutoClockoutTime tz date)
  = AutoClockout.getAutoClockoutTime tz date.
Proof.
  intros tz date.
  destruct (closing_time_facts tz date) as (H1 & _ & H3).
  pose proof (closing_time_local tz (AutoClockout.getAutoClockoutTime tz date)) as Hc.
  rewrite H1, H3 in Hc. rewrite <- closing_time_local in Hc. lia.
Qed.

(** X1. The closing time of a date lies on the same local day as the
    date, at 18:00 local on a Sunday and at 20:00 on every other day,
    on the minute; taking the closing time of a closing time changes
    nothing. *)
Theorem closing_time_is_on_the_same_local_day :
  forall tz date,
    let c := AutoClockout.getAutoClockoutTime tz date in
    Day (c + tz) = Day (date + tz)
    /\ getDay tz c = getDay tz date
    /\ getHours tz c = (if getDay tz date =? 0 then 18 else 20)
    /\ getMinutes tz c = 0
    /\ TimeWithinDay (c + tz) mod msPerMinute = 0
    /\ AutoClockout.getAutoClockoutTime tz c = c.
Proof.
  intros tz date; cbv zeta.
  destruct (closing_time_facts tz date) as (H1 & H2 & H3).
  split; [exact H1|]. split; [exact H3|].
  unfold getHours, getMinutes. rewrite H2.
  split; [|split; [|split]].
  - destruct (getDay tz date =? 0); reflexivity.
  - destruct (getDay tz date =? 0); reflexivity.
  - destruct (getDay tz date =? 0); reflexivity.
  - apply closing_time_idempotent.
Qed.

Lemma shouldAutoClockout_hours : forall tz now,
  AutoClockout.shouldAutoClockout tz now = true
  <-> (if getDay tz now =? 0 then 18 else 20) <= getHours tz now.
Proof.
  intros tz now; unfold AutoClockout.shouldAutoClockout.
  rewrite Z.leb_le.
  pose proof (closing_time_local tz now) as Hc.
  unfold getHours.
  pose proof (Z.div_mod (now + tz) msPerDay) as Hdm.
  assert (Hpos : msPerDay <> 0) by (unfold msPerDay; lia).
  specialize (Hdm Hpos).
  pose proof (Z.mod_pos_bound (now + tz) msPerDay) as Hb.
  unfold Day, TimeWithinDay in *.
  set (q := (now + tz) / msPerDay) in *.
  set (m := (now + tz) mod msPerDay) in *.
  set (h := if getDay tz now =? 0 then 18 else 20) in *.
  assert (Hh : 0 <= h <= 20) by (subst h; destruct (getDay tz now =? 0); lia).
  assert (Hm : 0 <= m < msPerDay) by (apply Hb; unfold msPerDay; lia).
  split; intro H.
  - apply Z.div_le_lower_bound; [unfold msPerHour; lia|]. lia.
  - assert (h * msPerHour <= m).
    { pose proof (Z.mul_div_le m msPerHour) as Hle.
      assert (0 < msPerHour) by (unfold msPerHour; lia).
      specialize (Hle H0). nia. }
    lia.
Qed.

(** X2. The scheduled check acts by the local hour: before 20:00 local
    (18:00 on a Sunday) it returns the empty success result and leaves
    the collections alone; from that hour on it is the bulk auto-clockout
    for the present instant. *)
Theorem scheduled_check_follows_the_closing_hour :
  forall tz f now db,
    (getHours tz now < (if getDay tz now =? 0 then 18 else 20) ->
     AutoClockout.checkAndPerformAutoClockout tz f now db
     = (AutoClockout.emptyResult, db))
    /\ ((if getDay tz now =? 0 then 18 else 20) <= getHours tz now ->
        AutoClockout.checkAndPerformAutoClockout tz f now db
        = AutoClockout.performAutoClockout tz f now now false db).
Proof.
  intros tz f now db; unfold AutoClockout.checkAndPerformAutoClockout.
  pose proof (shouldAutoClockout_hours tz now) as H.
  destruct (AutoClockout.shouldAutoClockout tz now); simpl; split; intro Hh.
  - assert ((if getDay tz now =? 0 then 18 else 20) <= getHours tz now)
      by (apply H; reflexivity). lia.
  - reflexivity.
  - reflexivity.
  - apply H in Hh. discriminate.
Qed.

(** X3. 'Enforce now' is the manual trigger for the present instant: it
    closes at today's closing time whatever the hour, so before that
    hour the clock-out it writes lies after the instant of the request. *)
Theorem enforce_now_is_a_trigger_for_today :
  forall tz f now db,
    AutoClockout.enforceNoOvertimePolicy tz f now db
    = AutoClockout.performAutoClockout tz f now now false db
    /\ (getHours tz now < (if getDay tz now =? 0 then 18 else 20) ->
        now < AutoClockout.getAutoClockoutTime tz now).
Proof.
  intros tz f now db; split.
  - unfold AutoClockout.enforceNoOvertimePolicy, AutoClockout.performAutoClockout.
    rewrite closing_time_idempotent. reflexivity.
  - intro Hh.
    destruct (Z.le_gt_cases (AutoClockout.getAutoClockoutTime tz now) now) as [Hle|Hgt];
      [|lia].
    assert (Hs : AutoClockout.shouldAutoClockout tz now = true)
      by (unfold AutoClockout.shouldAutoClockout; apply Z.leb_le; exact Hle).
    apply shouldAutoClockout_hours in Hs. lia.
Qed.

(* ------------------------------------------------------------------ *)
(** * The civil calendar *)
(* ------------------------------------------------------------------ *)

Lemma yoe_bounds : forall doe, 0 <= doe < 146097 ->
  0 <= (doe - doe / 1460 + doe / 36524 - doe / 146096) / 365 <= 399.
Proof. intros doe H. Z.div_mod_to_equations. lia. Qed.

Lemma doy_bounds : forall doe, 0 <= doe < 146097 ->
  let yoe := (doe - doe / 1460 + doe / 36524 - doe / 146096) / 365 in
  0 <= doe - (365 * yoe + yoe / 4 - yoe / 100) <= 365.
Proof. intros doe H yoe. subst yoe. Z.div_mod_to_equations. lia. Qed.

Lemma civil_round_trip : forall z y m d,
  civilFromDays z = (y, m, d) ->
  1 <= m <= 12 /\ 1 <= d <= 31 /\ daysFromCivil y m d = z.
Proof.
  intros z y m d. unfold civilFromDays. cbv zeta.
  remember (z + 719468) as z' eqn:Ez.
  remember (z' / 146097) as era eqn:Eera.
  remember (z' - era * 146097) as doe eqn:Edoe.
  assert (Hdoe : 0 <= doe < 146097)
    by (subst doe era; Z.div_mod_to_equations; lia).
  pose proof (yoe_bounds doe Hdoe) as Hyoe.
  pose proof (doy_bounds doe Hdoe) as Hdoy. cbv zeta in Hdoy.
  remember ((doe - doe / 1460 + doe / 36524 - doe / 146096) / 365) as yoe eqn:Eyoe.
  remember (doe - (365 * yoe + yoe / 4 - yoe / 100)) as doy eqn:Edoy.
  remember ((5 * doy + 2) / 153) as mp eqn:Emp.
  assert (Hmp : 0 <= mp <= 11) by (subst mp; Z.div_mod_to_equations; lia).
  assert (Hd : 1 <= doy - (153 * mp + 2) / 5 + 1 <= 31)
    by (subst mp; Z.div_mod_to_equations; lia).
  remember ((153 * mp + 2) / 5) as c eqn:Ec.
  intro H; injection H as Hy Hm Hdd.
  assert (Hmm : 1 <= m <= 12 /\ (if 2 <? m then m - 3 else m + 9) = mp
                /\ (if m <=? 2 then y - 1 else y) = yoe + era * 400).
  { subst m y. destruct (mp <? 10) eqn:E.
    - apply Z.ltb_lt in E.
      replace (2 <? mp + 3) with true by (symmetry; apply Z.ltb_lt; lia).
      replace (mp + 3 <=? 2) with false by (symmetry; apply Z.leb_gt; lia).
      lia.
    - apply Z.ltb_ge in E.
      replace (2 <? mp - 9) with false by (symmetry; apply Z.ltb_ge; lia).
      replace (mp - 9 <=? 2) with true by (symmetry; apply Z.leb_le; lia).
      lia. }
  destruct Hmm as (Hm1 & Hm2 & Hm3).
  split; [exact Hm1|]. split; [rewrite <- Hdd; exact Hd|].
  unfold daysFromCivil. cbv zeta. rewrite Hm2, Hm3.
  assert (He : (yoe + era * 400) / 400 = era).
  { clear - Hyoe. Z.div_mod_to_equations. lia. }
  rewrite He.
  replace (yoe + era * 400 - era * 400) with yoe by (clear; lia).
  rewrite <- Ec. clear - Hdd Edoy Edoe Ez. lia.
Qed.

Lemma MakeDay_of_civil : forall z y m d k,
  civilFromDays z = (y, m, d) -> MakeDay y (m - 1) (d + k) = z + k.
Proof.
  intros z y m d k H. apply civil_round_trip in H. destruct H as (Hm & _ & H).
  unfold MakeDay. cbv zeta.
  assert (H0 : (m - 1) / 12 = 0) by (Z.div_mod_to_equations; lia).
  assert (H1 : (m - 1) mod 12 = m - 1) by (Z.div_mod_to_equations; lia).
  rewrite H0, H1. replace (y + 0) with y by lia.
  replace (m - 1 + 1) with m by lia.
  revert H. unfold daysFromCivil. cbv zeta. lia.
Qed.

Lemma setDate_plus_days : forall tz t k,
  setDate tz t (getDate tz t + k) = t + k * msPerDay.
Proof.
  intros tz t k. unfold setDate, getFullYear, getMonth, getDate.
  destruct (civilFromDays (Day (t + tz))) as [[y m] d] eqn:E.
  rewrite (MakeDay_of_civil _ _ _ _ k E).
  unfold Day, TimeWithinDay, msPerDay. Z.div_mod_to_equations. lia.
Qed.

Lemma closing_time_same_day : forall tz a b,
  Day (a + tz) = Day (b + tz) ->
  AutoClockout.getAutoClockoutTime tz a = AutoClockout.getAutoClockoutTime tz b.
Proof.
  intros tz a b H.
  unfold AutoClockout.getAutoClockoutTime, setHours, getDay, WeekDay.
  rewrite H. reflexivity.
Qed.

Lemma day_plus_one : forall t, Day (t + msPerDay) = Day t + 1.
Proof.
  intro t. unfold Day, msPerDay. Z.div_mod_to_equations. lia.
Qed.

(** X4. The 'next scheduled auto-clockout' is always the closing time
    of the day after the given instant: the loop body runs at most once.
    Today's closing time is never returned, also when it is still
    ahead. *)
Theorem next_auto_clockout_is_tomorrows_closing_time :
  forall fuel tz fromDate,
    let c := AutoClockout.getAutoClockoutTime tz (fromDate + msPerDay) in
    Schedule.getNextAutoClockoutTime (S fuel) tz fromDate = Some c
    /\ Day (c + tz) = Day (fromDate + tz) + 1
    /\ fromDate < c
    /\ (getHours tz fromDate < (if getDay tz fromDate =? 0 then 18 else 20) ->
        fromDate < AutoClockout.getAutoClockoutTime tz fromDate < c).
Proof.
  intros fuel tz fromDate; cbv zeta.
  set (c := AutoClockout.getAutoClockoutTime tz (fromDate + msPerDay)).
  assert (Hday : Day (c + tz) = Day (fromDate + tz) + 1).
  { subst c. destruct (closing_time_facts tz (fromDate + msPerDay)) as (H & _).
    rewrite H. replace (fromDate + msPerDay + tz) with (fromDate + tz + msPerDay) by lia.
    apply day_plus_one. }
  assert (Hlt : forall t, Day (t + tz) < Day (c + tz) -> t < c).
  { intros t. unfold Day, msPerDay. intro H.
    Z.div_mod_to_equations. lia. }
  assert (Hfrom : fromDate < c) by (apply Hlt; lia).
  split; [|split; [exact Hday|split; [exact Hfrom|]]].
  - unfold Schedule.getNextAutoClockoutTime. cbv zeta.
    rewrite (setDate_plus_days tz fromDate 1).
    replace (fromDate + 1 * msPerDay) with (fromDate + msPerDay) by lia.
    assert (Hc : AutoClockout.getAutoClockoutTime tz
                   (setHours tz (fromDate + msPerDay) 0 0 0 0) = c).
    { subst c. apply closing_time_same_day.
      unfold setHours, MakeTime.
      destruct (day_of_local_time (Day (fromDate + msPerDay + tz)) 0) as [H _];
        [unfold msPerDay; lia|].
      replace (Day (fromDate + msPerDay + tz) * msPerDay
               + (0 * msPerHour + 0 * msPerMinute + 0 * msPerSecond + 0) - tz + tz)
        with (Day (fromDate + msPerDay + tz) * msPerDay + 0) by lia.
      exact H. }
    cbn [Schedule.nextBusinessDay]. rewrite Hc.
    destruct (negb (getDay tz (setHours tz (fromDate + msPerDay) 0 0 0 0) =? 0));
      [|reflexivity].
    replace (fromDate <? c) with true by (symmetry; apply Z.ltb_lt; exact Hfrom).
    reflexivity.
  - intro Hh. split.
    + destruct (Z.le_gt_cases (AutoClockout.getAutoClockoutTime tz fromDate) fromDate)
        as [Hle|Hgt]; [|lia].
      assert (Hs : AutoClockout.shouldAutoClockout tz fromDate = true)
        by (unfold AutoClockout.shouldAutoClockout; apply Z.leb_le; exact Hle).
      apply shouldAutoClockout_hours in Hs. lia.
    + apply Hlt. destruct (closing_time_facts tz fromDate) as (H & _).
      rewrite H. lia.
Qed.

(* ------------------------------------------------------------------ *)
(** * Runs of the bulk auto-clockout *)
(* ------------------------------------------------------------------ *)

Lemma withTransactionRetry_first_commit :
  forall R commit (fn : nat -> Database.Tx R) db r db' r',
    commit 0%nat = Database.Committed ->
    fn 0%nat db r = (inr db', r') ->
    Database.withTransactionRetry commit fn db r = (inr db', r').
Proof.
  intros R commit fn db r db' r' Hc H.
  unfold Database.withTransactionRetry, Database.withRetry.
  cbn [Database.maxRetries Database.DEFAULT_RETRY_OPTIONS Database.withRetryFrom].
  unfold Database.session_withTransaction. rewrite H, Hc. reflexivity.
Qed.

Lemma dryRun_entry : forall f att now t st x,
  let st' := AutoClockout.autoClockoutEntry f att now true t st x in
  fst st' = fst st
  /\ AutoClockout.clockedOutCount (snd st') = AutoClockout.clockedOutCount (snd st)
  /\ (Forall (fun c => AutoClockout.clockOutTime c = t
                       /\ AutoClockout.co_hoursWorked c
                          = hoursOf (AutoClockout.clockInTime c) t)
             (AutoClockout.clockedOutEmployees (snd st)) ->
      Forall (fun c => AutoClockout.clockOutTime c = t
                       /\ AutoClockout.co_hoursWorked c
                          = hoursOf (AutoClockout.clockInTime c) t)
             (AutoClockout.clockedOutEmployees (snd st'))).
Proof.
  intros f att now t [es r] [e emp]; cbv zeta.
  unfold AutoClockout.autoClockoutEntry.
  destruct emp as [emp|]; cbn [fst snd]; repeat split; auto.
  intro H. cbn [AutoClockout.pushEmployee AutoClockout.clockedOutEmployees].
  apply Forall_app; split; [exact H|].
  constructor; [|constructor]. split; reflexivity.
Qed.

Lemma dryRun_fold : forall f att now t l st,
  let st' := fold_left (AutoClockout.autoClockoutEntry f att now true t) l st in
  fst st' = fst st
  /\ AutoClockout.clockedOutCount (snd st') = AutoClockout.clockedOutCount (snd st)
  /\ (Forall (fun c => AutoClockout.clockOutTime c = t
                       /\ AutoClockout.co_hoursWorked c
                          = hoursOf (AutoClockout.clockInTime c) t)
             (AutoClockout.clockedOutEmployees (snd st)) ->
      Forall (fun c => AutoClockout.clockOutTime c = t
                       /\ AutoClockout.co_hoursWorked c
                          = hoursOf (AutoClockout.clockInTime c) t)
             (AutoClockout.clockedOutEmployees (snd st'))).
Proof.
  intros f att now t l; induction l as [|x l IH]; intro st; cbv zeta.
  - cbn [fold_left]. auto.
  - cbn [fold_left].
    destruct (dryRun_entry f att now t st x) as (H1 & H2 & H3).
    destruct (IH (AutoClockout.autoClockoutEntry f att now true t st x)) as (I1 & I2 & I3).
    split; [congruence|]. split; [congruence|]. auto.
Qed.

Lemma dryRun_tx : forall f att now t db r res r',
  AutoClockout.autoClockoutTx f now true t att db r = (res, r') ->
  res = inr db /\ (previewOk t r -> previewOk t r').
Proof.
  intros f att now t db r res r' H. unfold AutoClockout.autoClockoutTx in H.
  cbv zeta in H.
  pose proof (dryRun_fold f att now t
                (map (fun e => (e, Employee_findById (employeeId e) db))
                     (filter isActive (timeEntries db)))
                (timeEntries db, r)) as HF.
  cbv zeta in HF.
  destruct (fold_left _ _ _) as [es' r1]. cbn [fst snd] in HF.
  destruct HF as (H1 & H2 & H3). subst es'.
  rewrite withEntries_same in H.
  destruct (0 <? List.length (AutoClockout.errors r1))%nat;
    injection H as <- <-; (split; [reflexivity|]); intros [Hc Hp];
    split; cbn; auto; congruence.
Qed.

(** X5. A dry run writes nothing, whatever the faults and however often
    the transaction is retried: the collections are returned as they
    were, the count stays 0, and every previewed employee is shown with
    the closing time as clock-out and the hours from clock-in to it. *)
Theorem dry_run_writes_nothing :
  forall tz f now target db,
    let t := AutoClockout.getAutoClockoutTime tz target in
    let '(r, db') := AutoClockout.performAutoClockout tz f now target true db in
    db' = db
    /\ AutoClockout.clockedOutCount r = 0%nat
    /\ Forall (fun c => AutoClockout.clockOutTime c = t
                        /\ AutoClockout.co_hoursWorked c
                           = hoursOf (AutoClockout.clockInTime c) t)
              (AutoClockout.clockedOutEmployees r).
Proof.
  intros tz f now target db; cbv zeta.
  unfold AutoClockout.performAutoClockout.
  destruct (AutoClockout.connectDB_fails f) as [thrown|].
  - split; [reflexivity|]. split; [reflexivity|]. constructor.
  - cbv zeta.
    set (t := AutoClockout.getAutoClockoutTime tz target).
    destruct (Database.withTransactionRetry (AutoClockout.commit f)
                (AutoClockout.autoClockoutTx f now true t) db
                AutoClockout.emptyResult) as [[e|db'] r] eqn:E.
    + assert (Hinv : previewOk t r).
      { refine (withTransactionRetry_invariant _ (previewOk t) _ _ _ _ _ _ _ _ E).
        - intros a0 r0 res r1 H0 H1. apply dryRun_tx in H1. apply H1, H0.
        - split; [reflexivity|constructor]. }
      destruct Hinv as [Hc Hp]. split; [reflexivity|]. split; [exact Hc|exact Hp].
    + assert (Hinv : previewOk t r).
      { refine (withTransactionRetry_invariant _ (previewOk t) _ _ _ _ _ _ _ _ E).
        - intros a0 r0 res r1 H0 H1. apply dryRun_tx in H1. apply H1, H0.
        - split; [reflexivity|constructor]. }
      destruct Hinv as [Hc Hp].
      apply withTransactionRetry_inr in E. destruct E as (a0 & r0 & E).
      apply dryRun_tx in E. destruct E as [E _]. injection E as ->.
      split; [reflexivity|]. split; [exact Hc|exact Hp].
Qed.

(** ** A run without faults *)

Lemma applyUpdate_idempotent : forall now u e,
  applyUpdate now u (applyUpdate now u e) = applyUpdate now u e.
Proof.
  intros now u e. unfold applyUpdate, preUpdateHook, setOr. cbn.
  destruct u as [a b c d x g h i j k]; cbn.
  destruct a, b, c, d, x, g, h, i, j, k; reflexivity.
Qed.

Lemma findById_in_ids : forall id es,
  In id (map _id es) -> exists e, TimeEntry_findById id es = Some e.
Proof.
  intros id es; unfold TimeEntry_findById; induction es as [|a es IH]; cbn.
  - intros [].
  - intros [H|H].
    + subst id. rewrite Nat.eqb_refl. eauto.
    + destruct (Nat.eqb (_id a) id); eauto.
Qed.

Lemma updateById_map : forall now id u es,
  NoDup (map _id es) ->
  updateById now id u es
  = option_map
      (fun e => (applyUpdate now u e,
                 map (fun e' => if Nat.eqb (_id e') id then applyUpdate now u e' else e') es))
      (TimeEntry_findById id es).
Proof.
  intros now id u es; unfold TimeEntry_findById.
  induction es as [|a es IH]; intro Hnd; cbn [updateById find map option_map].
  - reflexivity.
  - inversion Hnd as [|x l Hnotin Hnd']; subst.
    destruct (Nat.eqb (_id a) id) eqn:E; cbn [option_map].
    + apply Nat.eqb_eq in E. f_equal. f_equal. f_equal.
      rewrite <- (map_id es) at 1. apply map_ext_in.
      intros e He. destruct (Nat.eqb (_id e) id) eqn:E'; [|reflexivity].
      apply Nat.eqb_eq in E'. exfalso. apply Hnotin.
      rewrite E, <- E'. apply in_map. exact He.
    + rewrite (IH Hnd'). destruct (find _ es); reflexivity.
Qed.

Lemma unique_by_id : forall (es : list TimeEntry) a b,
  NoDup (map _id es) -> In a es -> In b es -> _id a = _id b -> a = b.
Proof.
  induction es as [|x es IH]; intros a b Hnd Ha Hb Hid; [destruct Ha|].
  inversion Hnd as [|y l Hnotin Hnd']; subst.
  destruct Ha as [Ha|Ha], Hb as [Hb|Hb].
  - congruence.
  - subst x. exfalso. apply Hnotin. rewrite Hid. apply in_map. exact Hb.
  - subst x. exfalso. apply Hnotin. rewrite <- Hid. apply in_map. exact Ha.
  - eauto.
Qed.

Lemma closedIds_active : forall (es : list TimeEntry) e,
  NoDup (map _id es) -> In e es ->
  existsb (Nat.eqb (_id e)) (map _id (filter isActive es)) = isActive e.
Proof.
  intros es e Hnd He. destruct (isActive e) eqn:Ea.
  - apply existsb_exists. exists (_id e). split; [|apply Nat.eqb_refl].
    apply in_map. apply filter_In. auto.
  - destruct (existsb _ _) eqn:Ex; [|reflexivity].
    apply existsb_exists in Ex. destruct Ex as (i & Hi & Heq).
    apply Nat.eqb_eq in Heq. apply in_map_iff in Hi.
    destruct Hi as (x & Hx & Hin). apply filter_In in Hin. destruct Hin as [Hin Hact].
    assert (x = e) by (apply (unique_by_id es); auto; congruence).
    subst x. congruence.
Qed.

Lemma bulk_fold : forall now t l es r,
  NoDup (map _id es) ->
  (forall x, In x l -> In (_id (fst x)) (map _id es)) ->
  let st := fold_left (AutoClockout.autoClockoutEntry AutoClockout.noFaults 0%nat now false t)
                      l (es, r) in
  fst st = map (closeListed now t (map (fun x => _id (fst x)) l)) es
  /\ AutoClockout.clockedOutCount (snd st)
     = (AutoClockout.clockedOutCount r + List.length l)%nat
  /\ AutoClockout.errors (snd st)
     = AutoClockout.errors r
       ++ map (fun _ => AutoClockout.FailedToAutoClockout None NullEmployeeTypeError)
              (filter (fun x => negb (isSome (snd x))) l).
Proof.
  intros now t l; induction l as [|[e emp] l IH]; intros es r Hnd Hin; cbv zeta.
  - cbn [fold_left fst snd map filter List.length]. split; [|split].
    + unfold closeListed. cbn [existsb]. symmetry. apply map_id.
    + lia.
    + symmetry. apply app_nil_r.
  - cbn [fold_left].
    assert (Hstep :
      exists r1,
        AutoClockout.autoClockoutEntry AutoClockout.noFaults 0%nat now false t (es, r) (e, emp)
        = (map (fun e' => if Nat.eqb (_id e') (_id e)
                          then applyUpdate now (AutoClockout.autoClockoutUpdate t) e'
                          else e') es, r1)
        /\ AutoClockout.clockedOutCount r1 = S (AutoClockout.clockedOutCount r)
        /\ AutoClockout.errors r1
           = AutoClockout.errors r
             ++ (if negb (isSome emp)
                 then [AutoClockout.FailedToAutoClockout None NullEmployeeTypeError]
                 else [])).
    { unfold AutoClockout.autoClockoutEntry. cbn [AutoClockout.update_fails AutoClockout.noFaults].
      unfold findByIdAndUpdate. cbn [validUpdate AutoClockout.autoClockoutUpdate u_hoursWorked u_adminNotes andb].
      rewrite (updateById_map _ _ _ _ Hnd).
      destruct (findById_in_ids (_id e) es) as [e0 He0];
        [apply (Hin (e, emp)); left; reflexivity|].
      rewrite He0. cbn [option_map].
      destruct emp as [emp|]; eexists; (split; [reflexivity|]); split; cbn;
        try reflexivity.
      symmetry; apply app_nil_r. }
    destruct Hstep as (r1 & Hs & Hc1 & He1). rewrite Hs.
    set (es1 := map (fun e' => if Nat.eqb (_id e') (_id e)
                               then applyUpdate now (AutoClockout.autoClockoutUpdate t) e'
                               else e') es) in *.
    assert (Hids : map _id es1 = map _id es).
    { subst es1. rewrite map_map. apply map_ext. intro a.
      destruct (Nat.eqb (_id a) (_id e)); [apply applyUpdate_id|reflexivity]. }
    destruct (IH es1 r1) as (I1 & I2 & I3).
    { rewrite Hids. exact Hnd. }
    { intros x Hx. rewrite Hids. apply Hin. right. exact Hx. }
    cbv zeta in I1, I2, I3. split; [|split].
    + rewrite I1. subst es1. rewrite map_map. apply map_ext. intro a.
      unfold closeListed. cbn [map existsb fst].
      destruct (Nat.eqb (_id a) (_id e)) eqn:E.
      * rewrite applyUpdate_id, applyUpdate_idempotent. cbn [orb].
        destruct (existsb _ _); reflexivity.
      * reflexivity.
    + rewrite I2, Hc1. cbn [List.length]. lia.
    + rewrite I3, He1. cbn [filter snd]. rewrite <- app_assoc. f_equal.
      destruct (negb (isSome emp)); reflexivity.
Qed.

Lemma bulk_run_fault_free : forall tz now target db r db',
  NoDup (map _id (timeEntries db)) ->
  AutoClockout.performAutoClockout tz AutoClockout.noFaults now target false db = (r, db') ->
  timeEntries db'
  = map (fun e => if isActive e
                  then applyUpdate now
                         (AutoClockout.autoClockoutUpdate
                            (AutoClockout.getAutoClockoutTime tz target)) e
                  else e)
        (timeEntries db)
  /\ employees db' = employees db
  /\ AutoClockout.clockedOutCount r = List.length (filter isActive (timeEntries db))
  /\ AutoClockout.errors r
     = map (fun _ => AutoClockout.FailedToAutoClockout None NullEmployeeTypeError)
           (filter (fun e => negb (isSome (Employee_findById (employeeId e) db)))
                   (filter isActive (timeEntries db)))
  /\ AutoClockout.success r = negb (0 <? List.length (AutoClockout.errors r))%nat.
Proof.
  intros tz now target db r db' Hnd H.
  unfold AutoClockout.performAutoClockout in H.
  cbn [AutoClockout.connectDB_fails AutoClockout.noFaults AutoClockout.commit] in H.
  cbv zeta in H.
  set (t := AutoClockout.getAutoClockoutTime tz target) in *.
  set (l := map (fun e => (e, Employee_findById (employeeId e) db))
                (filter isActive (timeEntries db))).
  pose proof (bulk_fold now t l (timeEntries db) AutoClockout.emptyResult Hnd) as HF.
  assert (Hl : forall x, In x l -> In (_id (fst x)) (map _id (timeEntries db))).
  { intros x Hx. subst l. apply in_map_iff in Hx. destruct Hx as (e & <- & He).
    apply filter_In in He. apply in_map. apply He. }
  specialize (HF Hl). cbv zeta in HF.
  assert (Htx : exists r1,
    AutoClockout.autoClockoutTx AutoClockout.noFaults now false t 0%nat db AutoClockout.emptyResult
    = (inr (withEntries db
              (map (closeListed now t (map (fun x => _id (fst x)) l)) (timeEntries db))),
       r1)
    /\ AutoClockout.clockedOutCount r1 = List.length l
    /\ AutoClockout.errors r1
       = map (fun _ => AutoClockout.FailedToAutoClockout None NullEmployeeTypeError)
             (filter (fun x => negb (isSome (snd x))) l)
    /\ AutoClockout.success r1 = negb (0 <? List.length (AutoClockout.errors r1))%nat).
  { pose proof (autoClockout_fold_result AutoClockout.noFaults 0%nat now false t l
                  (timeEntries db) AutoClockout.emptyResult) as [Hs _].
    unfold AutoClockout.autoClockoutTx. cbv zeta. fold l.
    destruct (fold_left _ l _) as [es' r0]. cbn [fst snd] in HF, Hs.
    destruct HF as (F1 & F2 & F3). subst es'.
    cbn [AutoClockout.emptyResult AutoClockout.clockedOutCount AutoClockout.errors
         AutoClockout.success app Nat.add] in F2, F3, Hs.
    destruct (0 <? List.length (AutoClockout.errors r0))%nat eqn:E; eexists;
      (split; [reflexivity|]); cbn [AutoClockout.setFailed AutoClockout.clockedOutCount
                                     AutoClockout.errors AutoClockout.success];
      rewrite ?E; repeat split; auto. }
  destruct Htx as (r1 & Htx & Hc & He & Hs).
  rewrite (withTransactionRetry_first_commit _ _ _ _ _ _ _ eq_refl Htx) in H.
  injection H as <- <-.
  cbn [withEntries timeEntries employees].
  split; [|split; [reflexivity|split; [|split; [|exact Hs]]]].
  - assert (Hids : map (fun x => _id (fst x)) l
                   = map _id (filter isActive (timeEntries db)))
      by (subst l; rewrite map_map; reflexivity).
    rewrite Hids. apply map_ext_in. intros e He'. unfold closeListed.
    rewrite (closedIds_active _ _ Hnd He'). reflexivity.
  - rewrite Hc. subst l. apply length_map.
  - rewrite He. subst l. clear.
    induction (filter isActive (timeEntries db)) as [|a k IH]; [reflexivity|].
    cbn [map filter snd].
    destruct (negb (isSome (Employee_findById (employeeId a) db)));
      cbn [map]; rewrite IH; reflexivity.
Qed.

Lemma bulk_run_nothing_open : forall tz now target db,
  filter isActive (timeEntries db) = [] ->
  AutoClockout.performAutoClockout tz AutoClockout.noFaults now target false db
  = (AutoClockout.emptyResult, db).
Proof.
  intros tz now target db H. unfold AutoClockout.performAutoClockout.
  cbn [AutoClockout.connectDB_fails AutoClockout.noFaults AutoClockout.commit].
  cbv zeta.
  erewrite withTransactionRetry_first_commit; [reflexivity|reflexivity|].
  unfold AutoClockout.autoClockoutTx. rewrite H. cbn.
  rewrite withEntries_same. reflexivity.
Qed.

Lemma applyUpdate_autoClockout_closed : forall now t e,
  isActive (applyUpdate now (AutoClockout.autoClockoutUpdate t) e) = false.
Proof. reflexivity. Qed.

(** X6. Without faults, and with entry ids unique as the database keeps
    them, a bulk run closes every open entry at the closing time of the
    target day and leaves every other entry and the employees alone; its
    count is the number of entries that were open; afterwards nothing is
    open, so a further run finds nothing to do. *)
Theorem bulk_run_closes_every_open_entry :
  forall tz now target db r db',
    NoDup (map _id (timeEntries db)) ->
    AutoClockout.performAutoClockout tz AutoClockout.noFaults now target false db
    = (r, db') ->
    Forall2 (fun e e' =>
               if isActive e
               then clockOut e' = Some (AutoClockout.getAutoClockoutTime tz target)
                    /\ needsReview e' = true /\ isAutoClockOut e' = true
                    /\ _id e' = _id e /\ employeeId e' = employeeId e
                    /\ clockIn e' = clockIn e
               else e' = e)
            (timeEntries db) (timeEntries db')
    /\ employees db' = employees db
    /\ AutoClockout.clockedOutCount r = List.length (filter isActive (timeEntries db))
    /\ (forall e', In e' (timeEntries db') -> isActive e' = false)
    /\ (forall now' target',
          AutoClockout.performAutoClockout tz AutoClockout.noFaults now' target' false db'
          = (AutoClockout.emptyResult, db')).
Proof.
  intros tz now target db r db' Hnd H.
  destruct (bulk_run_fault_free _ _ _ _ _ _ Hnd H) as (He & Hemp & Hc & _).
  assert (Hclosed : forall e', In e' (timeEntries db') -> isActive e' = false).
  { intros e' Hin. rewrite He in Hin. apply in_map_iff in Hin.
    destruct Hin as (e & <- & _). destruct (isActive e) eqn:E; [reflexivity|exact E]. }
  split; [|split; [exact Hemp|split; [exact Hc|split; [exact Hclosed|]]]].
  - rewrite He. clear. induction (timeEntries db) as [|e es IH]; constructor; [|exact IH].
    destruct (isActive e); [|reflexivity]. repeat split; reflexivity.
  - intros now' target'. apply bulk_run_nothing_open.
    clear - Hclosed. induction (timeEntries db') as [|e es IH]; [reflexivity|].
    cbn [filter]. rewrite (Hclosed e (or_introl eq_refl)).
    apply IH. intros e' Hin. apply Hclosed. right. exact Hin.
Qed.

(** X7. An open entry whose employee no longer exists is closed and
    counted like any other, yet the run reports failure: the employee
    reference populates to null and reading it throws after the update. *)
Theorem bulk_run_fails_on_entry_of_missing_employee :
  forall tz now target db e r db',
    NoDup (map _id (timeEntries db)) ->
    In e (timeEntries db) ->
    isActive e = true ->
    Employee_findById (employeeId e) db = None ->
    AutoClockout.performAutoClockout tz AutoClockout.noFaults now target false db
    = (r, db') ->
    AutoClockout.success r = false
    /\ In (AutoClockout.FailedToAutoClockout None NullEmployeeTypeError)
          (AutoClockout.errors r)
    /\ AutoClockout.clockedOutCount r = List.length (filter isActive (timeEntries db))
    /\ In (applyUpdate now
             (AutoClockout.autoClockoutUpdate (AutoClockout.getAutoClockoutTime tz target)) e)
          (timeEntries db').
Proof.
  intros tz now target db e r db' Hnd Hin Hact Hemp H.
  destruct (bulk_run_fault_free _ _ _ _ _ _ Hnd H) as (He & _ & Hc & Herr & Hs).
  assert (Hne : In (AutoClockout.FailedToAutoClockout None NullEmployeeTypeError)
                   (AutoClockout.errors r)).
  { rewrite Herr. apply in_map_iff. exists e. split; [reflexivity|].
    apply filter_In. split; [apply filter_In; auto|]. rewrite Hemp. reflexivity. }
  split; [|split; [exact Hne|split; [exact Hc|]]].
  - rewrite Hs. destruct (AutoClockout.errors r); [destruct Hne|reflexivity].
  - rewrite He. apply in_map_iff. exists e. rewrite Hact. auto.
Qed.

Ltac distinct_ids :=
  vm_compute;
  repeat (constructor; [cbn; intuition discriminate|]); constructor.

Lemma bulk_run_closes_every_open_entry_witness :
  let out := AutoClockout.performAutoClockout 0 AutoClockout.noFaults (Examples.at_ 1 21)
               (Examples.at_ 1 21) false Scenarios.twoOpen in
  AutoClockout.clockedOutCount (fst out)
  = List.length (filter isActive (timeEntries Scenarios.twoOpen))
  /\ (forall e', In e' (timeEntries (snd out)) -> isActive e' = false).
Proof.
  cbv zeta.
  assert (Hnd : NoDup (map _id (timeEntries Scenarios.twoOpen))) by distinct_ids.
  destruct (bulk_run_closes_every_open_entry 0 (Examples.at_ 1 21) (Examples.at_ 1 21)
              Scenarios.twoOpen _ _ Hnd (surjective_pairing _)) as (_ & _ & H3 & H4 & _).
  split; [exact H3|exact H4].
Defined.

Lemma bulk_run_fails_on_entry_of_missing_employee_witness :
  let out := AutoClockout.performAutoClockout 0 AutoClockout.noFaults (Examples.at_ 1 21)
               (Examples.at_ 1 21) false Scenarios.carlRemoved in
  AutoClockout.success (fst out) = false
  /\ AutoClockout.clockedOutCount (fst out) = 2%nat.
Proof.
  cbv zeta.
  assert (Hnd : NoDup (map _id (timeEntries Scenarios.carlRemoved))) by distinct_ids.
  destruct (bulk_run_fails_on_entry_of_missing_employee 0 (Examples.at_ 1 21)
              (Examples.at_ 1 21) Scenarios.carlRemoved
              (newTimeEntry 11%nat 3%nat (Examples.at_ 1 10)) _ _ Hnd
              (or_intror (or_introl eq_refl)) eq_refl eq_refl (surjective_pairing _))
    as (H1 & _ & H3 & _).
  split; [exact H1|exact H3].
Defined.

(* ------------------------------------------------------------------ *)
(** * The retry loop *)
(* ------------------------------------------------------------------ *)

Lemma withRetryFrom_attempts : forall outcome db left attempt log res log',
  Database.withRetryFrom left attempt (recordAttempts outcome) db log = (res, log') ->
  exists k,
    (k <= left)%nat
    /\ log' = log ++ seq attempt (S k)
    /\ (forall j, (j < k)%nat ->
          exists e, outcome (attempt + j)%nat = inl e
                    /\ Database.isTransientError e = inr true)
    /\ stopsWith (Nat.eqb k left) (outcome (attempt + k)%nat) res.
Proof.
  intros outcome db left; induction left as [|left IH]; intros attempt log res log' H;
    cbn [Database.withRetryFrom] in H; unfold recordAttempts in H at 1.
  - exists 0%nat. rewrite Nat.add_0_r. unfold stopsWith.
    destruct (outcome attempt) as [e|d] eqn:E; injection H as <- <-;
      (split; [lia|]); (split; [reflexivity|]); (split; [intros; lia|]); reflexivity.
  - destruct (outcome attempt) as [e|d] eqn:E.
    + destruct (Database.isTransientError e) as [thrown|[|]] eqn:Et.
      * injection H as <- <-. exists 0%nat. rewrite Nat.add_0_r.
        split; [lia|]. split; [reflexivity|]. split; [intros; lia|].
        unfold stopsWith. rewrite E. cbn [Nat.eqb]. rewrite Et. reflexivity.
      * apply IH in H. destruct H as (k & Hk & Hlog & Hbefore & Hstop).
        exists (S k). split; [lia|]. split.
        { rewrite Hlog, <- app_assoc. reflexivity. }
        split.
        { intros j Hj. destruct j as [|j].
          - rewrite Nat.add_0_r. eauto.
          - destruct (Hbefore j) as (e' & He' & Ht'); [lia|].
            exists e'. split; [|exact Ht'].
            rewrite <- He'. f_equal. lia. }
        { cbn [Nat.eqb]. replace (attempt + S k)%nat with (S attempt + k)%nat by lia.
          exact Hstop. }
      * injection H as <- <-. exists 0%nat. rewrite Nat.add_0_r.
        split; [lia|]. split; [reflexivity|]. split; [intros; lia|].
        unfold stopsWith. rewrite E. cbn [Nat.eqb]. rewrite Et. auto.
    + injection H as <- <-. exists 0%nat. rewrite Nat.add_0_r.
      split; [lia|]. split; [reflexivity|]. split; [intros; lia|].
      unfold stopsWith. rewrite E. reflexivity.
Qed.

(** X8. The retry loop numbers its attempts 0, 1, 2, ...; it goes on
    exactly as long as the attempts fail with an error that
    [isTransientError] accepts, and makes at most [maxRetries + 1] of
    them.  It ends with the outcome of the last attempt made, unless the
    classifier itself throws: an error with a numeric code other than 0
    makes [error.code.includes] throw inside the [catch] block, and the
    loop ends with that [TypeError].  So a write conflict, which the
    server reports with code 112 and the label that asks for a retry, is
    not retried, while a closed connection, which has no code, is. *)
Theorem retry_loop_attempts :
  (forall (outcome : nat -> Exc DB) opts db,
     let '(res, log) := Database.withRetry (recordAttempts outcome) opts db [] in
     exists k,
       (k <= Database.maxRetries opts)%nat
       /\ log = seq 0 (S k)
       /\ (forall j, (j < k)%nat ->
             exists e, outcome j = inl e /\ Database.isTransientError e = inr true)
       /\ stopsWith (Nat.eqb k (Database.maxRetries opts)) (outcome k) res)
  /\ (forall e n,
        errorCode e = Some (CodeNumber n) -> n <> 0 ->
        Database.isTransientError e = inl CodeIncludesTypeError)
  /\ (forall db,
        Database.withRetry (recordAttempts (fun _ => inl writeConflict))
          Database.DEFAULT_RETRY_OPTIONS db []
        = (inl CodeIncludesTypeError, [0%nat]))
  /\ (forall db db',
        Database.withRetry
          (recordAttempts (fun attempt => if Nat.eqb attempt 0 then inl connectionClosed
                                          else inr db'))
          Database.DEFAULT_RETRY_OPTIONS db []
        = (inr db', [0%nat; 1%nat])).
Proof.
  split; [|split; [|split]].
  - intros outcome opts db. unfold Database.withRetry.
    destruct (Database.withRetryFrom _ _ _ _ _) as [res log] eqn:E.
    apply withRetryFrom_attempts in E. exact E.
  - intros e n He Hn. unfold Database.isTransientError, Database.codeIsTransient.
    rewrite He. replace (n =? 0) with false by (symmetry; apply Z.eqb_neq; exact Hn).
    reflexivity.
  - intro db. reflexivity.
  - intros db db'. reflexivity.
Qed.

(** ** A retried transaction runs its callback again on the same result object *)



















(* ------------------------------------------------------------------ *)
(** * What the routes write, update by update *)
(* ------------------------------------------------------------------ *)

Lemma updateDataFor_shape : forall now admin body te u,
  CorrectRoute.updateDataFor now admin body te = inr u ->
  u = correctionUpdate now admin body te
  /\ match CorrectRoute.b_clockOut body with
     | Some c => clockIn te < c <= now
     | None => CorrectRoute.markAsCorrect body = true
     end.
Proof.
  intros now admin body te u H. unfold CorrectRoute.updateDataFor in H. cbv zeta in H.
  unfold correctionUpdate.
  destruct (CorrectRoute.b_clockOut body) as [c|] eqn:Ec.
  - rewrite andb_false_r in H. unfold assertExc in H.
    destruct (c <=? clockIn te) eqn:E1; cbn [negb bindExc] in H; [discriminate|].
    destruct (now <? c) eqn:E2; cbn [negb bindExc] in H; [discriminate|].
    apply Z.leb_gt in E1. apply Z.ltb_ge in E2. split; [|lia].
    cbn [isSome andb].
    destruct (negb (isSome (originalClockOut te)) && isAutoClockOut te);
      injection H as <-; reflexivity.
  - destruct (CorrectRoute.markAsCorrect body); cbn [negb isSome andb] in H;
      [|discriminate].
    injection H as <-. split; reflexivity.
Qed.

Lemma PUT_inversion : forall now id body db e db',
  CorrectRoute.PUT now id body db = (inr e, db') ->
  exists admin te es',
    CorrectRoute.adminEmployeeId body = Some admin
    /\ isAdminId admin db = true
    /\ TimeEntry_findById id (timeEntries db) = Some te
    /\ isSome (clockOut te) = true
    /\ CorrectRoute.updateDataFor now admin body te
       = inr (correctionUpdate now admin body te)
    /\ validUpdate (correctionUpdate now admin body te) = true
    /\ updateById now id (correctionUpdate now admin body te) (timeEntries db)
       = Some (e, es')
    /\ e = applyUpdate now (correctionUpdate now admin body te) te
    /\ db' = withEntries db es'.
Proof.
  intros now id body db e db' H; unfold CorrectRoute.PUT in H.
  destruct (CorrectRoute.adminEmployeeId body) as [admin|]; [|discriminate].
  destruct (inTransaction_cases _ (CorrectRoute.correctBody now id admin body) db)
    as [(e0 & Hb & Hr)|(a & db0 & Hb & Hr)]; rewrite Hr in H; [discriminate|].
  injection H as <- <-. clear Hr.
  unfold CorrectRoute.correctBody in Hb. unfold assertExc in Hb.
  destruct (isAdminId admin db) eqn:Ea; cbn [bindExc] in Hb; [|discriminate].
  destruct (TimeEntry_findById id (timeEntries db)) as [te|] eqn:Ef;
    cbn [orThrow bindExc] in Hb; [|discriminate].
  destruct (isSome (clockOut te)) eqn:Ec; cbn [bindExc] in Hb; [|discriminate].
  destruct (CorrectRoute.updateDataFor now admin body te) as [?|u] eqn:Eu;
    cbn [bindExc] in Hb; [discriminate|].
  destruct (updateDataFor_shape _ _ _ _ _ Eu) as [-> _].
  unfold findByIdAndUpdate in Hb.
  destruct (validUpdate (correctionUpdate now admin body te)) eqn:Ev;
    cbn [bindExc] in Hb; [|discriminate].
  destruct (updateById now id _ (timeEntries db)) as [[e1 es1]|] eqn:E;
    cbn [orThrow bindExc] in Hb; [|discriminate].
  injection Hb as <- <-.
  destruct (updateById_found _ _ _ _ _ _ E) as (te' & H1 & H2 & _).
  rewrite Ef in H1. injection H1 as <-.
  exists admin, te, es1. repeat split; auto.
Qed.

Lemma batch_inversion : forall now body db n db',
  NeedsReviewRoute.POST now body db = (inr n, db') ->
  exists admin newClockOut,
    NeedsReviewRoute.adminEmployeeId body = Some admin
    /\ isAdminId admin db = true
    /\ NeedsReviewRoute.entryIds body <> []
    /\ ((NeedsReviewRoute.action body = "mark-correct"%string /\ newClockOut = None)
        \/ (NeedsReviewRoute.action body = "batch-correct"%string
            /\ exists c, NeedsReviewRoute.clockOutTime body = Some c
                         /\ newClockOut = Some c /\ c <= now))
    /\ validUpdate (batchUpdate now admin (NeedsReviewRoute.b_adminNotes body) newClockOut)
       = true
    /\ (timeEntries db', n)
       = updateMany now (batchFilter (NeedsReviewRoute.entryIds body) newClockOut)
           (batchUpdate now admin (NeedsReviewRoute.b_adminNotes body) newClockOut)
           (timeEntries db)
    /\ employees db' = employees db.
Proof.
  intros now body db n db' H; unfold NeedsReviewRoute.POST in H.
  destruct (NeedsReviewRoute.adminEmployeeId body) as [admin|]; [|discriminate].
  destruct (NeedsReviewRoute.entryIds body) as [|i ids] eqn:Eids; [discriminate|].
  cbn [List.length Nat.eqb] in H.
  destruct (isAdminId admin db) eqn:Eadm; cbn [negb] in H; [|discriminate].
  destruct (inTransaction_cases _ (NeedsReviewRoute.batchBody now admin body) db)
    as [(e0 & Hb & Hr)|(a & db0 & Hb & Hr)]; rewrite Hr in H; [discriminate|].
  injection H as <- <-. clear Hr.
  unfold NeedsReviewRoute.batchBody in Hb. cbv zeta in Hb. unfold assertExc in Hb.
  rewrite Eids in Hb.
  destruct (String.eqb (NeedsReviewRoute.action body) "mark-correct") eqn:Ea.
  - apply String.eqb_eq in Ea. exists admin, None.
    change (CorrectRoute.withAdminCorrected
              (NeedsReviewRoute.baseUpdate now admin (NeedsReviewRoute.b_adminNotes body)))
      with (batchUpdate now admin (NeedsReviewRoute.b_adminNotes body) None) in Hb.
    destruct (validUpdate _) eqn:Ev; cbn [bindExc] in Hb; [|discriminate].
    unfold updateMany in Hb. injection Hb as <- <-.
    repeat split; auto; discriminate.
  - destruct (String.eqb (NeedsReviewRoute.action body) "batch-correct") eqn:Eb;
      [|discriminate].
    apply String.eqb_eq in Eb.
    destruct (NeedsReviewRoute.clockOutTime body) as [c|]; [|discriminate].
    destruct (now <? c) eqn:Ef; cbn [negb bindExc] in Hb; [discriminate|].
    apply Z.ltb_ge in Ef. exists admin, (Some c).
    change (CorrectRoute.withAdminCorrected
              (CorrectRoute.withClockOut c
                 (NeedsReviewRoute.baseUpdate now admin (NeedsReviewRoute.b_adminNotes body))))
      with (batchUpdate now admin (NeedsReviewRoute.b_adminNotes body) (Some c)) in Hb.
    destruct (validUpdate _) eqn:Ev; cbn [bindExc] in Hb; [|discriminate].
    unfold updateMany in Hb. injection Hb as <- <-.
    repeat split; auto; try discriminate.
    right. split; [exact Eb|]. exists c. auto.
Qed.

Lemma clockOut_inversion : forall now newId emp action db e db',
  TimeEntriesRoute.POST now newId emp action db = (inr e, db') ->
  (action = "clockIn"%string
   /\ Employee_findById emp db <> None
   /\ findActiveEntry emp (timeEntries db) = None
   /\ e = newTimeEntry newId emp now
   /\ db' = withEntries db (timeEntries db ++ [e]))
  \/ (action = "clockOut"%string
      /\ Employee_findById emp db <> None
      /\ exists a es',
           findActiveEntry emp (timeEntries db) = Some a
           /\ Qle_bool 0 (hoursOf (clockIn a) now) = true
           /\ updateById now (_id a) (clockOutUpdate now (hoursOf (clockIn a) now))
                (timeEntries db) = Some (e, es')
           /\ db' = withEntries db es').
Proof.
  intros now newId emp action db e db' H; unfold TimeEntriesRoute.POST in H.
  destruct (String.eqb action ""); [discriminate|].
  match type of H with
  | context [inTransaction ?b db] => destruct (inTransaction_cases _ b db)
      as [(e0 & Hb & Hr)|(a & db0 & Hb & Hr)]
  end; rewrite Hr in H; [discriminate|].
  injection H as <- <-. clear Hr.
  destruct (Employee_findById emp db) eqn:Eemp; [|discriminate].
  cbn [orThrow bindExc] in Hb.
  destruct (String.eqb action "clockIn") eqn:Ein.
  - apply String.eqb_eq in Ein. left.
    unfold TimeEntriesRoute.clockInBody in Hb.
    destruct (findActiveEntry emp (timeEntries db)) eqn:E; [discriminate|].
    injection Hb as <- <-. repeat split; auto. discriminate.
  - destruct (String.eqb action "clockOut") eqn:Eout; [|discriminate].
    apply String.eqb_eq in Eout. right.
    unfold TimeEntriesRoute.clockOutBody in Hb.
    destruct (findActiveEntry emp (timeEntries db)) as [ae|] eqn:E; [|discriminate].
    cbn [orThrow bindExc] in Hb. cbv zeta in Hb.
    fold (clockOutUpdate now (hoursOf (clockIn ae) now)) in Hb.
    unfold findByIdAndUpdate in Hb.
    destruct (validUpdate _) eqn:Ev; cbn [bindExc] in Hb; [|discriminate].
    destruct (updateById now (_id ae) _ (timeEntries db)) as [[e1 es1]|] eqn:Eu;
      cbn [orThrow bindExc] in Hb; [|discriminate].
    injection Hb as <- <-.
    split; [exact Eout|]. split; [discriminate|].
    exists ae, es1. repeat split; auto.
    unfold validUpdate in Ev. cbn in Ev. rewrite andb_true_r in Ev. exact Ev.
Qed.

(* ------------------------------------------------------------------ *)
(** * Invariants of the stored entries *)
(* ------------------------------------------------------------------ *)

Lemma Forall2_Forall : forall (wf : TimeEntry -> Prop) es es',
  Forall2 (fun e e' => wf e -> wf e') es es' -> Forall wf es -> Forall wf es'.
Proof.
  intros wf es es' H; induction H as [|e e' es es' He _ IH]; intro Hwf.
  - constructor.
  - inversion Hwf; subst. constructor; auto.
Qed.

Section EntryInvariant.

Variable wf : TimeEntry -> Prop.

Hypothesis wf_new : forall id emp now, wf (newTimeEntry id emp now).
Hypothesis wf_clockOut : forall now h e,
  wf e -> Qle_bool 0 h = true -> wf (applyUpdate now (clockOutUpdate now h) e).
Hypothesis wf_auto : forall now t e,
  wf e -> wf (applyUpdate now (AutoClockout.autoClockoutUpdate t) e).
Hypothesis wf_selective : forall now t admin e,
  wf e -> wf (applyUpdate now (AutoClockout.selectiveUpdate now t admin) e).
Hypothesis wf_correct : forall now admin body te,
  wf te -> isSome (clockOut te) = true ->
  validUpdate (correctionUpdate now admin body te) = true ->
  wf (applyUpdate now (correctionUpdate now admin body te) te).
Hypothesis wf_batch : forall now admin notes newClockOut e,
  wf e -> isSome (clockOut e) = true ->
  validUpdate (batchUpdate now admin notes newClockOut) = true ->
  wf (applyUpdate now (batchUpdate now admin notes newClockOut) e).

Let step (e e' : TimeEntry) : Prop := wf e -> wf e'.

Lemma step_refl : forall e, step e e.
Proof. intros e H; exact H. Qed.

Lemma step_trans : forall a b c, step a b -> step b c -> step a c.
Proof. intros a b c H1 H2 H; auto. Qed.

Lemma handle_wf : forall now req db,
  Forall wf (timeEntries db) -> Forall wf (timeEntries (handle now req db)).
Proof.
  intros now req db Hwf;
    destruct req as [newId emp action|tz f target dryRun|f selected admin|tz f|tz f
                    |id body|body|emps]; cbn [handle].
  - destruct (TimeEntriesRoute.POST now newId emp action db) as [[err|e] db'] eqn:E.
    + unfold TimeEntriesRoute.POST in E.
      destruct (String.eqb action ""); [injection E as _ <-; exact Hwf|].
      apply inTransaction_inl in E. subst db'. exact Hwf.
    + apply clockOut_inversion in E.
      destruct E as [(_ & _ & _ & -> & ->)|(_ & _ & a & es' & _ & Hh & Hu & ->)];
        cbn [snd withEntries timeEntries].
      * apply Forall_app. split; [exact Hwf|]. constructor; [apply wf_new|constructor].
      * refine (Forall2_Forall wf _ _ _ Hwf).
        apply (updateById_pointwise step step_refl _ _ _ _ _ _
                 (fun e0 _ H0 => wf_clockOut _ _ _ H0 Hh) Hu).
  - refine (Forall2_Forall wf _ _ _ Hwf).
    apply (performAutoClockout_pointwise step step_refl step_trans).
    intros t e H. apply wf_auto, H.
  - refine (Forall2_Forall wf _ _ _ Hwf).
    apply (performSelective_pointwise step step_refl step_trans).
    intros t e H. apply wf_selective, H.
  - unfold AutoClockout.checkAndPerformAutoClockout.
    destruct (negb (AutoClockout.shouldAutoClockout tz now)); [exact Hwf|].
    refine (Forall2_Forall wf _ _ _ Hwf).
    apply (performAutoClockout_pointwise step step_refl step_trans).
    intros t e H. apply wf_auto, H.
  - refine (Forall2_Forall wf _ _ _ Hwf).
    apply (performAutoClockout_pointwise step step_refl step_trans).
    intros t e H. apply wf_auto, H.
  - destruct (CorrectRoute.PUT now id body db) as [[err|e] db'] eqn:E.
    + apply PUT_failure in E. subst db'. exact Hwf.
    + apply PUT_inversion in E.
      destruct E as (admin & te & es' & _ & _ & Hf & Hc & _ & Hv & Hu & _ & ->).
      cbn [snd withEntries timeEntries].
      refine (Forall2_Forall wf _ _ _ Hwf).
      apply (updateById_pointwise step step_refl _ _ _ _ _ _) with (2 := Hu).
      intros e0 He0 H0. rewrite Hf in He0. injection He0 as <-.
      apply wf_correct; assumption.
  - destruct (NeedsReviewRoute.POST now body db) as [[err|n] db'] eqn:E.
    + apply batch_failure in E. subst db'. exact Hwf.
    + apply batch_inversion in E.
      destruct E as (admin & c & _ & _ & _ & _ & Hv & Hu & _).
      cbn [snd].
      replace (timeEntries db')
        with (fst (updateMany now (batchFilter (NeedsReviewRoute.entryIds body) c)
                     (batchUpdate now admin (NeedsReviewRoute.b_adminNotes body) c)
                     (timeEntries db))) by (rewrite <- Hu; reflexivity).
      refine (Forall2_Forall wf _ _ _ Hwf).
      apply (updateMany_pointwise step step_refl).
      intros e Hp H0. apply wf_batch; auto.
      unfold batchFilter in Hp. destruct c.
      * apply andb_prop in Hp. destruct Hp as [Hp _].
        apply andb_prop in Hp. apply Hp.
      * apply andb_prop in Hp. apply Hp.
  - exact Hwf.
Qed.

Lemma reachable_wf : forall db, reachable db -> Forall wf (timeEntries db).
Proof.
  intros db H; induction H as [emps|db now req _ IH].
  - constructor.
  - apply handle_wf, IH.
Qed.

End EntryInvariant.

Lemma orNull_Some : forall notes s, orNull notes = Some s -> s <> ""%string.
Proof.
  intros [n|] s H; [|discriminate]. unfold orNull in H.
  destruct (String.eqb n "") eqn:E; [discriminate|].
  injection H as <-. apply String.eqb_neq. exact E.
Qed.

Ltac wf_intro :=
  intros (Hopen & Hrev & Hauto & Horig & Hby & Hat & Hnotes & Hhours).

Ltac wf_solve :=
  repeat split; intros; repeat split;
  try discriminate; try congruence; try tauto;
  try (match goal with
       | Hn : forall s, adminNotes _ = Some s -> _, H : adminNotes _ = Some _ |- _ =>
           destruct (Hn _ H) as (? & ? & ?)
       end; tauto);
  try (match goal with
       | Hh : forall h, hoursWorked _ = Some h -> _, H : hoursWorked _ = Some _ |- _ =>
           exact (Hh _ H)
       end).

Lemma wellFormed_new : forall id emp now, wellFormed (newTimeEntry id emp now).
Proof. intros id emp now. unfold wellFormed. cbn. wf_solve. Qed.

Lemma wellFormed_clockOut : forall now h e,
  wellFormed e -> Qle_bool 0 h = true ->
  wellFormed (applyUpdate now (clockOutUpdate now h) e).
Proof.
  intros now h e. wf_intro. intro Hh. unfold wellFormed. cbn. wf_solve.
  match goal with H : Some _ = Some _ |- _ => injection H as <- end.
  apply Qle_bool_iff. exact Hh.
Qed.

Lemma wellFormed_auto : forall now t e,
  wellFormed e -> wellFormed (applyUpdate now (AutoClockout.autoClockoutUpdate t) e).
Proof. intros now t e. wf_intro. unfold wellFormed. cbn. wf_solve. Qed.

Lemma wellFormed_selective : forall now t admin e,
  wellFormed e -> wellFormed (applyUpdate now (AutoClockout.selectiveUpdate now t admin) e).
Proof. intros now t admin e. wf_intro. unfold wellFormed. cbn. wf_solve. Qed.

Lemma wellFormed_correct : forall now admin body te,
  wellFormed te -> isSome (clockOut te) = true ->
  validUpdate (correctionUpdate now admin body te) = true ->
  wellFormed (applyUpdate now (correctionUpdate now admin body te) te).
Proof.
  intros now admin body te. wf_intro. intros Hclosed Hv. unfold wellFormed.
  unfold validUpdate in Hv. cbn in Hv.
  split.
  { intro H. exfalso. unfold isActive in H. cbn in H.
    destruct (CorrectRoute.b_clockOut body); [discriminate|].
    rewrite Hclosed in H. discriminate. }
  cbn.
  assert (Ho' : forall c, originalClockOut te = Some c -> isAutoClockOut te = true).
  { intros c Hc. apply Horig. rewrite Hc. discriminate. }
  destruct (isSome (CorrectRoute.b_clockOut body)
            && negb (isSome (originalClockOut te)) && isAutoClockOut te) eqn:E.
  - assert (Hi : isAutoClockOut te = true) by (apply andb_prop in E; apply E).
    wf_solve.
    + eapply orNull_Some; eassumption.
    + match goal with H : orNull _ = Some _ |- _ => rewrite H in Hv end.
      apply Nat.leb_le. exact Hv.
  - destruct (originalClockOut te) as [c0|] eqn:Eo.
    + specialize (Ho' c0 eq_refl). wf_solve.
      * eapply orNull_Some; eassumption.
      * match goal with H : orNull _ = Some _ |- _ => rewrite H in Hv end.
        apply Nat.leb_le. exact Hv.
    + wf_solve.
      * eapply orNull_Some; eassumption.
      * match goal with H : orNull _ = Some _ |- _ => rewrite H in Hv end.
        apply Nat.leb_le. exact Hv.
Qed.

Lemma wellFormed_batch : forall now admin notes newClockOut e,
  wellFormed e -> isSome (clockOut e) = true ->
  validUpdate (batchUpdate now admin notes newClockOut) = true ->
  wellFormed (applyUpdate now (batchUpdate now admin notes newClockOut) e).
Proof.
  intros now admin notes newClockOut e. wf_intro. intros Hclosed Hv. unfold wellFormed.
  unfold validUpdate in Hv. cbn in Hv.
  split.
  { intro H. exfalso. unfold isActive in H. cbn in H.
    destruct newClockOut; [discriminate|].
    rewrite Hclosed in H. discriminate. }
  cbn. destruct (orNull notes) as [n|] eqn:En; cbn [setOr]; wf_solve.
  - match goal with H : Some _ = Some _ |- _ => injection H as <- end.
    eapply orNull_Some; eassumption.
  - match goal with H : Some _ = Some _ |- _ => injection H as <- end.
    apply Nat.leb_le. exact Hv.
Qed.

Lemma reachable_wellFormed : forall db,
  reachable db -> Forall wellFormed (timeEntries db).
Proof.
  apply (reachable_wf wellFormed).
  - apply wellFormed_new.
  - apply wellFormed_clockOut.
  - apply wellFormed_auto.
  - apply wellFormed_selective.
  - apply wellFormed_correct.
  - apply wellFormed_batch.
Qed.

(** X10. In every reachable state an open entry holds what the schema
    gives a new document, apart from its id, employee and clock-in: no
    clock-out, no hours, no auto-clockout flag or reason, no review
    flag, no original clock-out, no correction and no notes.  No
    operation writes these fields before the entry is closed. *)
Theorem open_entries_hold_the_defaults :
  forall db e,
    reachable db ->
    In e (timeEntries db) ->
    isActive e = true ->
    clockOut e = None /\ hoursWorked e = None /\ isAutoClockOut e = false
    /\ autoClockOutReason e = None /\ needsReview e = false
    /\ originalClockOut e = None /\ adminCorrected e = false
    /\ correctedBy e = None /\ correctedAt e = None /\ adminNotes e = None.
Proof.
  intros db e Hr Hin Hact.
  pose proof (reachable_wellFormed db Hr) as H.
  rewrite Forall_forall in H. split.
  - unfold isActive in Hact. destruct (clockOut e); [discriminate|reflexivity].
  - apply (H e Hin). exact Hact.
Qed.

(** X11. In every reachable state the fields of a stored entry agree
    with each other: a flagged entry is an auto-clockout; an auto-clockout
    is closed and carries its reason; an original clock-out is recorded
    only on corrected auto-clockouts; [adminCorrected] holds exactly when
    [correctedBy] and [correctedAt] are set; stored notes belong to a
    corrected entry, are not empty and have at most 500 characters;
    stored hours are not negative. *)
Theorem stored_fields_are_consistent :
  forall db e,
    reachable db ->
    In e (timeEntries db) ->
    (needsReview e = true -> isAutoClockOut e = true)
    /\ (isAutoClockOut e = true -> autoClockOutReason e <> None /\ isActive e = false)
    /\ (originalClockOut e <> None -> isAutoClockOut e = true /\ adminCorrected e = true)
    /\ (adminCorrected e = true <-> correctedBy e <> None)
    /\ (adminCorrected e = true <-> correctedAt e <> None)
    /\ (forall s, adminNotes e = Some s ->
          adminCorrected e = true /\ s <> ""%string /\ (String.length s <= 500)%nat)
    /\ (forall h, hoursWorked e = Some h -> (0 <= h)%Q).
Proof.
  intros db e Hr Hin.
  pose proof (reachable_wellFormed db Hr) as H.
  rewrite Forall_forall in H. specialize (H e Hin). revert H. wf_intro.
  assert (Hclosed : isAutoClockOut e = true -> isActive e = false).
  { intro Ha. destruct (isActive e) eqn:E; [|reflexivity].
    destruct (Hopen eq_refl) as (_ & Hno & _). congruence. }
  wf_solve.
Qed.

Lemma open_entries_hold_the_defaults_witness :
  let e := newTimeEntry 11%nat 3%nat (Examples.at_ 1 10) in
  In e (timeEntries Scenarios.twoOpen)
  /\ hoursWorked e = None /\ needsReview e = false /\ adminNotes e = None.
Proof.
  cbv zeta.
  assert (Hin : In (newTimeEntry 11%nat 3%nat (Examples.at_ 1 10))
                   (timeEntries Scenarios.twoOpen))
    by (right; left; reflexivity).
  split; [exact Hin|].
  destruct (open_entries_hold_the_defaults Scenarios.twoOpen _
              (serve_reachable _ _ (reachable_init _)) Hin eq_refl)
    as (_ & Hh & _ & _ & Hn & _ & _ & _ & _ & Ha).
  auto.
Defined.

Lemma stored_fields_are_consistent_witness :
  match timeEntries Examples.correctedShop with
  | e :: _ =>
      originalClockOut e = Some (Examples.at_ 1 20)
      /\ (originalClockOut e <> None -> isAutoClockOut e = true /\ adminCorrected e = true)
      /\ (adminCorrected e = true <-> correctedBy e <> None)
  | [] => False
  end.
Proof.
  assert (Hr : reachable Examples.correctedShop)
    by (repeat apply serve_reachable; apply reachable_init).
  destruct (timeEntries Examples.correctedShop) as [|e es] eqn:E;
    [vm_compute in E; discriminate|].
  assert (Hin : In e (timeEntries Examples.correctedShop))
    by (rewrite E; left; reflexivity).
  destruct (stored_fields_are_consistent Examples.correctedShop e Hr Hin)
    as (_ & _ & H3 & H4 & _).
  split; [|split; [exact H3|exact H4]].
  vm_compute in E. injection E as <- _. reflexivity.
Defined.

(* ------------------------------------------------------------------ *)
(** * Manual clock-out *)
(* ------------------------------------------------------------------ *)


Lemma findActiveEntry_Some : forall emp es a,
  findActiveEntry emp es = Some a ->
  In a es /\ employeeId a = emp /\ isActive a = true.
Proof.
  intros emp es a H. unfold findActiveEntry in H. apply find_some in H.
  destruct H as [Hin H]. apply andb_prop in H. destruct H as [H1 H2].
  apply Nat.eqb_eq in H1. auto.
Qed.

Lemma findById_Some : forall id es e,
  TimeEntry_findById id es = Some e -> In e es /\ _id e = id.
Proof.
  intros id es e H. unfold TimeEntry_findById in H. apply find_some in H.
  destruct H as [Hin H]. apply Nat.eqb_eq in H. auto.
Qed.






(* ------------------------------------------------------------------ *)
(** * Single correction *)
(* ------------------------------------------------------------------ *)


Lemma PUT_ignores_flag : forall now id body db flag,
  CorrectRoute.b_clockOut body <> None ->
  CorrectRoute.PUT now id
    {| CorrectRoute.b_clockOut := CorrectRoute.b_clockOut body;
       CorrectRoute.adminEmployeeId := CorrectRoute.adminEmployeeId body;
       CorrectRoute.b_adminNotes := CorrectRoute.b_adminNotes body;
       CorrectRoute.markAsCorrect := flag |}
    db
  = CorrectRoute.PUT now id body db.
Proof.
  intros now id body db flag Hc.
  set (body' := {| CorrectRoute.b_clockOut := CorrectRoute.b_clockOut body;
                   CorrectRoute.adminEmployeeId := CorrectRoute.adminEmployeeId body;
                   CorrectRoute.b_adminNotes := CorrectRoute.b_adminNotes body;
                   CorrectRoute.markAsCorrect := flag |}).
  assert (Hu : forall admin te,
            CorrectRoute.updateDataFor now admin body' te
            = CorrectRoute.updateDataFor now admin body te).
  { intros admin te. unfold CorrectRoute.updateDataFor. subst body'.
    cbn [CorrectRoute.b_clockOut CorrectRoute.b_adminNotes CorrectRoute.markAsCorrect].
    destruct (CorrectRoute.b_clockOut body) as [c|]; [|congruence].
    cbn [isSome negb]. rewrite !andb_false_r. reflexivity. }
  unfold CorrectRoute.PUT.
  change (CorrectRoute.adminEmployeeId body') with (CorrectRoute.adminEmployeeId body).
  destruct (CorrectRoute.adminEmployeeId body) as [admin|]; [|reflexivity].
  unfold inTransaction, CorrectRoute.correctBody.
  destruct (assertExc (isAdminId admin db) AdminPrivilegesRequired);
    cbn [bindExc]; [reflexivity|].
  destruct (orThrow (TimeEntry_findById id (timeEntries db)) TimeEntryNotFound)
    as [err|te]; cbn [bindExc]; [reflexivity|].
  destruct (assertExc (isSome (clockOut te)) EntryStillActive);
    cbn [bindExc]; [reflexivity|].
  rewrite Hu. reflexivity.
Qed.

Lemma PUT_stores_new_clock_out : forall now id body db e db' c,
  CorrectRoute.PUT now id body db = (inr e, db') ->
  CorrectRoute.b_clockOut body = Some c ->
  clockOut e = Some c.
Proof.
  intros now id body db e db' c H Hc. apply PUT_inversion in H.
  destruct H as (admin & te & es' & _ & _ & _ & _ & _ & _ & _ & -> & _).
  unfold applyUpdate, correctionUpdate, preUpdateHook. cbn.
  rewrite Hc. reflexivity.
Qed.

(** X14. When a request carries a new clock-out [c], [markAsCorrect]
    decides nothing but the message of the answer: with the flag set or
    not, the same requests are refused with the same error, and the same
    entry is stored with [c] as its clock-out and returned.  With the
    flag set the answer reads 'Time entry marked as correct' although
    the clock-out was changed. *)
Theorem new_clock_out_overrides_mark_as_correct :
  forall now id body db c,
    CorrectRoute.b_clockOut body = Some c ->
    let withFlag flag :=
      {| CorrectRoute.b_clockOut := CorrectRoute.b_clockOut body;
         CorrectRoute.adminEmployeeId := CorrectRoute.adminEmployeeId body;
         CorrectRoute.b_adminNotes := CorrectRoute.b_adminNotes body;
         CorrectRoute.markAsCorrect := flag |} in
    (forall flag,
       CorrectRoute.PUT now id (withFlag flag) db = CorrectRoute.PUT now id body db)
    /\ (forall flag err db',
          CorrectRoute.PUT now id body db = (inl err, db') ->
          CorrectRoute.PUT_response now id (withFlag flag) db = (inl err, db'))
    /\ (forall flag e db',
          CorrectRoute.PUT now id body db = (inr e, db') ->
          clockOut e = Some c
          /\ CorrectRoute.PUT_response now id (withFlag flag) db
             = (inr {| CorrectRoute.r_success := true;
                       CorrectRoute.r_message :=
                         if flag then "Time entry marked as correct"
                         else "Time entry corrected successfully";
                       CorrectRoute.r_timeEntry := e |},
                db')).
Proof.
  intros now id body db c Hc withFlag.
  assert (Hsome : CorrectRoute.b_clockOut body <> None) by congruence.
  split; [|split].
  - intro flag. apply PUT_ignores_flag, Hsome.
  - intros flag err db' H. unfold CorrectRoute.PUT_response, withFlag.
    rewrite (PUT_ignores_flag now id body db flag Hsome), H. reflexivity.
  - intros flag e db' H. split.
    + exact (PUT_stores_new_clock_out _ _ _ _ _ _ _ H Hc).
    + unfold CorrectRoute.PUT_response, withFlag.
      rewrite (PUT_ignores_flag now id body db flag Hsome), H. reflexivity.
Qed.

Lemma new_clock_out_overrides_mark_as_correct_witness :
  exists e db',
    CorrectRoute.PUT_response (Examples.at_ 2 10) 10%nat
      {| CorrectRoute.b_clockOut := Some (Examples.at_ 1 17);
         CorrectRoute.adminEmployeeId := Some 2%nat;
         CorrectRoute.b_adminNotes := Some "left at five"%string;
         CorrectRoute.markAsCorrect := true |}
      Examples.reviewShop
    = (inr {| CorrectRoute.r_success := true;
              CorrectRoute.r_message := "Time entry marked as correct";
              CorrectRoute.r_timeEntry := e |}, db')
    /\ clockOut e = Some (Examples.at_ 1 17)
    /\ map clockOut (timeEntries Examples.reviewShop) = [Some (Examples.at_ 1 20)].
Proof.
  destruct (CorrectRoute.PUT (Examples.at_ 2 10) 10%nat Examples.moveTo17
              Examples.reviewShop) as [[err|e] db'] eqn:E;
    [vm_compute in E; discriminate|].
  exists e, db'.
  destruct (proj2 (proj2 (new_clock_out_overrides_mark_as_correct (Examples.at_ 2 10)
                            10%nat Examples.moveTo17 Examples.reviewShop
                            (Examples.at_ 1 17) eq_refl))
                  true e db' E) as [Hc Hr].
  split; [exact Hr|]. split; [exact Hc|reflexivity].
Defined.


Lemma orNull_long : forall s, (500 < String.length s)%nat -> orNull (Some s) = Some s.
Proof.
  intros s H. unfold orNull. destruct s; [cbn in H; lia|reflexivity].
Qed.

(** X15. Notes of more than 500 characters make both the single and the
    batch correction fail, and nothing is written. *)
Theorem long_notes_are_refused :
  forall s,
    (500 < String.length s)%nat ->
    (forall now id body db,
       CorrectRoute.b_adminNotes body = Some s ->
       exists err, CorrectRoute.PUT now id body db = (inl err, db))
    /\ (forall now body db,
          NeedsReviewRoute.b_adminNotes body = Some s ->
          exists err, NeedsReviewRoute.POST now body db = (inl err, db)).
Proof.
  intros s Hs. pose proof (orNull_long s Hs) as Ho.
  assert (Hlen : (String.length s <=? 500)%nat = false) by (apply Nat.leb_gt; exact Hs).
  split.
  - intros now id body db Hn.
    destruct (CorrectRoute.PUT now id body db) as [[err|e] db'] eqn:E.
    + exists err. apply PUT_failure in E. subst db'. reflexivity.
    + exfalso. apply PUT_inversion in E.
      destruct E as (admin & te & es' & _ & _ & _ & _ & _ & Hv & _).
      unfold validUpdate in Hv. cbn in Hv. rewrite Hn, Ho, Hlen in Hv. discriminate.
  - intros now body db Hn.
    destruct (NeedsReviewRoute.POST now body db) as [[err|n] db'] eqn:E.
    + exists err. apply batch_failure in E. subst db'. reflexivity.
    + exfalso. apply batch_inversion in E.
      destruct E as (admin & c & _ & _ & _ & _ & Hv & _).
      unfold validUpdate in Hv. cbn in Hv. rewrite Hn, Ho, Hlen in Hv. discriminate.
Qed.

Lemma long_notes_are_refused_witness :
  exists err,
    CorrectRoute.PUT (Examples.at_ 2 10) 10%nat
      {| CorrectRoute.b_clockOut := Some (Examples.at_ 1 17);
         CorrectRoute.adminEmployeeId := Some 2%nat;
         CorrectRoute.b_adminNotes := Some longNote;
         CorrectRoute.markAsCorrect := false |}
      Examples.reviewShop
    = (inl err, Examples.reviewShop).
Proof.
  assert (Hs : (500 < String.length longNote)%nat) by (vm_compute; lia).
  apply (proj1 (long_notes_are_refused longNote Hs)). reflexivity.
Defined.

(** X16. A caller who is not an administrator is refused before any
    entry is looked up: the single correction answers 'Admin privileges
    required' whatever the id and the rest of the body, and so does the
    batch correction once it is given a non-empty list of ids. *)
Theorem non_admin_is_refused_first :
  forall admin db,
    isAdminId admin db = false ->
    (forall now id body,
       CorrectRoute.adminEmployeeId body = Some admin ->
       CorrectRoute.PUT now id body db = (inl AdminPrivilegesRequired, db))
    /\ (forall now body,
          NeedsReviewRoute.adminEmployeeId body = Some admin ->
          NeedsReviewRoute.entryIds body <> [] ->
          NeedsReviewRoute.POST now body db = (inl AdminPrivilegesRequired, db)).
Proof.
  intros admin db Ha. split.
  - intros now id body Hb. unfold CorrectRoute.PUT. rewrite Hb.
    unfold inTransaction, CorrectRoute.correctBody, assertExc. rewrite Ha. reflexivity.
  - intros now body Hb Hids. unfold NeedsReviewRoute.POST. rewrite Hb, Ha.
    destruct (NeedsReviewRoute.entryIds body); [congruence|reflexivity].
Qed.

Lemma non_admin_is_refused_first_witness :
  CorrectRoute.PUT (Examples.at_ 2 10) 999%nat
    {| CorrectRoute.b_clockOut := None;
       CorrectRoute.adminEmployeeId := Some 1%nat;
       CorrectRoute.b_adminNotes := None;
       CorrectRoute.markAsCorrect := true |}
    Examples.reviewShop
  = (inl AdminPrivilegesRequired, Examples.reviewShop).
Proof.
  assert (Ha : isAdminId 1%nat Examples.reviewShop = false) by reflexivity.
  apply (proj1 (non_admin_is_refused_first 1%nat Examples.reviewShop Ha)).
  reflexivity.
Defined.

(* ------------------------------------------------------------------ *)
(** * Batch correction *)
(* ------------------------------------------------------------------ *)

Lemma updateMany_Forall2 : forall now (p : TimeEntry -> bool) u es,
  Forall2 (fun x x' : TimeEntry => x' = if p x then applyUpdate now u x else x)
          es (fst (updateMany now p u es)).
Proof.
  intros now p u es. unfold updateMany. cbn [fst].
  induction es as [|x es IH]; cbn [map]; constructor; auto.
Qed.

Lemma idIn_In : forall ids e, NeedsReviewRoute.idIn ids e = true <-> In (_id e) ids.
Proof.
  intros ids e. unfold NeedsReviewRoute.idIn. rewrite existsb_exists. split.
  - intros (i & Hi & Heq). apply Nat.eqb_eq in Heq. subst i. exact Hi.
  - intro H. exists (_id e). split; [exact H|apply Nat.eqb_refl].
Qed.

Lemma listed_count : forall ids (p : TimeEntry -> bool) (es : list TimeEntry),
  NoDup (map _id es) ->
  (forall e, p e = true -> In (_id e) ids) ->
  (List.length (filter p es) <= List.length ids)%nat.
Proof.
  intros ids p es Hnd Hp.
  rewrite <- (length_map _id (filter p es)).
  apply NoDup_incl_length.
  - clear Hp. induction es as [|x es IH]; cbn [filter map]; [constructor|].
    inversion Hnd as [|y l Hnotin Hnd']; subst.
    destruct (p x); cbn [map]; [|auto].
    constructor; [|auto].
    intro Hin. apply Hnotin. apply in_map_iff in Hin.
    destruct Hin as (z & Hz & Hzin). apply filter_In in Hzin.
    rewrite <- Hz. apply in_map. apply Hzin.
  - intros i Hi. apply in_map_iff in Hi. destruct Hi as (z & <- & Hz).
    apply filter_In in Hz. apply Hp, Hz.
Qed.

Lemma batchFilter_spec : forall ids c x,
  batchFilter ids c x = true
  <-> isActive x = false /\ In (_id x) ids
      /\ match c with Some c' => clockIn x < c' | None => True end.
Proof.
  intros ids c x. unfold batchFilter, isActive.
  destruct c as [c|]; rewrite ?andb_true_iff, ?Z.ltb_lt, idIn_In;
    destruct (isSome (clockOut x)); cbn; intuition discriminate.
Qed.

Lemma option_eqb_refl : forall A (eqb : A -> A -> bool) (o : option A),
  (forall x, eqb x x = true) -> option_eqb eqb o o = true.
Proof. intros A eqb [x|] H; cbn; auto. Qed.

Lemma sameDocument_refl : forall e, sameDocument e e = true.
Proof.
  intro e. unfold sameDocument.
  rewrite !Nat.eqb_refl, !Z.eqb_refl, !Bool.eqb_reflx.
  rewrite !(option_eqb_refl _ Z.eqb) by apply Z.eqb_refl.
  rewrite (option_eqb_refl _ Nat.eqb) by apply Nat.eqb_refl.
  rewrite (option_eqb_refl _ String.eqb) by apply String.eqb_refl.
  rewrite (option_eqb_refl _ Qeq_bool) by (intro x; apply Qeq_bool_iff; reflexivity).
  rewrite (option_eqb_refl _ reason_eqb)
    by (intros [x|x]; cbn; first [apply Z.eqb_refl|apply Nat.eqb_refl]).
  reflexivity.
Qed.

Lemma sameDocument_updatedAt : forall a b,
  sameDocument a b = true -> updatedAt a = updatedAt b.
Proof.
  intros a b H. unfold sameDocument in H. apply andb_prop in H.
  apply Z.eqb_eq, H.
Qed.

(** [modifiedCount] is the number of documents that are not the same
    before and after the call. *)
Lemma updateMany_modifiedCount : forall now (p : TimeEntry -> bool) u es,
  snd (updateMany now p u es)
  = List.length (filter (fun xx => negb (sameDocument (snd xx) (fst xx)))
                        (combine es (fst (updateMany now p u es)))).
Proof.
  intros now p u es. unfold updateMany. cbn [fst snd].
  induction es as [|x es IH]; [reflexivity|].
  cbn [map combine filter fst snd].
  destruct (p x); cbn [andb].
  - destruct (negb (sameDocument (applyUpdate now u x) x)); cbn [List.length];
      rewrite IH; reflexivity.
  - rewrite sameDocument_refl. cbn [negb]. exact IH.
Qed.

Lemma filter_andb_length : forall (A : Type) (p q : A -> bool) l,
  (List.length (filter (fun x => p x && q x) l) <= List.length (filter p l))%nat.
Proof.
  intros A p q l; induction l as [|x l IH]; [cbn; lia|].
  cbn [filter]. destruct (p x), (q x); cbn [andb List.length]; lia.
Qed.

Lemma updateMany_counts_matched : forall now (p : TimeEntry -> bool) u es,
  (forall x, In x es -> p x = true -> updatedAt x <> now) ->
  snd (updateMany now p u es) = List.length (filter p es).
Proof.
  intros now p u es H. unfold updateMany. cbn [snd]. f_equal.
  apply filter_ext_in. intros x Hx.
  destruct (p x) eqn:E; [|reflexivity]. cbn [andb].
  destruct (sameDocument (applyUpdate now u x) x) eqn:Es; [|reflexivity].
  apply sameDocument_updatedAt in Es. cbn in Es.
  exfalso. apply (H x Hx E). congruence.
Qed.

(** X17. A successful batch request rewrites exactly the closed entries
    whose id is listed (and, when it sets a new clock-out [c], whose
    clock-in lies before [c]): an open entry, an unlisted entry and a
    listed entry that starts at or after [c] are left as they are, the
    last without any notice in the answer.  A rewritten entry keeps its
    hours and its original clock-out.  The count in the answer is
    [modifiedCount], the number of stored documents that changed: it is
    at most the number of entries rewritten, equal to it when none of
    them was last written at the instant of the request, and at most
    the number of ids listed when entry ids are unique. *)
Theorem batch_rewrites_only_listed_closed_entries :
  forall now body db n db',
    NeedsReviewRoute.POST now body db = (inr n, db') ->
    let c := if String.eqb (NeedsReviewRoute.action body) "mark-correct"
             then None else NeedsReviewRoute.clockOutTime body in
    let rewritten x :=
      isActive x = false /\ In (_id x) (NeedsReviewRoute.entryIds body)
      /\ match c with Some c' => clockIn x < c' | None => True end in
    Forall2 (fun x x' =>
               (rewritten x ->
                needsReview x' = false /\ adminCorrected x' = true
                /\ clockOut x' = match c with Some c' => Some c' | None => clockOut x end
                /\ hoursWorked x' = hoursWorked x
                /\ originalClockOut x' = originalClockOut x
                /\ isAutoClockOut x' = isAutoClockOut x
                /\ _id x' = _id x)
               /\ (~ rewritten x -> x' = x))
            (timeEntries db) (timeEntries db')
    /\ match c with Some c' => c' <= now | None => True end
    /\ n = List.length (filter (fun xx => negb (sameDocument (snd xx) (fst xx)))
                               (combine (timeEntries db) (timeEntries db')))
    /\ (forall p : TimeEntry -> bool,
          (forall x, p x = true <-> rewritten x) ->
          (n <= List.length (filter p (timeEntries db)))%nat
          /\ ((forall x, In x (timeEntries db) -> rewritten x -> updatedAt x <> now) ->
              n = List.length (filter p (timeEntries db))))
    /\ (NoDup (map _id (timeEntries db)) ->
        (n <= List.length (NeedsReviewRoute.entryIds body))%nat)
    /\ employees db' = employees db.
Proof.
  intros now body db n db' H c rewritten. apply batch_inversion in H.
  destruct H as (admin & c0 & _ & _ & _ & Hact & _ & Hu & Hemp).
  assert (Hc : c0 = c /\ match c with Some c' => c' <= now | None => True end).
  { subst c. destruct Hact as [[Ha ->]|(Ha & c1 & Hc1 & -> & Hle)].
    - rewrite Ha. cbn. auto.
    - rewrite Ha, Hc1. cbn. auto. }
  destruct Hc as [-> Hnow].
  assert (Hp : forall x, batchFilter (NeedsReviewRoute.entryIds body) c x = true
                         <-> rewritten x)
    by (intro x; apply batchFilter_spec).
  set (bf := batchFilter (NeedsReviewRoute.entryIds body) c) in *.
  set (bu := batchUpdate now admin (NeedsReviewRoute.b_adminNotes body) c) in *.
  assert (Hes : timeEntries db' = fst (updateMany now bf bu (timeEntries db)))
    by (rewrite <- Hu; reflexivity).
  assert (Hn : n = snd (updateMany now bf bu (timeEntries db)))
    by (rewrite <- Hu; reflexivity).
  assert (Hle : (n <= List.length (filter bf (timeEntries db)))%nat).
  { rewrite Hn. unfold updateMany. cbn [snd]. apply filter_andb_length. }
  split; [|split; [exact Hnow|split; [|split; [|split; [|exact Hemp]]]]].
  - rewrite Hes.
    eapply Forall2_impl; [|apply updateMany_Forall2].
    intros x x' Hx. cbn beta in Hx.
    destruct (bf x) eqn:E.
    + split; [|intro Hn'; exfalso; apply Hn', Hp, E].
      intros _. subst x'. repeat split.
    + split; [|intros _; exact Hx].
      intro Hr. apply Hp in Hr. congruence.
  - rewrite Hn, Hes. apply updateMany_modifiedCount.
  - intros p Hpr.
    assert (Hext : filter p (timeEntries db) = filter bf (timeEntries db)).
    { apply filter_ext. intro x. destruct (p x) eqn:E1, (bf x) eqn:E2; auto.
      - apply Hpr, Hp in E1. congruence.
      - apply Hp, Hpr in E2. congruence. }
    rewrite Hext. split; [exact Hle|].
    intro Hfresh. rewrite Hn. apply updateMany_counts_matched.
    intros x Hx Hb. apply Hfresh; [exact Hx|]. apply Hp, Hb.
  - intro Hnd. etransitivity; [exact Hle|].
    apply listed_count; [exact Hnd|]. intros e He. apply Hp in He. apply He.
Qed.

(** X18. A batch request without notes (or with empty notes) leaves the
    stored notes of every entry as they are; the single correction
    erases them. *)
Theorem batch_without_notes_keeps_notes :
  forall now body db n db',
    orNull (NeedsReviewRoute.b_adminNotes body) = None ->
    NeedsReviewRoute.POST now body db = (inr n, db') ->
    Forall2 (fun x x' => adminNotes x' = adminNotes x) (timeEntries db) (timeEntries db').
Proof.
  intros now body db n db' Hn H. apply batch_inversion in H.
  destruct H as (admin & c & _ & _ & _ & _ & _ & Hu & _).
  replace (timeEntries db')
    with (fst (updateMany now (batchFilter (NeedsReviewRoute.entryIds body) c)
                 (batchUpdate now admin (NeedsReviewRoute.b_adminNotes body) c)
                 (timeEntries db))) by (rewrite <- Hu; reflexivity).
  eapply Forall2_impl; [|apply updateMany_Forall2].
  intros x x' Hx. cbn beta in Hx.
  destruct (batchFilter (NeedsReviewRoute.entryIds body) c x); subst x'; [|reflexivity].
  unfold applyUpdate, batchUpdate, preUpdateHook. cbn. rewrite Hn. reflexivity.
Qed.

Lemma findById_map : forall id (g : TimeEntry -> TimeEntry) es,
  (forall e, _id (g e) = _id e) ->
  TimeEntry_findById id (map g es) = option_map g (TimeEntry_findById id es).
Proof.
  intros id g es Hg. unfold TimeEntry_findById.
  induction es as [|x es IH]; [reflexivity|].
  cbn [map find]. rewrite Hg. destruct (Nat.eqb (_id x) id); [reflexivity|exact IH].
Qed.

(** X19. The batch correction replaces the clock-out without recording
    the one it replaces.  So when an auto-clockout at [c1] is first
    batch-corrected to [c2] and later corrected singly to [c3], the
    entry's original clock-out becomes [c2], the time the batch wrote,
    and not the time [c1] of the auto-clockout. *)
Theorem batch_correction_loses_the_original_clock_out :
  forall now1 body1 db n db1 now2 body2 e2 db2 id e0 c1 c2 c3,
    TimeEntry_findById id (timeEntries db) = Some e0 ->
    isAutoClockOut e0 = true ->
    clockOut e0 = Some c1 ->
    originalClockOut e0 = None ->
    NeedsReviewRoute.action body1 = "batch-correct"%string ->
    NeedsReviewRoute.clockOutTime body1 = Some c2 ->
    In id (NeedsReviewRoute.entryIds body1) ->
    clockIn e0 < c2 ->
    NeedsReviewRoute.POST now1 body1 db = (inr n, db1) ->
    CorrectRoute.b_clockOut body2 = Some c3 ->
    CorrectRoute.PUT now2 id body2 db1 = (inr e2, db2) ->
    (exists e1, TimeEntry_findById id (timeEntries db1) = Some e1
                /\ clockOut e1 = Some c2 /\ originalClockOut e1 = None)
    /\ originalClockOut e2 = Some c2
    /\ clockOut e2 = Some c3.
Proof.
  intros now1 body1 db n db1 now2 body2 e2 db2 id e0 c1 c2 c3
         Hf Hauto Hc1 Ho Ha Hc2 Hin Hlt Hb Hc3 Hput.
  apply batch_inversion in Hb.
  destruct Hb as (admin & c & _ & _ & _ & Hact & _ & Hu & _).
  destruct Hact as [[Ha' _]|(_ & c0 & Hc0 & -> & _)];
    [rewrite Ha in Ha'; discriminate|].
  rewrite Hc2 in Hc0. injection Hc0 as <-.
  unfold updateMany in Hu. injection Hu as Hes _.
  set (u := batchUpdate now1 admin (NeedsReviewRoute.b_adminNotes body1) (Some c2)) in *.
  set (p := batchFilter (NeedsReviewRoute.entryIds body1) (Some c2)) in *.
  assert (Hid : _id e0 = id) by (apply findById_Some in Hf; apply Hf).
  assert (Hp : p e0 = true).
  { subst p. apply batchFilter_spec. unfold isActive. rewrite Hc1, Hid.
    repeat split; auto. }
  assert (Hf1 : TimeEntry_findById id (timeEntries db1) = Some (applyUpdate now1 u e0)).
  { rewrite Hes, findById_map, Hf;
      [cbn [option_map]; cbv beta; unfold p, batchFilter in Hp; rewrite Hp; reflexivity|].
    intro e. match goal with |- context [if ?b then _ else _] => destruct b end;
      [apply applyUpdate_id|reflexivity]. }
  split.
  - exists (applyUpdate now1 u e0). split; [exact Hf1|]. split; [reflexivity|exact Ho].
  - apply PUT_inversion in Hput.
    destruct Hput as (admin2 & te & es' & _ & _ & Hf2 & _ & _ & _ & _ & -> & _).
    rewrite Hf1 in Hf2. injection Hf2 as <-.
    unfold applyUpdate, correctionUpdate, preUpdateHook. cbn.
    rewrite Hc3, Ho, Hauto. cbn. split; reflexivity.
Qed.

Lemma batch_rewrites_only_listed_closed_entries_witness :
  match NeedsReviewRoute.POST (Examples.at_ 2 10) BatchScenarios.batchTo17
          Examples.reviewShop with
  | (inr n, db') =>
      (n <= 1)%nat /\ employees db' = employees Examples.reviewShop
  | (inl _, _) => False
  end.
Proof.
  destruct (NeedsReviewRoute.POST (Examples.at_ 2 10) BatchScenarios.batchTo17
              Examples.reviewShop) as [[err|n] db'] eqn:E;
    [vm_compute in E; discriminate|].
  pose proof (batch_rewrites_only_listed_closed_entries _ _ _ _ _ E) as H.
  cbv zeta in H. destruct H as (_ & _ & _ & _ & Hn & Hemp).
  split; [|exact Hemp]. apply Hn. distinct_ids.
Defined.

(** The same batch sent twice at one instant: the second request matches
    entry 10 again and changes nothing, and its answer counts no entry. *)
Example repeated_batch_modifies_nothing :
  let now := Examples.at_ 2 10 in
  let '(first, db1) :=
    NeedsReviewRoute.POST now BatchScenarios.batchTo17 Examples.reviewShop in
  let '(second, db2) := NeedsReviewRoute.POST now BatchScenarios.batchTo17 db1 in
  first = inr 1%nat /\ second = inr 0%nat /\ db2 = db1.
Proof. vm_compute. repeat split. Qed.

Lemma batch_without_notes_keeps_notes_witness :
  match NeedsReviewRoute.POST (Examples.at_ 3 10) BatchScenarios.markCorrect
          Examples.correctedShop with
  | (inr n, db') =>
      Forall2 (fun x x' => adminNotes x' = adminNotes x)
              (timeEntries Examples.correctedShop) (timeEntries db')
      /\ map adminNotes (timeEntries Examples.correctedShop)
         = [Some "left at five"%string]
  | (inl _, _) => False
  end.
Proof.
  destruct (NeedsReviewRoute.POST (Examples.at_ 3 10) BatchScenarios.markCorrect
              Examples.correctedShop) as [[err|n] db'] eqn:E;
    [vm_compute in E; discriminate|].
  split; [|reflexivity].
  exact (batch_without_notes_keeps_notes (Examples.at_ 3 10) BatchScenarios.markCorrect
           Examples.correctedShop n db' eq_refl E).
Defined.

Lemma batch_correction_loses_the_original_clock_out_witness :
  match NeedsReviewRoute.POST (Examples.at_ 2 10) BatchScenarios.batchTo17
          Examples.reviewShop with
  | (inr n, db1) =>
      match CorrectRoute.PUT (Examples.at_ 3 10) 10%nat Examples.moveTo18 db1 with
      | (inr e2, _) =>
          originalClockOut e2 = Some (Examples.at_ 1 17)
          /\ clockOut Examples.aliceAuto = Some (Examples.at_ 1 20)
      | (inl _, _) => False
      end
  | (inl _, _) => False
  end.
Proof.
  destruct (NeedsReviewRoute.POST (Examples.at_ 2 10) BatchScenarios.batchTo17
              Examples.reviewShop) as [[err|n] db1] eqn:E1;
    [vm_compute in E1; discriminate|].
  destruct (CorrectRoute.PUT (Examples.at_ 3 10) 10%nat Examples.moveTo18 db1)
    as [[err|e2] db2] eqn:E2.
  - vm_compute in E1. injection E1 as _ <-. vm_compute in E2. discriminate.
  - split; [|reflexivity].
    apply (batch_correction_loses_the_original_clock_out
             (Examples.at_ 2 10) BatchScenarios.batchTo17 Examples.reviewShop n db1
             (Examples.at_ 3 10) Examples.moveTo18 e2 db2 10%nat Examples.aliceAuto
             (Examples.at_ 1 20) (Examples.at_ 1 17) (Examples.at_ 1 18)
             eq_refl eq_refl eq_refl eq_refl eq_refl eq_refl
             (or_introl eq_refl) eq_refl E1 eq_refl E2).
Defined.

(* ------------------------------------------------------------------ *)
(** * Sorting and bucketing *)
(* ------------------------------------------------------------------ *)

Section SortFacts.
Context {A : Type} (le : A -> A -> bool).

Lemma insertSorted_perm : forall x l, Permutation (insertSorted le x l) (x :: l).
Proof.
  intros x l; induction l as [|y l IH]; cbn [insertSorted]; [reflexivity|].
  destruct (le x y); [reflexivity|].
  rewrite IH. apply perm_swap.
Qed.

Lemma sortBy_perm : forall l, Permutation (sortBy le l) l.
Proof.
  induction l as [|x l IH]; cbn [sortBy fold_right]; [reflexivity|].
  fold (sortBy le l). rewrite insertSorted_perm. constructor. exact IH.
Qed.

Hypothesis le_total : forall a b, le a b = false -> le b a = true.

Lemma insertSorted_sorted : forall x l,
  Sorted (fun a b => le a b = true) l ->
  Sorted (fun a b => le a b = true) (insertSorted le x l).
Proof.
  intros x l; induction l as [|y l IH]; intro Hs; cbn [insertSorted].
  - repeat constructor.
  - destruct (le x y) eqn:E.
    + constructor; [exact Hs|]. constructor. exact E.
    + inversion Hs as [|y' l' Hs' Hhd]; subst.
      constructor; [apply IH, Hs'|].
      destruct l as [|z l]; cbn [insertSorted].
      * constructor. apply le_total, E.
      * destruct (le x z); constructor.
        -- apply le_total, E.
        -- inversion Hhd; assumption.
Qed.

Lemma sortBy_sorted : forall l, Sorted (fun a b => le a b = true) (sortBy le l).
Proof.
  induction l as [|x l IH]; cbn [sortBy fold_right]; [constructor|].
  apply insertSorted_sorted, IH.
Qed.

End SortFacts.

Section BucketFacts.
Context {V : Type} (key : V -> nat).

Lemma bucketPush_keys : forall v (m : list (nat * list V)) k,
  In k (map fst (bucketPush Nat.eqb (key v) v m)) -> k = key v \/ In k (map fst m).
Proof.
  intros v m; induction m as [|[k' vs] m IH]; intros k H; cbn [bucketPush map fst] in *.
  - destruct H as [H|[]]. left. symmetry. exact H.
  - destruct (Nat.eqb k' (key v)) eqn:E; cbn [map fst] in H.
    + right. exact H.
    + destruct H as [H|H]; [right; left; exact H|].
      destruct (IH k H) as [H'|H']; [left; exact H'|right; right; exact H'].
Qed.

Lemma bucketPush_ok : forall v (m : list (nat * list V)),
  bucketsOk key m -> bucketsOk key (bucketPush Nat.eqb (key v) v m).
Proof.
  intros v m; induction m as [|[k' vs] m IH]; intros [Hnd Hall];
    cbn [bucketPush].
  - split; cbn; repeat constructor; auto. discriminate.
  - inversion Hnd as [|x l Hnotin Hnd']; subst.
    inversion Hall as [|x l [Hne Hkeys] Hall']; subst. cbn [fst snd] in *.
    destruct (Nat.eqb k' (key v)) eqn:E.
    + apply Nat.eqb_eq in E. split; cbn [map fst]; [exact Hnd|].
      constructor; [|exact Hall']. cbn [fst snd]. split.
      * intro H. apply app_eq_nil in H. destruct H; discriminate.
      * apply Forall_app. split; [exact Hkeys|]. constructor; [auto|constructor].
    + apply Nat.eqb_neq in E. destruct (IH (conj Hnd' Hall')) as [Hnd1 Hall1].
      split; cbn [map fst].
      * constructor; [|exact Hnd1]. intro H. apply bucketPush_keys in H.
        destruct H as [H|H]; [congruence|contradiction].
      * constructor; [|exact Hall1]. cbn [fst snd]. auto.
Qed.

Lemma bucketPush_perm : forall k v (m : list (nat * list V)),
  Permutation (flat_map snd (bucketPush Nat.eqb k v m)) (v :: flat_map snd m).
Proof.
  intros k v m; induction m as [|[k' vs] m IH]; cbn [bucketPush flat_map snd].
  - reflexivity.
  - destruct (Nat.eqb k' k); cbn [flat_map snd].
    + rewrite <- app_assoc. cbn [app].
      rewrite <- Permutation_middle. reflexivity.
    + rewrite IH. rewrite <- Permutation_middle. reflexivity.
Qed.

Lemma bucketsOf_from : forall l (m : list (nat * list V)),
  bucketsOk key m ->
  bucketsOk key (fold_left (fun m v => bucketPush Nat.eqb (key v) v m) l m)
  /\ Permutation
       (flat_map snd (fold_left (fun m v => bucketPush Nat.eqb (key v) v m) l m))
       (flat_map snd m ++ l).
Proof.
  induction l as [|v l IH]; intros m Hm; cbn [fold_left].
  - split; [exact Hm|]. rewrite app_nil_r. reflexivity.
  - destruct (IH _ (bucketPush_ok v m Hm)) as [H1 H2]. split; [exact H1|].
    rewrite H2, bucketPush_perm. cbn [app].
    rewrite <- Permutation_middle. reflexivity.
Qed.

Lemma bucketsOf_ok : forall l,
  bucketsOk key (bucketsOf Nat.eqb key l)
  /\ Permutation (flat_map snd (bucketsOf Nat.eqb key l)) l.
Proof.
  intro l. unfold bucketsOf.
  destruct (bucketsOf_from l []) as [H1 H2].
  - split; constructor.
  - split; [exact H1|exact H2].
Qed.

End BucketFacts.

(* ------------------------------------------------------------------ *)
(** * Reviews grouped by employee *)
(* ------------------------------------------------------------------ *)

Lemma groupLe_total : forall a b,
  EmployeeGroupedReviews.groupLe a b = false -> EmployeeGroupedReviews.groupLe b a = true.
Proof.
  intros a b. unfold EmployeeGroupedReviews.groupLe.
  destruct (EmployeeGroupedReviews.oldestReviewDays b
            <? EmployeeGroupedReviews.oldestReviewDays a) eqn:E1; [discriminate|].
  destruct (EmployeeGroupedReviews.oldestReviewDays a
            <? EmployeeGroupedReviews.oldestReviewDays b) eqn:E2; [reflexivity|].
  intro H. apply Nat.leb_gt in H. apply Nat.leb_le. lia.
Qed.

Lemma groupLe_oldest : forall a b,
  EmployeeGroupedReviews.groupLe a b = true ->
  EmployeeGroupedReviews.oldestReviewDays b <= EmployeeGroupedReviews.oldestReviewDays a.
Proof.
  intros a b. unfold EmployeeGroupedReviews.groupLe.
  destruct (EmployeeGroupedReviews.oldestReviewDays b
            <? EmployeeGroupedReviews.oldestReviewDays a) eqn:E1.
  - apply Z.ltb_lt in E1. lia.
  - destruct (EmployeeGroupedReviews.oldestReviewDays a
              <? EmployeeGroupedReviews.oldestReviewDays b) eqn:E2; [discriminate|].
    apply Z.ltb_ge in E1. apply Z.ltb_ge in E2. lia.
Qed.

Lemma lookupUnwind_rows : forall db now e r,
  In r (EmployeeGroupedReviews.lookupUnwind db now e) ->
  EmployeeGroupedReviews.entry r = e
  /\ Employee._id (EmployeeGroupedReviews.employee r) = employeeId e
  /\ In (EmployeeGroupedReviews.employee r) (employees db)
  /\ EmployeeGroupedReviews.daysSinceReview r
     = EmployeeGroupedReviews.ceilDiv (now - updatedAt e) msPerDay.
Proof.
  intros db now e r H. unfold EmployeeGroupedReviews.lookupUnwind in H.
  apply in_map_iff in H. destruct H as (emp & <- & Hin).
  apply filter_In in Hin. destruct Hin as [Hin Heq]. apply Nat.eqb_eq in Heq.
  cbn. auto.
Qed.

Lemma filter_none : forall (B : Type) (f : B -> bool) l,
  (forall z, In z l -> f z = false) -> filter f l = [].
Proof.
  intros B f l; induction l as [|z l IH]; intro H; [reflexivity|].
  cbn [filter]. rewrite (H z (or_introl eq_refl)). apply IH.
  intros y Hy. apply H. right. exact Hy.
Qed.

Lemma lookupUnwind_unique : forall db now e,
  NoDup (map Employee._id (employees db)) ->
  map EmployeeGroupedReviews.entry (EmployeeGroupedReviews.lookupUnwind db now e)
  = if isSome (Employee_findById (employeeId e) db) then [e] else [].
Proof.
  intros db now e. unfold EmployeeGroupedReviews.lookupUnwind, Employee_findById.
  induction (employees db) as [|x l IH]; intro Hnd; cbn [filter find map]; [reflexivity|].
  inversion Hnd as [|y l' Hnotin Hnd']; subst.
  destruct (Nat.eqb (Employee._id x) (employeeId e)) eqn:E.
  - cbn [map isSome EmployeeGroupedReviews.entry]. f_equal.
    apply Nat.eqb_eq in E.
    replace (filter (fun emp => Nat.eqb (Employee._id emp) (employeeId e)) l) with (@nil Employee.t);
      [reflexivity|].
    symmetry. apply filter_none. intros z Hz. apply Nat.eqb_neq. intro Hz'.
    apply Hnotin. rewrite E, <- Hz'. apply in_map. exact Hz.
  - apply IH, Hnd'.
Qed.

Lemma Forall_perm : forall (B : Type) (P : B -> Prop) l l',
  Permutation l l' -> Forall P l -> Forall P l'.
Proof.
  intros B P l l' Hp H. rewrite Forall_forall in *. intros x Hx.
  apply H. apply (Permutation_in x (Permutation_sym Hp) Hx).
Qed.

Lemma groupStage_fields : forall k rows,
  EmployeeGroupedReviews.g_id (EmployeeGroupedReviews.groupStage (k, rows)) = k
  /\ EmployeeGroupedReviews.entries (EmployeeGroupedReviews.groupStage (k, rows)) = rows
  /\ EmployeeGroupedReviews.totalEntries (EmployeeGroupedReviews.groupStage (k, rows))
     = List.length rows
  /\ EmployeeGroupedReviews.oldestReviewDays (EmployeeGroupedReviews.groupStage (k, rows))
     = EmployeeGroupedReviews.maxDays rows
  /\ EmployeeGroupedReviews.priority (EmployeeGroupedReviews.groupStage (k, rows))
     = EmployeeGroupedReviews.priorityOf (EmployeeGroupedReviews.maxDays rows).
Proof. intros k rows. repeat split. Qed.

Lemma employeeGroups_perm : forall now forEmployee db,
  exists buckets,
    Permutation (EmployeeGroupedReviews.employeeGroups now forEmployee db)
                (map EmployeeGroupedReviews.groupStage buckets)
    /\ bucketsOk (fun r => employeeId (EmployeeGroupedReviews.entry r)) buckets
    /\ Permutation
         (flat_map snd buckets)
         (flat_map (EmployeeGroupedReviews.lookupUnwind db now)
                   (filter (EmployeeGroupedReviews.matchStage forEmployee)
                           (timeEntries db))).
Proof.
  intros now forEmployee db. unfold EmployeeGroupedReviews.employeeGroups. cbv zeta.
  set (rows := flat_map (EmployeeGroupedReviews.lookupUnwind db now)
                 (filter (EmployeeGroupedReviews.matchStage forEmployee) (timeEntries db))).
  set (sorted := sortBy EmployeeGroupedReviews.rowLe rows).
  exists (bucketsOf Nat.eqb (fun r => employeeId (EmployeeGroupedReviews.entry r)) sorted).
  destruct (bucketsOf_ok (fun r => employeeId (EmployeeGroupedReviews.entry r)) sorted)
    as [Hok Hperm].
  split; [apply sortBy_perm|]. split; [exact Hok|].
  rewrite Hperm. apply sortBy_perm.
Qed.

(** X20. The groups of the review screen partition the flagged entries
    (of the employee asked for, if one is) that belong to an existing
    employee: every such entry is in exactly one group, the group of its
    employee; no group is empty, no employee has two groups, and
    [totalEntries] is the size of the group.  A flagged entry whose
    employee is gone is in no group. *)
Theorem review_groups_partition_the_flagged_entries :
  forall now forEmployee db,
    let groups := EmployeeGroupedReviews.employeeGroups now forEmployee db in
    let flagged := filter (EmployeeGroupedReviews.matchStage forEmployee) (timeEntries db) in
    let rows := flat_map (EmployeeGroupedReviews.lookupUnwind db now) flagged in
    NoDup (map EmployeeGroupedReviews.g_id groups)
    /\ Forall (fun g =>
                 EmployeeGroupedReviews.entries g <> []
                 /\ EmployeeGroupedReviews.totalEntries g
                    = List.length (EmployeeGroupedReviews.entries g)
                 /\ Forall (fun r =>
                              employeeId (EmployeeGroupedReviews.entry r)
                              = EmployeeGroupedReviews.g_id g)
                           (EmployeeGroupedReviews.entries g))
              groups
    /\ Permutation (flat_map EmployeeGroupedReviews.entries groups) rows
    /\ (NoDup (map Employee._id (employees db)) ->
        map EmployeeGroupedReviews.entry rows
        = filter (fun e => isSome (Employee_findById (employeeId e) db)) flagged).
Proof.
  intros now forEmployee db; cbv zeta.
  destruct (employeeGroups_perm now forEmployee db) as (buckets & Hperm & [Hnd Hall] & Hrows).
  split; [|split; [|split]].
  - apply (Permutation_NoDup
             (l := map EmployeeGroupedReviews.g_id
                     (map EmployeeGroupedReviews.groupStage buckets))).
    + apply Permutation_map. symmetry. exact Hperm.
    + rewrite map_map.
      replace (map (fun x => EmployeeGroupedReviews.g_id
                               (EmployeeGroupedReviews.groupStage x)) buckets)
        with (map fst buckets); [exact Hnd|].
      apply map_ext. intros [k rows]. reflexivity.
  - apply (Forall_perm _ _ _ _ (Permutation_sym Hperm)).
    apply Forall_map. eapply Forall_impl; [|exact Hall].
    intros [k rows] [Hne Hkeys]. cbn [fst snd] in *.
    destruct (groupStage_fields k rows) as (-> & -> & -> & _). auto.
  - rewrite <- Hrows. rewrite Hperm.
    rewrite flat_map_concat_map, map_map, <- flat_map_concat_map.
    replace (flat_map (fun x => EmployeeGroupedReviews.entries
                                  (EmployeeGroupedReviews.groupStage x)) buckets)
      with (flat_map snd buckets); [reflexivity|].
    apply flat_map_ext. intros [k rows]. reflexivity.
  - intro Hemp. clear - Hemp.
    induction (filter (EmployeeGroupedReviews.matchStage forEmployee) (timeEntries db))
      as [|e l IH]; [reflexivity|].
    cbn [flat_map filter]. rewrite map_app, IH, (lookupUnwind_unique db now e Hemp).
    destruct (isSome (Employee_findById (employeeId e) db)); reflexivity.
Qed.

Lemma maxDays_bound : forall rows r,
  In r rows ->
  EmployeeGroupedReviews.daysSinceReview r <= EmployeeGroupedReviews.maxDays rows.
Proof.
  intros rows r Hin. unfold EmployeeGroupedReviews.maxDays.
  destruct rows as [|r0 rest]; [destruct Hin|].
  assert (Hfold : forall l a,
            a <= fold_left Z.max l a
            /\ forall x, In x l -> x <= fold_left Z.max l a).
  { induction l as [|y l IH]; intro a; cbn [fold_left].
    - split; [lia|intros x []].
    - destruct (IH (Z.max a y)) as [H1 H2]. split; [lia|].
      intros x [->|Hx]; [lia|apply H2, Hx]. }
  destruct (Hfold (map EmployeeGroupedReviews.daysSinceReview rest)
                  (EmployeeGroupedReviews.daysSinceReview r0)) as [H1 H2].
  destruct Hin as [->|Hin]; [exact H1|].
  apply H2. apply in_map. exact Hin.
Qed.

Lemma StronglySorted_impl : forall (B : Type) (R R' : B -> B -> Prop) l,
  (forall a b, In a l -> In b l -> R a b -> R' a b) ->
  StronglySorted R l -> StronglySorted R' l.
Proof.
  intros B R R' l; induction l as [|x l IH]; intros Himp Hs; [constructor|].
  inversion Hs as [|y l' Hs' Hall]; subst. constructor.
  - apply IH; [|exact Hs']. intros a b Ha Hb. apply Himp; right; assumption.
  - rewrite Forall_forall in *. intros b Hb.
    apply Himp; [left; reflexivity|right; exact Hb|apply Hall, Hb].
Qed.

Lemma priorityOf_monotone : forall a b,
  a <= b ->
  (EmployeeGroupedReviews.priorityOf a = EmployeeGroupedReviews.high ->
   EmployeeGroupedReviews.priorityOf b = EmployeeGroupedReviews.high)
  /\ (EmployeeGroupedReviews.priorityOf b = EmployeeGroupedReviews.low ->
      EmployeeGroupedReviews.priorityOf a = EmployeeGroupedReviews.low).
Proof.
  intros a b Hab. unfold EmployeeGroupedReviews.priorityOf.
  destruct (3 <=? a) eqn:A3, (3 <=? b) eqn:B3, (1 <=? a) eqn:A1, (1 <=? b) eqn:B1;
    split; intro H; try discriminate; try reflexivity;
    rewrite ?Z.leb_le, ?Z.leb_gt in *; lia.
Qed.

(** X21. The groups are listed most urgent first: the age in days of
    the oldest flag never increases down the list (groups of equal age
    come with the larger group first), so every 'high' group precedes
    every 'medium' one and these precede every 'low' one.  The age shown
    for a group is the largest age among its entries, and its priority
    is computed from that age. *)
Theorem review_groups_are_listed_most_urgent_first :
  forall now forEmployee db,
    let groups := EmployeeGroupedReviews.employeeGroups now forEmployee db in
    Sorted (fun a b => EmployeeGroupedReviews.groupLe a b = true) groups
    /\ StronglySorted
         (fun a b => EmployeeGroupedReviews.oldestReviewDays b
                     <= EmployeeGroupedReviews.oldestReviewDays a) groups
    /\ StronglySorted
         (fun a b =>
            (EmployeeGroupedReviews.priority b = EmployeeGroupedReviews.high ->
             EmployeeGroupedReviews.priority a = EmployeeGroupedReviews.high)
            /\ (EmployeeGroupedReviews.priority a = EmployeeGroupedReviews.low ->
                EmployeeGroupedReviews.priority b = EmployeeGroupedReviews.low))
         groups
    /\ Forall (fun g =>
                 EmployeeGroupedReviews.priority g
                 = EmployeeGroupedReviews.priorityOf
                     (EmployeeGroupedReviews.oldestReviewDays g)
                 /\ Forall (fun r => EmployeeGroupedReviews.daysSinceReview r
                                     <= EmployeeGroupedReviews.oldestReviewDays g)
                           (EmployeeGroupedReviews.entries g)
                 /\ Exists (fun r => EmployeeGroupedReviews.daysSinceReview r
                                     = EmployeeGroupedReviews.oldestReviewDays g)
                           (EmployeeGroupedReviews.entries g))
              groups.
Proof.
  intros now forEmployee db; cbv zeta.
  assert (Hsorted : Sorted (fun a b => EmployeeGroupedReviews.groupLe a b = true)
                      (EmployeeGroupedReviews.employeeGroups now forEmployee db)).
  { unfold EmployeeGroupedReviews.employeeGroups. cbv zeta.
    apply sortBy_sorted. exact groupLe_total. }
  assert (Hstrong : StronglySorted
                      (fun a b => EmployeeGroupedReviews.oldestReviewDays b
                                  <= EmployeeGroupedReviews.oldestReviewDays a)
                      (EmployeeGroupedReviews.employeeGroups now forEmployee db)).
  { apply Sorted_StronglySorted.
    - intros a b c Hab Hbc. lia.
    - eapply Sorted_ind with (P := fun l => Sorted _ l); [constructor| |exact Hsorted].
      intros a l _ IH Hhd. constructor; [exact IH|].
      destruct Hhd as [|b l' Hab]; constructor. apply groupLe_oldest, Hab. }
  destruct (employeeGroups_perm now forEmployee db) as (buckets & Hperm & [Hnd Hall] & _).
  assert (Hgroups : Forall (fun g =>
                 EmployeeGroupedReviews.priority g
                 = EmployeeGroupedReviews.priorityOf
                     (EmployeeGroupedReviews.oldestReviewDays g)
                 /\ Forall (fun r => EmployeeGroupedReviews.daysSinceReview r
                                     <= EmployeeGroupedReviews.oldestReviewDays g)
                           (EmployeeGroupedReviews.entries g)
                 /\ Exists (fun r => EmployeeGroupedReviews.daysSinceReview r
                                     = EmployeeGroupedReviews.oldestReviewDays g)
                           (EmployeeGroupedReviews.entries g))
              (EmployeeGroupedReviews.employeeGroups now forEmployee db)).
  { apply (Forall_perm _ _ _ _ (Permutation_sym Hperm)).
    apply Forall_map. eapply Forall_impl; [|exact Hall].
    intros [k rows] [Hne _]. cbn [fst snd] in *.
    destruct (groupStage_fields k rows) as (_ & -> & _ & -> & ->).
    split; [reflexivity|]. split.
    - apply Forall_forall. intros r Hr. apply maxDays_bound, Hr.
    - clear - Hne. unfold EmployeeGroupedReviews.maxDays.
      destruct rows as [|r0 rest]; [congruence|].
      assert (Hfold : forall l a,
                fold_left Z.max l a = a \/ In (fold_left Z.max l a) l).
      { induction l as [|y l IH]; intro a; cbn [fold_left]; [left; reflexivity|].
        destruct (IH (Z.max a y)) as [H|H].
        - rewrite H. destruct (Z.max_spec a y) as [[_ ->]|[_ ->]]; [right; left|left];
            reflexivity.
        - right. right. exact H. }
      destruct (Hfold (map EmployeeGroupedReviews.daysSinceReview rest)
                      (EmployeeGroupedReviews.daysSinceReview r0)) as [H|H].
      + apply Exists_cons_hd. symmetry. exact H.
      + apply in_map_iff in H. destruct H as (r & Hr & Hin).
        apply Exists_cons_tl. apply Exists_exists. exists r. auto. }
  split; [exact Hsorted|]. split; [exact Hstrong|]. split; [|exact Hgroups].
  eapply StronglySorted_impl; [|exact Hstrong].
  intros a b Ha Hb Hab. rewrite Forall_forall in Hgroups.
  destruct (Hgroups a Ha) as [-> _]. destruct (Hgroups b Hb) as [-> _].
  destruct (priorityOf_monotone _ _ Hab) as [H1 H2]. split; assumption.
Qed.

(* ------------------------------------------------------------------ *)
(** * Where a period starts *)
(* ------------------------------------------------------------------ *)

Lemma startOfWeek_unfold : forall tz now,
  TimeEntriesList.startOfWeek tz now = setDate tz now (getDate tz now - getDay tz now).
Proof. intros tz now. unfold TimeEntriesList.startOfWeek. reflexivity. Qed.

Lemma startOfWeek_value : forall tz now,
  TimeEntriesList.startOfWeek tz now = now - getDay tz now * msPerDay.
Proof.
  intros tz now. rewrite startOfWeek_unfold.
  replace (getDate tz now - getDay tz now) with (getDate tz now + - getDay tz now) by lia.
  rewrite setDate_plus_days. lia.
Qed.

Lemma startOfWeek_day : forall tz now,
  Day (TimeEntriesList.startOfWeek tz now + tz) = Day (now + tz) - getDay tz now
  /\ TimeWithinDay (TimeEntriesList.startOfWeek tz now + tz) = TimeWithinDay (now + tz).
Proof.
  intros tz now. rewrite (startOfWeek_value tz now).
  unfold Day, TimeWithinDay, msPerDay.
  generalize (getDay tz now). intro k. Z.div_mod_to_equations. lia.
Qed.

Lemma setHours_midnight : forall tz s,
  setHours tz s 0 0 0 0 = s - TimeWithinDay (s + tz).
Proof.
  intros tz s.
  unfold setHours, MakeTime, Day, TimeWithinDay, msPerDay, msPerHour, msPerMinute,
    msPerSecond.
  Z.div_mod_to_equations. lia.
Qed.

Lemma review_startOfWeek_value : forall tz now,
  NeedsReviewList.startOfWeek tz now
  = TimeEntriesList.startOfWeek tz now - TimeWithinDay (now + tz).
Proof.
  intros tz now. unfold NeedsReviewList.startOfWeek.
  rewrite setHours_midnight, <- startOfWeek_unfold, (proj2 (startOfWeek_day tz now)).
  reflexivity.
Qed.

Lemma startOfWeek_is_sunday : forall tz now,
  getDay tz (TimeEntriesList.startOfWeek tz now) = 0.
Proof.
  intros tz now. destruct (startOfWeek_day tz now) as [Hd _].
  unfold getDay at 1. unfold WeekDay. rewrite Hd. unfold getDay, WeekDay.
  Z.div_mod_to_equations. lia.
Qed.

Lemma startOfMonth_value : forall tz now,
  100 <= getFullYear tz now ->
  TimeEntriesList.startOfMonth tz now
  = now - TimeWithinDay (now + tz) - (getDate tz now - 1) * msPerDay.
Proof.
  intros tz now.
  unfold TimeEntriesList.startOfMonth, newDate, getFullYear, getMonth, getDate.
  destruct (civilFromDays (Day (now + tz))) as [[y m] d] eqn:E. intro Hy.
  replace ((0 <=? y) && (y <=? 99)) with false
    by (symmetry; apply andb_false_iff; right; apply Z.leb_gt; lia).
  pose proof (MakeDay_of_civil _ _ _ _ (1 - d) E) as Hm.
  replace (d + (1 - d)) with 1 in Hm by lia. rewrite Hm.
  unfold MakeTime, Day, TimeWithinDay, msPerDay, msPerHour, msPerMinute, msPerSecond.
  Z.div_mod_to_equations. lia.
Qed.

(** X22. In the list of time entries, 'week' starts on the last Sunday
    (today, on a Sunday) at the present time of day, not at midnight:
    an entry of that Sunday that starts earlier in the day than the
    request is made is left out.  The review list moves the same start
    to midnight.  'month' starts at local midnight of the first day of
    the present month. *)
Theorem week_period_starts_at_the_present_time_of_day :
  forall tz now,
    let s := TimeEntriesList.startOfWeek tz now in
    let s0 := NeedsReviewList.startOfWeek tz now in
    s = now - getDay tz now * msPerDay
    /\ getDay tz s = 0
    /\ TimeWithinDay (s + tz) = TimeWithinDay (now + tz)
    /\ s0 = s - TimeWithinDay (now + tz)
    /\ (forall e, s0 <= clockIn e < s ->
          TimeEntriesList.inPeriod tz now (Some "week"%string) e = false)
    /\ (100 <= getFullYear tz now ->
        TimeEntriesList.startOfMonth tz now
        = now - TimeWithinDay (now + tz) - (getDate tz now - 1) * msPerDay).
Proof.
  intros tz now; cbv zeta.
  split; [apply startOfWeek_value|].
  split; [apply startOfWeek_is_sunday|].
  split; [apply startOfWeek_day|].
  split; [apply review_startOfWeek_value|].
  split; [|apply startOfMonth_value].
  intros e [_ He]. unfold TimeEntriesList.inPeriod. cbn [String.eqb Ascii.eqb Bool.eqb].
  apply Z.leb_gt. exact He.
Qed.

(* ------------------------------------------------------------------ *)
(** * The statistics of the review list *)
(* ------------------------------------------------------------------ *)

(** X23. In every reachable state the review list's 'auto-clockouts
    needing review' equals its 'total needing review', which is also the
    total the grouped view reports: only an auto-clockout is ever
    flagged.  And the entries counted are all closed. *)
Theorem review_counts_agree :
  forall tz now db,
    reachable db ->
    NeedsReviewList.autoClockoutsNeedingReview (NeedsReviewList.stats tz now db)
    = NeedsReviewList.totalNeedsReview (NeedsReviewList.stats tz now db)
    /\ NeedsReviewList.totalNeedsReview (NeedsReviewList.stats tz now db)
       = EmployeeGroupedReviews.totalNeedsReview (EmployeeGroupedReviews.totalStats db)
    /\ Forall (fun e => isActive e = false) (filter needsReview (timeEntries db)).
Proof.
  intros tz now db Hr. pose proof (reachable_wellFormed db Hr) as Hwf.
  unfold NeedsReviewList.stats, EmployeeGroupedReviews.totalStats. cbn.
  split; [|split; [reflexivity|]].
  - f_equal. apply filter_ext_in. intros e He.
    rewrite Forall_forall in Hwf. destruct (Hwf e He) as (_ & Hrev & _).
    destruct (needsReview e); [rewrite (Hrev eq_refl)|rewrite andb_false_r]; reflexivity.
  - apply Forall_forall. intros e He. apply filter_In in He. destruct He as [He Hn].
    rewrite Forall_forall in Hwf. destruct (Hwf e He) as (Hopen & _).
    destruct (isActive e) eqn:E; [|reflexivity].
    destruct (Hopen eq_refl) as (_ & _ & _ & Hno & _). congruence.
Qed.

Lemma review_counts_agree_witness :
  NeedsReviewList.autoClockoutsNeedingReview
    (NeedsReviewList.stats 0 (Examples.at_ 15 22) Examples.pendingReviews)
  = NeedsReviewList.totalNeedsReview
      (NeedsReviewList.stats 0 (Examples.at_ 15 22) Examples.pendingReviews)
  /\ NeedsReviewList.totalNeedsReview
       (NeedsReviewList.stats 0 (Examples.at_ 15 22) Examples.pendingReviews) = 2%nat.
Proof.
  split; [|reflexivity].
  apply (review_counts_agree 0 (Examples.at_ 15 22) Examples.pendingReviews).
  apply serve_reachable, reachable_init.
Defined.

(* ------------------------------------------------------------------ *)
(** * Removing an employee *)
(* ------------------------------------------------------------------ *)

Lemma deleteById_admins : forall id l x,
  find (fun e => Nat.eqb (Employee._id e) id) l = Some x ->
  List.length (filter Employee.isAdmin l)
  = ((if Employee.isAdmin x then 1 else 0)
     + List.length (filter Employee.isAdmin (EmployeeRoute.deleteById id l)))%nat.
Proof.
  intros id l x; induction l as [|y l IH]; intro H; cbn [find] in H; [discriminate|].
  cbn [EmployeeRoute.deleteById filter].
  destruct (Nat.eqb (Employee._id y) id).
  - injection H as <-. destruct (Employee.isAdmin y); cbn [List.length]; lia.
  - cbn [filter]. specialize (IH H).
    destruct (Employee.isAdmin y); cbn [List.length]; lia.
Qed.

Lemma deleteById_find : forall id l,
  NoDup (map Employee._id l) ->
  find (fun e => Nat.eqb (Employee._id e) id) (EmployeeRoute.deleteById id l) = None.
Proof.
  intros id l; induction l as [|y l IH]; intro Hnd; [reflexivity|].
  inversion Hnd as [|z l' Hnotin Hnd']; subst.
  cbn [EmployeeRoute.deleteById].
  destruct (Nat.eqb (Employee._id y) id) eqn:E.
  - apply Nat.eqb_eq in E. destruct (find _ l) as [x|] eqn:F; [|reflexivity].
    apply find_some in F. destruct F as [Hin Hx]. apply Nat.eqb_eq in Hx.
    exfalso. apply Hnotin. rewrite E, <- Hx. apply in_map. exact Hin.
  - cbn [find]. rewrite E. apply IH, Hnd'.
Qed.

Lemma deleteById_others : forall id l other,
  other <> id ->
  find (fun e => Nat.eqb (Employee._id e) other) (EmployeeRoute.deleteById id l)
  = find (fun e => Nat.eqb (Employee._id e) other) l.
Proof.
  intros id l other Hne; induction l as [|y l IH]; [reflexivity|].
  cbn [EmployeeRoute.deleteById find].
  destruct (Nat.eqb (Employee._id y) id) eqn:E.
  - apply Nat.eqb_eq in E.
    replace (Nat.eqb (Employee._id y) other) with false; [reflexivity|].
    symmetry. apply Nat.eqb_neq. congruence.
  - cbn [find]. destruct (Nat.eqb (Employee._id y) other); [reflexivity|exact IH].
Qed.

Lemma DELETE_removes : forall id db db1,
  NoDup (map Employee._id (employees db)) ->
  EmployeeRoute.DELETE id db = (inr tt, db1) ->
  timeEntries db1 = timeEntries db /\ Employee_findById id db1 = None.
Proof.
  intros id db db1 Hnd. unfold EmployeeRoute.DELETE.
  destruct (Employee_findById id db) as [x|]; [|discriminate].
  destruct (Employee.isAdmin x && (EmployeeRoute.adminCount db <=? 1)%nat);
    [discriminate|].
  intro H. injection H as <-. split; [reflexivity|].
  unfold Employee_findById. cbn [employees]. apply deleteById_find, Hnd.
Qed.

(** X24. Removing an employee never removes the last administrator and
    never touches a time entry: after the call, whatever its answer, the
    time entries are the same and an administrator is left if there was
    one.  A successful call removes the employee with that id and no
    other, so the entries of that employee stay behind with a reference
    that no longer resolves. *)
Theorem delete_keeps_entries_and_an_admin :
  forall id db,
    let '(r, db') := EmployeeRoute.DELETE id db in
    timeEntries db' = timeEntries db
    /\ ((1 <= EmployeeRoute.adminCount db)%nat -> (1 <= EmployeeRoute.adminCount db')%nat)
    /\ (r = inr tt ->
        (forall other, other <> id ->
           Employee_findById other db' = Employee_findById other db)
        /\ (NoDup (map Employee._id (employees db)) -> Employee_findById id db' = None)
        /\ S (List.length (employees db')) = List.length (employees db))
    /\ (r <> inr tt -> db' = db).
Proof.
  intros id db. unfold EmployeeRoute.DELETE.
  destruct (Employee_findById id db) as [x|] eqn:F.
  - destruct (Employee.isAdmin x && (EmployeeRoute.adminCount db <=? 1)%nat) eqn:E.
    + repeat split; auto; discriminate.
    + split; [reflexivity|]. split; [|split; [|congruence]].
      * unfold EmployeeRoute.adminCount. cbn [employees].
        pose proof (deleteById_admins id (employees db) x F) as Hc.
        intro H1. destruct (Employee.isAdmin x); [|lia].
        cbn [andb] in E. apply Nat.leb_gt in E.
        unfold EmployeeRoute.adminCount in E. lia.
      * intros _. split; [|split].
        -- intros other Hne. unfold Employee_findById. cbn [employees].
           apply deleteById_others, Hne.
        -- intro Hnd. unfold Employee_findById. cbn [employees].
           apply deleteById_find, Hnd.
        -- cbn [employees]. clear E. unfold Employee_findById in F.
           induction (employees db) as [|y l IH]; cbn [find] in F; [discriminate|].
           cbn [EmployeeRoute.deleteById].
           destruct (Nat.eqb (Employee._id y) id); [reflexivity|].
           cbn [List.length]. f_equal. apply IH, F.
  - repeat split; auto; discriminate.
Qed.

(** X25. When an employee is removed while clocked in, the next bulk
    run (without faults, ids unique) closes the entry left behind and
    counts it, and reports the run as failed. *)
Theorem bulk_run_after_removing_a_clocked_in_employee :
  forall tz now target db id db1 e r db2,
    NoDup (map _id (timeEntries db)) ->
    NoDup (map Employee._id (employees db)) ->
    findActiveEntry id (timeEntries db) = Some e ->
    EmployeeRoute.DELETE id db = (inr tt, db1) ->
    AutoClockout.performAutoClockout tz AutoClockout.noFaults now target false db1
    = (r, db2) ->
    AutoClockout.success r = false
    /\ AutoClockout.clockedOutCount r = List.length (filter isActive (timeEntries db))
    /\ In (applyUpdate now
             (AutoClockout.autoClockoutUpdate (AutoClockout.getAutoClockoutTime tz target)) e)
          (timeEntries db2).
Proof.
  intros tz now target db id db1 e r db2 Hnd Hemps Ha Hdel Hrun.
  destruct (DELETE_removes id db db1 Hemps Hdel) as (Hes & Hgone).
  destruct (findActiveEntry_Some _ _ _ Ha) as (Hin & Hid & Hact).
  rewrite <- Hes in Hnd, Hin.
  assert (Hmissing : Employee_findById (employeeId e) db1 = None)
    by (rewrite Hid; exact Hgone).
  destruct (bulk_run_fault_free _ _ _ _ _ _ Hnd Hrun) as (He & _ & Hc & Herr & Hs).
  rewrite Hes in Hc.
  split; [|split; [exact Hc|]].
  - rewrite Hs.
    assert (Hne : In (AutoClockout.FailedToAutoClockout None NullEmployeeTypeError)
                     (AutoClockout.errors r)).
    { rewrite Herr. apply in_map_iff. exists e. split; [reflexivity|].
      apply filter_In. split; [apply filter_In; auto|]. rewrite Hmissing. reflexivity. }
    destruct (AutoClockout.errors r); [destruct Hne|reflexivity].
  - rewrite He. apply in_map_iff. exists e. rewrite Hact. auto.
Qed.

Lemma bulk_run_after_removing_a_clocked_in_employee_witness :
  match EmployeeRoute.DELETE 3%nat Scenarios.twoOpen with
  | (inr _, db1) =>
      let out := AutoClockout.performAutoClockout 0 AutoClockout.noFaults
                   (Examples.at_ 1 21) (Examples.at_ 1 21) false db1 in
      AutoClockout.success (fst out) = false
      /\ AutoClockout.clockedOutCount (fst out) = 2%nat
  | (inl _, _) => False
  end.
Proof.
  destruct (EmployeeRoute.DELETE 3%nat Scenarios.twoOpen) as [[err|[]] db1] eqn:E;
    [vm_compute in E; discriminate|].
  cbv zeta.
  assert (Hnd : NoDup (map _id (timeEntries Scenarios.twoOpen))) by distinct_ids.
  assert (Hemps : NoDup (map Employee._id (employees Scenarios.twoOpen)))
    by distinct_ids.
  destruct (bulk_run_after_removing_a_clocked_in_employee 0 (Examples.at_ 1 21)
              (Examples.at_ 1 21) Scenarios.twoOpen 3%nat db1
              (newTimeEntry 11%nat 3%nat (Examples.at_ 1 10)) _ _
              Hnd Hemps eq_refl E (surjective_pairing _)) as (H1 & H2 & _).
  split; [exact H1|exact H2].
Defined.

(* ------------------------------------------------------------------ *)
(** * Months, and the weeks of the report *)
(* ------------------------------------------------------------------ *)

Lemma daysFromCivil_cases : forall y m d,
  1 <= m <= 12 ->
  daysFromCivil y m d
  = (if m <=? 2 then y - 1 else y) * 365
    + (if m <=? 2 then y - 1 else y) / 4
    - (if m <=? 2 then y - 1 else y) / 100
    + (if m <=? 2 then y - 1 else y) / 400
    + (153 * (if 2 <? m then m - 3 else m + 9) + 2) / 5 + d - 1 - 719468.
Proof.
  intros y m d Hm. unfold daysFromCivil. cbv zeta.
  generalize (if m <=? 2 then y - 1 else y). intro y'.
  generalize ((153 * (if 2 <? m then m - 3 else m + 9) + 2) / 5). intro c.
  Z.div_mod_to_equations. lia.
Qed.

Lemma firstOfMonth_step : forall i,
  28 <= firstOfMonth (i + 1) - firstOfMonth i <= 31.
Proof.
  intro i. unfold firstOfMonth.
  assert (Hm : 0 <= i mod 12 < 12) by (apply Z.mod_pos_bound; lia).
  assert (Hcases : (i mod 12 < 11 /\ (i + 1) / 12 = i / 12 /\ (i + 1) mod 12 = i mod 12 + 1)
                   \/ (i mod 12 = 11 /\ (i + 1) / 12 = i / 12 + 1 /\ (i + 1) mod 12 = 0))
    by (Z.div_mod_to_equations; lia).
  rewrite !daysFromCivil_cases by lia.
  destruct Hcases as [(Hlt & -> & ->)|(Heq & -> & ->)].
  - generalize dependent (i mod 12). intros m Hm Hlt. generalize (i / 12). intro y.
    assert (Hm' : m = 0 \/ m = 1 \/ m = 2 \/ m = 3 \/ m = 4 \/ m = 5 \/ m = 6 \/ m = 7
                  \/ m = 8 \/ m = 9 \/ m = 10) by lia.
    destruct Hm' as [->|[->|[->|[->|[->|[->|[->|[->|[->|[->| ->]]]]]]]]]]; cbn;
      Z.div_mod_to_equations; lia.
  - rewrite Heq. generalize (i / 12). intro y. cbn. Z.div_mod_to_equations. lia.
Qed.

Lemma doe_below_next_year : forall doe,
  0 <= doe < 146097 ->
  let yoe := (doe - doe / 1460 + doe / 36524 - doe / 146096) / 365 in
  yoe < 399 ->
  doe < 365 * (yoe + 1) + (yoe + 1) / 4 - (yoe + 1) / 100.
Proof. intros doe H yoe Hy. subst yoe. Z.div_mod_to_equations. lia. Qed.

Lemma day_below_next_month : forall doy,
  0 <= doy <= 365 ->
  let mp := (5 * doy + 2) / 153 in
  mp < 11 -> doy < (153 * (mp + 1) + 2) / 5.
Proof. intros doy H mp Hmp. subst mp. Z.div_mod_to_equations. lia. Qed.

Lemma firstOfMonth_of_civil : forall y m,
  1 <= m <= 12 -> firstOfMonth (12 * y + m - 1) = daysFromCivil y m 1.
Proof.
  intros y m Hm. unfold firstOfMonth.
  replace ((12 * y + m - 1) / 12) with y by (Z.div_mod_to_equations; lia).
  replace ((12 * y + m - 1) mod 12 + 1) with m by (Z.div_mod_to_equations; lia).
  reflexivity.
Qed.

Lemma civil_in_month : forall z y m d,
  civilFromDays z = (y, m, d) ->
  1 <= m <= 12 /\ 1 <= d
  /\ z = firstOfMonth (12 * y + m - 1) + d - 1
  /\ z < firstOfMonth (12 * y + m).
Proof.
  intros z y m d H.
  destruct (civil_round_trip z y m d H) as (Hm & Hd & Hz).
  split; [exact Hm|]. split; [lia|]. split.
  { rewrite firstOfMonth_of_civil by exact Hm.
    rewrite <- Hz. unfold daysFromCivil. cbv zeta. lia. }
  revert H. unfold civilFromDays. cbv zeta.
  remember (z + 719468) as z' eqn:Ez.
  remember (z' / 146097) as era eqn:Eera.
  remember (z' - era * 146097) as doe eqn:Edoe.
  assert (Hdoe : 0 <= doe < 146097)
    by (subst doe era; Z.div_mod_to_equations; lia).
  pose proof (yoe_bounds doe Hdoe) as Hyoe.
  pose proof (doy_bounds doe Hdoe) as Hdoy. cbv zeta in Hdoy.
  pose proof (doe_below_next_year doe Hdoe) as Hnext. cbv zeta in Hnext.
  remember ((doe - doe / 1460 + doe / 36524 - doe / 146096) / 365) as yoe eqn:Eyoe.
  remember (doe - (365 * yoe + yoe / 4 - yoe / 100)) as doy eqn:Edoy.
  pose proof (day_below_next_month doy Hdoy) as Hmonth. cbv zeta in Hmonth.
  remember ((5 * doy + 2) / 153) as mp eqn:Emp.
  assert (Hmp : 0 <= mp <= 11) by (subst mp; Z.div_mod_to_equations; lia).
  remember ((153 * mp + 2) / 5) as c eqn:Ec.
  intro H; injection H as Hy Hm' Hdd.
  assert (Hnextfirst :
            firstOfMonth (12 * y + m)
            = (if mp <? 11 then yoe + era * 400 else yoe + era * 400 + 1) * 365
              + (if mp <? 11 then yoe + era * 400 else yoe + era * 400 + 1) / 4
              - (if mp <? 11 then yoe + era * 400 else yoe + era * 400 + 1) / 100
              + (if mp <? 11 then yoe + era * 400 else yoe + era * 400 + 1) / 400
              + (if mp <? 11 then (153 * (mp + 1) + 2) / 5 else 0) - 719468).
  { assert (Hmcase : (mp < 10 /\ m = mp + 3 /\ y = yoe + era * 400)
                     \/ (10 <= mp /\ m = mp - 9 /\ y = yoe + era * 400 + 1)).
    { subst m y. destruct (mp <? 10) eqn:E.
      - apply Z.ltb_lt in E. left.
        replace (mp + 3 <=? 2) with false by (symmetry; apply Z.leb_gt; lia). lia.
      - apply Z.ltb_ge in E. right.
        replace (mp - 9 <=? 2) with true by (symmetry; apply Z.leb_le; lia). lia. }
    clear Hy Hm'.
    assert (Hidx : (m < 12 /\ firstOfMonth (12 * y + m) = daysFromCivil y (m + 1) 1)
                   \/ (m = 12 /\ firstOfMonth (12 * y + m) = daysFromCivil (y + 1) 1 1)).
    { destruct (Z.eq_dec m 12) as [->|Hne].
      - right. split; [reflexivity|].
        replace (12 * y + 12) with (12 * (y + 1) + 1 - 1) by lia.
        apply firstOfMonth_of_civil. lia.
      - left. split; [lia|].
        replace (12 * y + m) with (12 * y + (m + 1) - 1) by lia.
        apply firstOfMonth_of_civil. lia. }
    destruct Hidx as [[Hlt ->]|[Heq ->]]; rewrite daysFromCivil_cases by lia.
    - assert (Hmp' : mp = 0 \/ mp = 1 \/ mp = 2 \/ mp = 3 \/ mp = 4 \/ mp = 5 \/ mp = 6
                     \/ mp = 7 \/ mp = 8 \/ mp = 10 \/ mp = 11) by lia.
      clear Ec Emp Hmonth Hdd.
      destruct Hmp' as [->|[->|[->|[->|[->|[->|[->|[->|[->|[->| ->]]]]]]]]]];
        destruct Hmcase as [(? & -> & ->)|(? & -> & ->)]; try lia; cbn;
        repeat match goal with
               | |- context [?a + 1 - 1] => replace (a + 1 - 1) with a by lia
               end; lia.
    - destruct Hmcase as [(? & Hm9 & ->)|(? & ? & ->)]; [|lia].
      clear Ec Emp Hmonth Hdd.
      assert (H9 : mp = 9) by lia. rewrite H9. cbn.
      replace (yoe + era * 400 + 1 - 1) with (yoe + era * 400) by lia. lia. }
  rewrite Hnextfirst.
  assert (Hzc : z = (yoe + era * 400) * 365 + (yoe + era * 400) / 4
                    - (yoe + era * 400) / 100 + (yoe + era * 400) / 400
                    + doy - 719468).
  { clear - Ez Eera Edoe Edoy Hyoe. Z.div_mod_to_equations. lia. }
  rewrite Hzc. clear Hzc Hnextfirst.
  destruct (mp <? 11) eqn:E11; cbv iota.
  - apply Z.ltb_lt in E11. specialize (Hmonth E11).
    clear - Hmonth.
    generalize dependent ((153 * (mp + 1) + 2) / 5). intros c1 Hc1.
    generalize ((yoe + era * 400) * 365 + (yoe + era * 400) / 4
                - (yoe + era * 400) / 100 + (yoe + era * 400) / 400).
    intro k. lia.
  - clear Hmonth. destruct (Z.eq_dec yoe 399) as [Heq|Hne].
    + clear - Hdoy Heq. subst yoe. Z.div_mod_to_equations. lia.
    + specialize (Hnext ltac:(lia)). clear - Hnext Edoy Hyoe Hne.
      Z.div_mod_to_equations. lia.
Qed.

Lemma firstOfMonth_mono : forall i j, i < j -> firstOfMonth i < firstOfMonth j.
Proof.
  intros i j Hij.
  assert (H : forall n, firstOfMonth i < firstOfMonth (i + 1 + Z.of_nat n)).
  { induction n as [|n IH].
    - pose proof (firstOfMonth_step i). replace (i + 1 + Z.of_nat 0) with (i + 1) by lia. lia.
    - pose proof (firstOfMonth_step (i + 1 + Z.of_nat n)).
      replace (i + 1 + Z.of_nat (S n)) with (i + 1 + Z.of_nat n + 1) by lia. lia. }
  specialize (H (Z.to_nat (j - i - 1))).
  replace (i + 1 + Z.of_nat (Z.to_nat (j - i - 1))) with j in H by lia. exact H.
Qed.

Lemma month_of_day : forall i z,
  firstOfMonth i <= z < firstOfMonth (i + 1) ->
  civilFromDays z = (i / 12, i mod 12 + 1, z - firstOfMonth i + 1).
Proof.
  intros i z Hz. destruct (civilFromDays z) as [[y m] d] eqn:E.
  destruct (civil_in_month z y m d E) as (Hm & Hd & Hlo & Hhi).
  assert (Hi : 12 * y + m - 1 = i).
  { destruct (Z.lt_trichotomy (12 * y + m - 1) i) as [Hlt|[Heq|Hgt]]; [|exact Heq|].
    - assert (12 * y + m <= i) by lia.
      destruct (Z.eq_dec (12 * y + m) i) as [He|Hne].
      + rewrite He in Hhi. lia.
      + pose proof (firstOfMonth_mono (12 * y + m) i ltac:(lia)). lia.
    - assert (i + 1 <= 12 * y + m - 1) by lia.
      destruct (Z.eq_dec (i + 1) (12 * y + m - 1)) as [He|Hne].
      + rewrite He in Hz. lia.
      + pose proof (firstOfMonth_mono (i + 1) (12 * y + m - 1) ltac:(lia)). lia. }
  subst i.
  replace ((12 * y + m - 1) / 12) with y by (Z.div_mod_to_equations; lia).
  replace ((12 * y + m - 1) mod 12 + 1) with m by (Z.div_mod_to_equations; lia).
  f_equal. lia.
Qed.

Lemma MakeDay_firstOfMonth : forall y mi d,
  MakeDay y mi d = firstOfMonth (12 * y + mi) + d - 1.
Proof.
  intros y mi d. unfold MakeDay, firstOfMonth. cbv zeta.
  replace ((12 * y + mi) / 12) with (y + mi / 12) by (Z.div_mod_to_equations; lia).
  replace ((12 * y + mi) mod 12) with (mi mod 12) by (Z.div_mod_to_equations; lia).
  reflexivity.
Qed.

Lemma yearOf_yearOf : forall yr, yearOf (yearOf yr) = yearOf yr.
Proof.
  intro yr. unfold yearOf.
  destruct ((0 <=? yr) && (yr <=? 99)) eqn:E.
  - apply andb_prop in E. destruct E as [E1 E2].
    apply Z.leb_le in E1. apply Z.leb_le in E2.
    replace ((0 <=? 1900 + yr) && (1900 + yr <=? 99)) with false; [reflexivity|].
    symmetry. apply andb_false_iff. right. apply Z.leb_gt. lia.
  - rewrite E. reflexivity.
Qed.

Lemma newDate_midnight : forall tz yr mi d,
  newDate tz yr mi d 0 0 0 0
  = (firstOfMonth (12 * yearOf yr + mi) + d - 1) * msPerDay - tz.
Proof.
  intros tz yr mi d. unfold newDate. cbv zeta. fold (yearOf yr).
  rewrite MakeDay_firstOfMonth. unfold MakeTime. lia.
Qed.

Lemma local_day_bounds : forall tz t D,
  D * msPerDay - tz <= t < (D + 1) * msPerDay - tz <-> Day (t + tz) = D.
Proof.
  intros tz t D. unfold Day, msPerDay. split; intro H; Z.div_mod_to_equations; lia.
Qed.

Lemma local_civil : forall tz t i,
  firstOfMonth i <= Day (t + tz) < firstOfMonth (i + 1) ->
  getFullYear tz t = i / 12
  /\ getMonth tz t = i mod 12
  /\ getDate tz t = Day (t + tz) - firstOfMonth i + 1.
Proof.
  intros tz t i H. unfold getFullYear, getMonth, getDate.
  rewrite (month_of_day i _ H). repeat split. lia.
Qed.

Lemma dayLoop_days : forall tz body n fuel d,
  (n <= fuel)%nat ->
  forall weekEnd,
    d + (Z.of_nat n - 1) * msPerDay <= weekEnd < d + Z.of_nat n * msPerDay ->
    EmployeeReport.dayLoop fuel tz d weekEnd body
    = map (fun j => body (d + Z.of_nat j * msPerDay)) (seq 0 n).
Proof.
  intros tz body n; induction n as [|n IH]; intros fuel d Hn weekEnd Hw.
  - destruct fuel; cbn [EmployeeReport.dayLoop seq map]; [reflexivity|].
    replace (d <=? weekEnd) with false; [reflexivity|].
    symmetry. apply Z.leb_gt. unfold msPerDay in *. lia.
  - destruct fuel as [|fuel]; [lia|]. cbn [EmployeeReport.dayLoop seq map].
    replace (d <=? weekEnd) with true
      by (symmetry; apply Z.leb_le; unfold msPerDay in *; lia).
    replace (d + Z.of_nat 0 * msPerDay) with d by lia. f_equal.
    rewrite (setDate_plus_days tz d 1).
    rewrite (IH fuel (d + 1 * msPerDay) ltac:(lia) weekEnd)
      by (unfold msPerDay in *; lia).
    rewrite <- seq_shift, map_map. apply map_ext. intro j. f_equal. lia.
Qed.

Lemma month_window : forall tz yr m t,
  1 <= m <= 12 ->
  newDate tz yr (m - 1) 1 0 0 0 0 <= t
  < newDate tz yr (m - 1) 1 0 0 0 0 + daysInMonth yr m * msPerDay ->
  getFullYear tz t = yearOf yr
  /\ getMonth tz t + 1 = m
  /\ getDate tz t = (t - newDate tz yr (m - 1) 1 0 0 0 0) / msPerDay + 1
  /\ 1 <= getDate tz t <= daysInMonth yr m.
Proof.
  intros tz yr m t Hm. rewrite newDate_midnight. unfold daysInMonth.
  set (i := 12 * yearOf yr + (m - 1)).
  replace (12 * yearOf yr + m - 1) with i by (subst i; lia).
  replace (12 * yearOf yr + m) with (i + 1) by (subst i; lia).
  replace (firstOfMonth i + 1 - 1) with (firstOfMonth i) by lia.
  intro Ht.
  assert (Hday : firstOfMonth i <= Day (t + tz) < firstOfMonth (i + 1)).
  { unfold Day, msPerDay in *. Z.div_mod_to_equations. lia. }
  destruct (local_civil tz t i Hday) as (Hy & Hmo & Hd).
  rewrite Hy, Hmo, Hd.
  replace (i / 12) with (yearOf yr) by (subst i; Z.div_mod_to_equations; lia).
  replace (i mod 12) with (m - 1) by (subst i; Z.div_mod_to_equations; lia).
  split; [reflexivity|]. split; [lia|]. split; [|lia].
  unfold Day, msPerDay in *. Z.div_mod_to_equations. lia.
Qed.

(* ------------------------------------------------------------------ *)
(** * Sums of hours *)
(* ------------------------------------------------------------------ *)

Lemma fold_Qplus_from : forall l a, (fold_left Qplus l a == a + sumQ l)%Q.
Proof.
  unfold sumQ. induction l as [|x l IH]; intro a; cbn [fold_left].
  - ring.
  - rewrite (IH (a + x)%Q), (IH (0 + x)%Q). ring.
Qed.

Lemma sumQ_cons : forall x l, (sumQ (x :: l) == x + sumQ l)%Q.
Proof.
  intros x l. unfold sumQ at 1. cbn [fold_left]. rewrite fold_Qplus_from. ring.
Qed.

Lemma sumQ_app : forall l l', (sumQ (l ++ l') == sumQ l + sumQ l')%Q.
Proof.
  induction l as [|x l IH]; intro l'; cbn [app].
  - unfold sumQ at 2. cbn [fold_left]. ring.
  - rewrite !sumQ_cons, IH. ring.
Qed.

Lemma sumQ_perm : forall l l', Permutation l l' -> (sumQ l == sumQ l')%Q.
Proof.
  induction 1 as [|x l l' _ IH|x y l|l l' l'' _ IH1 _ IH2].
  - reflexivity.
  - rewrite !sumQ_cons, IH. reflexivity.
  - rewrite !sumQ_cons. ring.
  - rewrite IH1. exact IH2.
Qed.

Section SumFacts.
Context {A : Type}.

Lemma sumQ_ext : forall (f g : A -> Q) l,
  (forall x, In x l -> (f x == g x)%Q) -> (sumQ (map f l) == sumQ (map g l))%Q.
Proof.
  intros f g; induction l as [|x l IH]; intro H; cbn [map]; [reflexivity|].
  rewrite !sumQ_cons, (H x (or_introl eq_refl)), IH; [reflexivity|].
  intros y Hy. apply H. right. exact Hy.
Qed.

Lemma sumQ_nonneg : forall (f : A -> Q) l,
  (forall x, In x l -> (0 <= f x)%Q) -> (0 <= sumQ (map f l))%Q.
Proof.
  intros f; induction l as [|x l IH]; intro H; cbn [map].
  - unfold sumQ. cbn. apply Qle_refl.
  - rewrite sumQ_cons.
    replace 0%Q with (0 + 0)%Q by reflexivity.
    apply Qplus_le_compat; [apply H; left; reflexivity|].
    apply IH. intros y Hy. apply H. right. exact Hy.
Qed.

Lemma sumQ_filter : forall (f : A -> Q) (p : A -> bool) l,
  (forall x, In x l -> p x = false -> (f x == 0)%Q) ->
  (sumQ (map f (filter p l)) == sumQ (map f l))%Q.
Proof.
  intros f p; induction l as [|x l IH]; intro H; cbn [filter map]; [reflexivity|].
  assert (IH' : (sumQ (map f (filter p l)) == sumQ (map f l))%Q).
  { apply IH. intros y Hy. apply H. right. exact Hy. }
  destruct (p x) eqn:E; cbn [map]; rewrite !sumQ_cons, IH'; [reflexivity|].
  rewrite (H x (or_introl eq_refl) E). ring.
Qed.

Lemma sumQ_flat_map : forall {B : Type} (f : B -> Q) (g : A -> list B) l,
  (sumQ (map f (flat_map g l)) == sumQ (map (fun x => sumQ (map f (g x))) l))%Q.
Proof.
  intros B f g; induction l as [|x l IH]; cbn [flat_map map]; [reflexivity|].
  rewrite map_app, sumQ_app, sumQ_cons, IH. reflexivity.
Qed.

End SumFacts.

(** Summing bucket by bucket: when the keys listed are distinct and every
    element has its key among them, the sums of the buckets add up to
    the sum of all. *)
Section SumByKey.
Context {K V : Type} (eqb : K -> K -> bool).
Hypothesis eqb_eq : forall a b, eqb a b = true <-> a = b.

Lemma bucketGet_push : forall k k' (v : V) m,
  bucketGet eqb k (bucketPush eqb k' v m)
  = bucketGet eqb k m ++ (if eqb k' k then [v] else []).
Proof.
  intros k k' v; induction m as [|[k2 vs] m IH]; cbn [bucketPush bucketGet].
  - destruct (eqb k' k); reflexivity.
  - destruct (eqb k2 k') eqn:E2; cbn [bucketGet].
    + apply eqb_eq in E2. subst k2.
      destruct (eqb k' k); [reflexivity|]. rewrite app_nil_r. reflexivity.
    + destruct (eqb k2 k) eqn:E; [|exact IH].
      apply eqb_eq in E. subst k2.
      destruct (eqb k' k) eqn:E3; [|rewrite app_nil_r; reflexivity].
      apply eqb_eq in E3. subst k'.
      assert (eqb k k = true) by (apply eqb_eq; reflexivity). congruence.
Qed.

Lemma bucketGet_bucketsOf : forall (key : V -> K) k l,
  bucketGet eqb k (bucketsOf eqb key l) = filter (fun v => eqb (key v) k) l.
Proof.
  intros key k l. unfold bucketsOf.
  assert (H : forall m,
            bucketGet eqb k (fold_left (fun m v => bucketPush eqb (key v) v m) l m)
            = bucketGet eqb k m ++ filter (fun v => eqb (key v) k) l).
  { induction l as [|v l IH]; intro m; cbn [fold_left filter].
    - rewrite app_nil_r. reflexivity.
    - rewrite IH, bucketGet_push, <- app_assoc.
      destruct (eqb (key v) k); reflexivity. }
  rewrite H. reflexivity.
Qed.

Lemma sumQ_one_key : forall (x : Q) a ks,
  NoDup ks -> In a ks ->
  (sumQ (map (fun k => if eqb a k then x else 0%Q) ks) == x)%Q.
Proof.
  intros x a; induction ks as [|k ks IH]; intros Hnd Hin; [destruct Hin|].
  inversion Hnd as [|k0 ks0 Hnotin Hnd']; subst. cbn [map]. rewrite sumQ_cons.
  destruct Hin as [->|Hin].
  - replace (eqb a a) with true by (symmetry; apply eqb_eq; reflexivity).
    rewrite (sumQ_ext _ (fun _ => 0%Q)).
    + assert (Hz : forall l : list K, (sumQ (map (fun _ => 0%Q) l) == 0)%Q).
      { induction l as [|y l IHl]; cbn [map]; [reflexivity|].
        rewrite sumQ_cons, IHl. ring. }
      rewrite Hz. ring.
    + intros y Hy. destruct (eqb a y) eqn:E; [|reflexivity].
      apply eqb_eq in E. subst y. contradiction.
  - replace (eqb a k) with false.
    + rewrite (IH Hnd' Hin). ring.
    + symmetry. destruct (eqb a k) eqn:E; [|reflexivity].
      apply eqb_eq in E. subst k. contradiction.
Qed.

Lemma sumQ_by_key : forall (key : V -> K) (h : V -> Q) ks l,
  NoDup ks ->
  (forall v, In v l -> In (key v) ks) ->
  (sumQ (map (fun k => sumQ (map h (filter (fun v => eqb (key v) k) l))) ks)
   == sumQ (map h l))%Q.
Proof.
  intros key h ks l Hnd; induction l as [|v l IH]; intro Hin; cbn [filter map].
  - assert (Hz : forall l : list K, (sumQ (map (fun _ => sumQ []) l) == 0)%Q).
    { induction l as [|y l IHl]; cbn [map]; [reflexivity|].
      rewrite sumQ_cons, IHl. reflexivity. }
    rewrite Hz. reflexivity.
  - rewrite sumQ_cons, <- IH by (intros y Hy; apply Hin; right; exact Hy).
    rewrite <- (sumQ_one_key (h v) (key v) ks Hnd (Hin v (or_introl eq_refl))) at 1.
    assert (Hadd : forall (f g : K -> Q) l0,
              (sumQ (map f l0) + sumQ (map g l0)
               == sumQ (map (fun k => f k + g k) l0))%Q).
    { intros f g; induction l0 as [|y l0 IHl]; cbn [map]; [reflexivity|].
      rewrite !sumQ_cons, <- IHl. ring. }
    rewrite Hadd. apply sumQ_ext. intros k _.
    destruct (eqb (key v) k); cbn [map]; [rewrite sumQ_cons; reflexivity|ring].
Qed.

End SumByKey.

(* ------------------------------------------------------------------ *)
(** * The weeks of a month *)
(* ------------------------------------------------------------------ *)

Lemma daysInMonth_bounds : forall yr m, 28 <= daysInMonth yr m <= 31.
Proof.
  intros yr m. unfold daysInMonth.
  pose proof (firstOfMonth_step (12 * yearOf yr + m - 1)) as H.
  replace (12 * yearOf yr + m - 1 + 1) with (12 * yearOf yr + m) in H by lia. lia.
Qed.

Lemma monthEnd_value : forall tz yr m,
  newDate tz yr m 0 0 0 0 0
  = newDate tz yr (m - 1) 1 0 0 0 0 + (daysInMonth yr m - 1) * msPerDay.
Proof.
  intros tz yr m. rewrite !newDate_midnight. unfold daysInMonth.
  replace (12 * yearOf yr + (m - 1)) with (12 * yearOf yr + m - 1) by lia. lia.
Qed.

Lemma weeksInMonth_value : forall tz yr m,
  EmployeeReport.getWeekNumber (newDate tz yr m 0 0 0 0 0) (newDate tz yr (m - 1) 1 0 0 0 0)
  = (if daysInMonth yr m =? 28 then 4 else 5).
Proof.
  intros tz yr m. pose proof (daysInMonth_bounds yr m) as Hlen.
  rewrite monthEnd_value. unfold EmployeeReport.getWeekNumber. cbv zeta.
  replace (newDate tz yr (m - 1) 1 0 0 0 0 + (daysInMonth yr m - 1) * msPerDay
           - newDate tz yr (m - 1) 1 0 0 0 0)
    with ((daysInMonth yr m - 1) * msPerDay) by lia.
  rewrite Z.div_mul by (unfold msPerDay; lia).
  destruct (daysInMonth yr m =? 28) eqn:E.
  - apply Z.eqb_eq in E. rewrite E. reflexivity.
  - apply Z.eqb_neq in E. Z.div_mod_to_equations. lia.
Qed.

Lemma weekRange_value : forall tz yr m w,
  1 <= m <= 12 ->
  EmployeeReport.getWeekDateRange tz w (newDate tz yr (m - 1) 1 0 0 0 0)
  = (newDate tz yr (m - 1) 1 0 0 0 0 + (w - 1) * 7 * msPerDay,
     Z.min (newDate tz yr (m - 1) 1 0 0 0 0 + ((w - 1) * 7 + 6) * msPerDay)
           (newDate tz yr m 0 0 0 0 0)).
Proof.
  intros tz yr m w Hm. pose proof (daysInMonth_bounds yr m) as Hlen.
  unfold EmployeeReport.getWeekDateRange. cbv zeta.
  rewrite (setDate_plus_days tz _ ((w - 1) * 7)).
  rewrite (setDate_plus_days tz _ 6).
  destruct (month_window tz yr m (newDate tz yr (m - 1) 1 0 0 0 0) Hm)
    as (Hy & Hmo & _); [unfold msPerDay; lia|].
  rewrite Hy. replace (getMonth tz (newDate tz yr (m - 1) 1 0 0 0 0) + 1) with m.
  rewrite (newDate_midnight tz (yearOf yr)), yearOf_yearOf,
    <- (newDate_midnight tz yr m 0).
  f_equal. generalize (newDate tz yr m 0 0 0 0 0). intro me.
  generalize (newDate tz yr (m - 1) 1 0 0 0 0). intro ms. unfold msPerDay.
  destruct (Z.ltb_spec me (ms + (w - 1) * 7 * 86400000 + 6 * 86400000));
    [rewrite Z.min_r by lia|rewrite Z.min_l by lia]; lia.
Qed.

Lemma week_days : forall tz yr m w body,
  1 <= w <= (if daysInMonth yr m =? 28 then 4 else 5) ->
  EmployeeReport.dayLoop 32 tz
    (newDate tz yr (m - 1) 1 0 0 0 0 + (w - 1) * 7 * msPerDay)
    (Z.min (newDate tz yr (m - 1) 1 0 0 0 0 + ((w - 1) * 7 + 6) * msPerDay)
           (newDate tz yr m 0 0 0 0 0))
    body
  = map (fun j => body (newDate tz yr (m - 1) 1 0 0 0 0
                        + ((w - 1) * 7 + Z.of_nat j) * msPerDay))
        (seq 0 (Z.to_nat (Z.min 7 (daysInMonth yr m - (w - 1) * 7)))).
Proof.
  intros tz yr m w body Hw. pose proof (daysInMonth_bounds yr m) as Hlen.
  rewrite monthEnd_value.
  generalize dependent (newDate tz yr (m - 1) 1 0 0 0 0). intro ms.
  assert (Hw5 : 1 <= w <= 5) by (destruct (daysInMonth yr m =? 28); lia).
  assert (Hw28 : daysInMonth yr m = 28 -> w <= 4).
  { intro H28. rewrite H28 in Hw. cbn in Hw. lia. }
  rewrite (dayLoop_days tz body (Z.to_nat (Z.min 7 (daysInMonth yr m - (w - 1) * 7))) 32).
  - apply map_ext. intro j. f_equal. lia.
  - lia.
  - unfold msPerDay. lia.
Qed.

(** X26. On a host whose zone is a fixed offset from UTC (no daylight
    saving), the report's weeks are seven-day windows counted from the
    first of the month, not calendar weeks: an instant of the month is
    in week (day of month - 1) div 7 + 1, so days 1 to 7 form week 1 and
    days 29 to 31 week 5; a month has four such weeks when it has 28
    days and five otherwise; week [w] runs from day 7(w-1)+1 to day 7w or
    to the last day of the month, whichever comes first, and the day
    loop lists these days at local midnight, one after the other. *)
Theorem report_weeks_are_windows_from_the_first :
  forall tz yr m,
    1 <= m <= 12 ->
    let monthStart := newDate tz yr (m - 1) 1 0 0 0 0 in
    let monthEnd := newDate tz yr m 0 0 0 0 0 in
    let len := daysInMonth yr m in
    28 <= len <= 31
    /\ monthEnd = monthStart + (len - 1) * msPerDay
    /\ EmployeeReport.getWeekNumber monthEnd monthStart = (if len =? 28 then 4 else 5)
    /\ (forall t, monthStart <= t < monthStart + len * msPerDay ->
          getMonth tz t + 1 = m
          /\ EmployeeReport.getWeekNumber t monthStart = (getDate tz t - 1) / 7 + 1)
    /\ (forall w, 1 <= w ->
          EmployeeReport.getWeekDateRange tz w monthStart
          = (monthStart + (w - 1) * 7 * msPerDay,
             Z.min (monthStart + ((w - 1) * 7 + 6) * msPerDay) monthEnd))
    /\ (forall w body, 1 <= w <= (if len =? 28 then 4 else 5) ->
          let '(weekStart, weekEnd) := EmployeeReport.getWeekDateRange tz w monthStart in
          EmployeeReport.dayLoop 32 tz weekStart weekEnd body
          = map (fun j => body (monthStart + ((w - 1) * 7 + Z.of_nat j) * msPerDay))
                (seq 0 (Z.to_nat (Z.min 7 (len - (w - 1) * 7))))).
Proof.
  intros tz yr m Hm; cbv zeta.
  split; [apply daysInMonth_bounds|]. split; [apply monthEnd_value|].
  split; [apply weeksInMonth_value|]. split; [|split].
  - intros t Ht. destruct (month_window tz yr m t Hm Ht) as (_ & Hmo & Hd & _).
    split; [exact Hmo|]. rewrite Hd. unfold EmployeeReport.getWeekNumber. cbv zeta.
    f_equal. f_equal. lia.
  - intros w _. apply weekRange_value, Hm.
  - intros w body Hw. rewrite (weekRange_value tz yr m w Hm). apply week_days, Hw.
Qed.

Lemma report_weeks_are_windows_from_the_first_witness :
  daysInMonth 2024 2 = 29
  /\ EmployeeReport.getWeekNumber (newDate 0 2024 2 0 0 0 0 0) (newDate 0 2024 1 1 0 0 0 0)
     = 5.
Proof.
  assert (Hm : 1 <= 2 <= 12) by lia.
  pose proof (report_weeks_are_windows_from_the_first 0 2024 2 Hm) as H.
  cbv zeta in H. destruct H as (_ & _ & H3 & _).
  assert (Hlen : daysInMonth 2024 2 = 29) by reflexivity.
  split; [exact Hlen|]. rewrite Hlen in H3. exact H3.
Defined.

(* ------------------------------------------------------------------ *)
(** * The report on a host at UTC *)
(* ------------------------------------------------------------------ *)

Lemma isoDate_eqb_eq : forall a b, isoDate_eqb a b = true <-> a = b.
Proof.
  intros [[y1 m1] d1] [[y2 m2] d2]. unfold isoDate_eqb.
  rewrite !andb_true_iff, !Z.eqb_eq. split.
  - intros [[-> ->] ->]. reflexivity.
  - intro H. injection H as -> -> ->. auto.
Qed.

Lemma civilFromDays_inj : forall a b, civilFromDays a = civilFromDays b -> a = b.
Proof.
  intros a b H. destruct (civilFromDays a) as [[y m] d] eqn:Ea. symmetry in H.
  destruct (civil_round_trip _ _ _ _ Ea) as (_ & _ & <-).
  destruct (civil_round_trip _ _ _ _ H) as (_ & _ & <-). reflexivity.
Qed.

Lemma firstOfMonth_le : forall i j, i <= j -> firstOfMonth i <= firstOfMonth j.
Proof.
  intros i j H. destruct (Z.eq_dec i j) as [->|Hne]; [lia|].
  pose proof (firstOfMonth_mono i j). lia.
Qed.

Lemma december_has_31_days : forall y,
  firstOfMonth (12 * y + 12) = firstOfMonth (12 * y + 11) + 31.
Proof.
  intro y. unfold firstOfMonth.
  replace ((12 * y + 12) / 12) with (y + 1) by (Z.div_mod_to_equations; lia).
  replace ((12 * y + 12) mod 12) with 0 by (Z.div_mod_to_equations; lia).
  replace ((12 * y + 11) / 12) with y by (Z.div_mod_to_equations; lia).
  replace ((12 * y + 11) mod 12) with 11 by (Z.div_mod_to_equations; lia).
  rewrite !daysFromCivil_cases by lia. cbn [Z.leb Z.ltb Z.compare Z.add Pos.compare
    Pos.compare_cont Pos.add Pos.succ Pos.add_carry].
  replace (y + 1 - 1) with y by lia.
  Z.div_mod_to_equations. lia.
Qed.

Lemma newDate_end_of_day : forall tz yr mi d,
  newDate tz yr mi d 23 59 59 999 = newDate tz yr mi d 0 0 0 0 + msPerDay - 1.
Proof.
  intros tz yr mi d. unfold newDate. cbv zeta.
  generalize (MakeDay (if (0 <=? yr) && (yr <=? 99) then 1900 + yr else yr) mi d).
  intro D. unfold MakeTime, msPerDay, msPerHour, msPerMinute, msPerSecond. lia.
Qed.

(** The window of a month is the month; the window of a year is its
    twelve months. *)
Lemma month_query_window : forall tz yr m t,
  newDate tz yr (m - 1) 1 0 0 0 0 <= t <= newDate tz yr m 0 23 59 59 999 <->
  newDate tz yr (m - 1) 1 0 0 0 0 <= t
  < newDate tz yr (m - 1) 1 0 0 0 0 + daysInMonth yr m * msPerDay.
Proof.
  intros tz yr m t. rewrite newDate_end_of_day, monthEnd_value.
  generalize (newDate tz yr (m - 1) 1 0 0 0 0). intro ms. unfold msPerDay. lia.
Qed.

Lemma year_query_window : forall tz yr t m,
  newDate tz yr 0 1 0 0 0 0 <= t <= newDate tz yr 11 31 23 59 59 999 ->
  getMonth tz t + 1 = m ->
  1 <= m <= 12
  /\ newDate tz yr (m - 1) 1 0 0 0 0 <= t
     < newDate tz yr (m - 1) 1 0 0 0 0 + daysInMonth yr m * msPerDay.
Proof.
  intros tz yr t m. rewrite newDate_end_of_day, !newDate_midnight.
  unfold daysInMonth. set (Y := yearOf yr).
  replace (12 * Y + 0) with (12 * Y) by lia.
  pose proof (december_has_31_days Y) as Hdec.
  intros Ht Hm.
  assert (Hday : firstOfMonth (12 * Y) <= Day (t + tz) < firstOfMonth (12 * Y + 12)).
  { unfold Day, msPerDay in *. Z.div_mod_to_equations. lia. }
  unfold getMonth in Hm.
  destruct (civilFromDays (Day (t + tz))) as [[y mth] d] eqn:E.
  destruct (civil_in_month _ _ _ _ E) as (Hmth & Hd & Hz & Hlt).
  assert (Hy : y = Y).
  { destruct (Z_lt_le_dec (12 * Y + 11) (12 * y + mth - 1)) as [H1|H1].
    - pose proof (firstOfMonth_le (12 * Y + 12) (12 * y + mth - 1)). lia.
    - destruct (Z_lt_le_dec (12 * Y) (12 * y + mth)) as [H2|H2]; [lia|].
      pose proof (firstOfMonth_le (12 * y + mth) (12 * Y)). lia. }
  subst y. replace (mth - 1 + 1) with mth in Hm by lia. subst mth.
  split; [exact Hmth|].
  replace (12 * Y + (m - 1)) with (12 * Y + m - 1) by lia.
  clear - Hz Hlt Hd. unfold Day, msPerDay in *.
  generalize dependent (firstOfMonth (12 * Y + m - 1)).
  generalize dependent (firstOfMonth (12 * Y + m)). intros b Hb a Ha.
  Z.div_mod_to_equations. lia.
Qed.

Lemma dailyData_hours : forall tz byDay d,
  EmployeeReport.hours (EmployeeReport.dailyDataOf tz byDay d)
  = sumQ (map (fun e => AutoClockout.hoursOrZero (hoursWorked e))
              (bucketGet isoDate_eqb (EmployeeReport.formatDate d) byDay)).
Proof.
  intros tz byDay d. unfold EmployeeReport.dailyDataOf.
  cbn [EmployeeReport.hours]. rewrite map_map. reflexivity.
Qed.

Section UtcReport.
Variables (yr m : Z).
Hypothesis Hm : 1 <= m <= 12.

Lemma utc_day_of_month_start : forall k, Day ((newDate 0 yr (m - 1) 1 0 0 0 0) + k * msPerDay) = Day (newDate 0 yr (m - 1) 1 0 0 0 0) + k.
Proof.
  intro k. rewrite newDate_midnight.
  generalize (firstOfMonth (12 * yearOf yr + (m - 1))). intro D.
  unfold Day, msPerDay. Z.div_mod_to_equations. lia.
Qed.

Lemma utc_week_hours : forall w es,
  1 <= w <= (if daysInMonth yr m =? 28 then 4 else 5) ->
  (forall e, In e es -> (newDate 0 yr (m - 1) 1 0 0 0 0) <= clockIn e < (newDate 0 yr (m - 1) 1 0 0 0 0) + daysInMonth yr m * msPerDay) ->
  (sumQ (map EmployeeReport.hours
             (EmployeeReport.days
                (EmployeeReport.weeklyDataOf 0 (newDate 0 yr (m - 1) 1 0 0 0 0)
                   (bucketsOf Z.eqb (fun e => EmployeeReport.getWeekNumber (clockIn e) (newDate 0 yr (m - 1) 1 0 0 0 0)) es)
                   w)))
   == sumQ (map (fun e => AutoClockout.hoursOrZero (hoursWorked e))
                (filter (fun e => EmployeeReport.getWeekNumber (clockIn e) (newDate 0 yr (m - 1) 1 0 0 0 0) =? w) es)))%Q.
Proof.
  intros w es Hw Hes. pose proof (daysInMonth_bounds yr m) as Hlen.
  unfold EmployeeReport.weeklyDataOf.
  rewrite (bucketGet_bucketsOf Z.eqb Z.eqb_eq).
  rewrite (weekRange_value 0 yr m w Hm).
  cbn [EmployeeReport.days]. rewrite (week_days 0 yr m w _ Hw).
  set (wes := filter (fun e => EmployeeReport.getWeekNumber (clockIn e) (newDate 0 yr (m - 1) 1 0 0 0 0) =? w) es).
  set (n := Z.to_nat (Z.min 7 (daysInMonth yr m - (w - 1) * 7))).
  rewrite map_map.
  rewrite (sumQ_ext _
             (fun j => sumQ (map (fun e => AutoClockout.hoursOrZero (hoursWorked e))
                               (filter (fun e => isoDate_eqb
                                                   (EmployeeReport.formatDate (clockIn e))
                                                   (EmployeeReport.formatDate
                                                      ((newDate 0 yr (m - 1) 1 0 0 0 0) + ((w - 1) * 7 + Z.of_nat j) * msPerDay)))
                                       wes)))).
  2:{ intros j _. rewrite dailyData_hours.
      rewrite (bucketGet_bucketsOf isoDate_eqb isoDate_eqb_eq). reflexivity. }
  rewrite <- (map_map (fun j => EmployeeReport.formatDate
                                   ((newDate 0 yr (m - 1) 1 0 0 0 0) + ((w - 1) * 7 + Z.of_nat j) * msPerDay))
                      (fun k => sumQ (map (fun e => AutoClockout.hoursOrZero (hoursWorked e))
                                        (filter (fun e => isoDate_eqb
                                                            (EmployeeReport.formatDate (clockIn e)) k)
                                                wes)))).
  apply (sumQ_by_key isoDate_eqb isoDate_eqb_eq).
  - apply Finite.Injective_map_NoDup; [|apply seq_NoDup].
    intros i j Hij. unfold EmployeeReport.formatDate, toISODate in Hij.
    apply civilFromDays_inj in Hij. rewrite !utc_day_of_month_start in Hij. lia.
  - intros e He. subst wes. apply filter_In in He. destruct He as [He Hwk].
    apply Z.eqb_eq in Hwk. specialize (Hes e He).
    unfold EmployeeReport.getWeekNumber in Hwk. cbv zeta in Hwk.
    set (k := (clockIn e - (newDate 0 yr (m - 1) 1 0 0 0 0)) / msPerDay) in *.
    assert (Hk : 0 <= k < daysInMonth yr m).
    { subst k. unfold msPerDay in *. Z.div_mod_to_equations. lia. }
    apply in_map_iff. exists (Z.to_nat (k - (w - 1) * 7)). split.
    + unfold EmployeeReport.formatDate, toISODate. f_equal.
      rewrite utc_day_of_month_start.
      assert (Hj : 0 <= k - (w - 1) * 7) by (Z.div_mod_to_equations; lia).
      rewrite Z2Nat.id by exact Hj.
      subst k. clear - Hes. rewrite newDate_midnight in *.
      generalize dependent (firstOfMonth (12 * yearOf yr + (m - 1))). intros D Hes.
      unfold Day, msPerDay in *. Z.div_mod_to_equations. lia.
    + apply in_seq. subst n. split; [lia|].
      assert (Hj : 0 <= k - (w - 1) * 7 < 7) by (Z.div_mod_to_equations; lia).
      lia.
Qed.

Lemma weekNumbers_spec : forall W w,
  In w (EmployeeReport.weekNumbers W) <-> 1 <= w <= W.
Proof.
  intros W w. unfold EmployeeReport.weekNumbers. rewrite in_map_iff. split.
  - intros (k & <- & Hk). apply in_seq in Hk. lia.
  - intro H. exists (Z.to_nat (w - 1)). split; [lia|]. apply in_seq. lia.
Qed.

Lemma weekNumbers_NoDup : forall W, NoDup (EmployeeReport.weekNumbers W).
Proof.
  intro W. unfold EmployeeReport.weekNumbers.
  apply Finite.Injective_map_NoDup; [|apply seq_NoDup]. intros i j H. lia.
Qed.

Lemma utc_weeks_hours : forall es,
  (forall e, In e es ->
     newDate 0 yr (m - 1) 1 0 0 0 0 <= clockIn e
     < newDate 0 yr (m - 1) 1 0 0 0 0 + daysInMonth yr m * msPerDay) ->
  (sumQ (map (fun w =>
                sumQ (map EmployeeReport.hours
                        (EmployeeReport.days
                           (EmployeeReport.weeklyDataOf 0 (newDate 0 yr (m - 1) 1 0 0 0 0)
                              (bucketsOf Z.eqb
                                 (fun e => EmployeeReport.getWeekNumber (clockIn e)
                                             (newDate 0 yr (m - 1) 1 0 0 0 0)) es)
                              w))))
             (EmployeeReport.weekNumbers (if daysInMonth yr m =? 28 then 4 else 5)))
   == sumQ (map (fun e => AutoClockout.hoursOrZero (hoursWorked e)) es))%Q.
Proof.
  intros es Hes. pose proof (daysInMonth_bounds yr m) as Hlen.
  rewrite (sumQ_ext _
             (fun w => sumQ (map (fun e => AutoClockout.hoursOrZero (hoursWorked e))
                               (filter (fun e => EmployeeReport.getWeekNumber (clockIn e)
                                                   (newDate 0 yr (m - 1) 1 0 0 0 0) =? w)
                                       es)))).
  2:{ intros w Hw. apply weekNumbers_spec in Hw. apply utc_week_hours; assumption. }
  apply (sumQ_by_key Z.eqb Z.eqb_eq); [apply weekNumbers_NoDup|].
  intros e He. apply weekNumbers_spec. specialize (Hes e He).
  unfold EmployeeReport.getWeekNumber. cbv zeta.
  generalize dependent (newDate 0 yr (m - 1) 1 0 0 0 0). intros s Hes.
  unfold msPerDay in *.
  destruct (daysInMonth yr m =? 28) eqn:E;
    [apply Z.eqb_eq in E|apply Z.eqb_neq in E]; Z.div_mod_to_equations; lia.
Qed.

Lemma utc_month_hours : forall byMonth,
  (forall e, In e (bucketGet Z.eqb m byMonth) ->
     newDate 0 yr (m - 1) 1 0 0 0 0 <= clockIn e
     < newDate 0 yr (m - 1) 1 0 0 0 0 + daysInMonth yr m * msPerDay) ->
  (EmployeeReport.m_totalHours (EmployeeReport.monthlyDataOf 0 yr byMonth m)
   == sumQ (map (fun e => AutoClockout.hoursOrZero (hoursWorked e))
                (bucketGet Z.eqb m byMonth)))%Q
  /\ (sumQ (map EmployeeReport.hours
              (flat_map EmployeeReport.days
                 (EmployeeReport.weeks (EmployeeReport.monthlyDataOf 0 yr byMonth m))))
      == sumQ (map (fun e => AutoClockout.hoursOrZero (hoursWorked e))
                   (bucketGet Z.eqb m byMonth)))%Q.
Proof.
  intros byMonth Hes. pose proof (utc_weeks_hours _ Hes) as Hweeks.
  unfold EmployeeReport.monthlyDataOf.
  cbn [EmployeeReport.m_totalHours EmployeeReport.weeks].
  rewrite weeksInMonth_value. split.
  - rewrite map_map. rewrite <- Hweeks. apply sumQ_ext.
    intros w _. rewrite weeklyData_total. reflexivity.
  - rewrite sumQ_flat_map, map_map. exact Hweeks.
Qed.

End UtcReport.

Lemma sumQ_flat_map2 : forall {A B C : Type} (f : C -> Q) (g : B -> list C)
    (h : A -> list B) l,
  (sumQ (map f (flat_map g (flat_map h l)))
   == sumQ (map (fun x => sumQ (map f (flat_map g (h x)))) l))%Q.
Proof.
  intros A B C f g h; induction l as [|x l IH]; cbn [flat_map map]; [reflexivity|].
  rewrite flat_map_app, map_app, sumQ_app, sumQ_cons, IH. reflexivity.
Qed.

Lemma positiveQ_false : forall q, EmployeeReport.positiveQ q = false -> (q <= 0)%Q.
Proof.
  intros q H. unfold EmployeeReport.positiveQ in H. apply negb_false_iff in H.
  apply Qle_bool_iff. exact H.
Qed.

(** On a UTC host the months listed add up to the hours of the entries,
    as long as every entry starts in one of them. *)
Lemma utc_months_hours : forall yr entries ks,
  NoDup ks ->
  (forall m, In m ks -> 1 <= m <= 12) ->
  (forall e, In e entries ->
     In (getMonth 0 (clockIn e) + 1) ks
     /\ newDate 0 yr (getMonth 0 (clockIn e) + 1 - 1) 1 0 0 0 0 <= clockIn e
        < newDate 0 yr (getMonth 0 (clockIn e) + 1 - 1) 1 0 0 0 0
          + daysInMonth yr (getMonth 0 (clockIn e) + 1) * msPerDay) ->
  let byMonth := bucketsOf Z.eqb (fun e => getMonth 0 (clockIn e) + 1) entries in
  let all := map (EmployeeReport.monthlyDataOf 0 yr byMonth) ks in
  (sumQ (map EmployeeReport.m_totalHours all)
   == sumQ (map (fun e => AutoClockout.hoursOrZero (hoursWorked e)) entries))%Q
  /\ Forall (fun md =>
               (sumQ (map EmployeeReport.hours
                       (flat_map EmployeeReport.days (EmployeeReport.weeks md)))
                == EmployeeReport.m_totalHours md)%Q
               /\ ((forall e, In e entries ->
                      (0 <= AutoClockout.hoursOrZero (hoursWorked e))%Q) ->
                   (0 <= EmployeeReport.m_totalHours md)%Q))
            all.
Proof.
  intros yr entries ks Hnd Hks Hes; cbv zeta.
  assert (Hmonth : forall m, In m ks ->
            let md := EmployeeReport.monthlyDataOf 0 yr
                        (bucketsOf Z.eqb (fun e => getMonth 0 (clockIn e) + 1) entries) m in
            let es := filter (fun e => getMonth 0 (clockIn e) + 1 =? m) entries in
            (EmployeeReport.m_totalHours md
             == sumQ (map (fun e => AutoClockout.hoursOrZero (hoursWorked e)) es))%Q
            /\ (sumQ (map EmployeeReport.hours
                        (flat_map EmployeeReport.days (EmployeeReport.weeks md)))
                == sumQ (map (fun e => AutoClockout.hoursOrZero (hoursWorked e)) es))%Q).
  { intros m Hm; cbv zeta.
    rewrite <- (bucketGet_bucketsOf Z.eqb Z.eqb_eq (fun e => getMonth 0 (clockIn e) + 1)).
    apply utc_month_hours; [apply Hks, Hm|].
    intros e He. rewrite (bucketGet_bucketsOf Z.eqb Z.eqb_eq) in He.
    apply filter_In in He. destruct He as [He Hk]. apply Z.eqb_eq in Hk.
    destruct (Hes e He) as [_ Hw]. rewrite Hk in Hw. exact Hw. }
  split.
  - rewrite map_map.
    rewrite (sumQ_ext _
               (fun m => sumQ (map (fun e => AutoClockout.hoursOrZero (hoursWorked e))
                                 (filter (fun e => getMonth 0 (clockIn e) + 1 =? m) entries))))
      by (intros m Hm; apply (Hmonth m Hm)).
    apply (sumQ_by_key Z.eqb Z.eqb_eq); [exact Hnd|].
    intros e He. apply (Hes e He).
  - apply Forall_map, Forall_forall. intros m Hm.
    destruct (Hmonth m Hm) as [H1 H2]. cbv zeta in H1, H2. split.
    + rewrite H1, H2. reflexivity.
    + intro Hpos. rewrite H1. apply sumQ_nonneg.
      intros e He. apply filter_In in He. apply Hpos, He.
Qed.

Lemma utc_year_hours : forall yr mo entries,
  (forall e, In e entries -> (0 <= AutoClockout.hoursOrZero (hoursWorked e))%Q) ->
  match EmployeeReport.monthGiven mo with
  | Some m =>
      1 <= m <= 12
      /\ forall e, In e entries ->
           newDate 0 yr (m - 1) 1 0 0 0 0 <= clockIn e <= newDate 0 yr m 0 23 59 59 999
  | None =>
      forall e, In e entries ->
        newDate 0 yr 0 1 0 0 0 0 <= clockIn e <= newDate 0 yr 11 31 23 59 59 999
  end ->
  let y := EmployeeReport.yearlyDataOf 0 yr mo entries in
  (EmployeeReport.y_totalHours y
   == sumQ (map (fun e => AutoClockout.hoursOrZero (hoursWorked e)) entries))%Q
  /\ (sumQ (map EmployeeReport.hours
              (flat_map EmployeeReport.days
                 (flat_map EmployeeReport.weeks (EmployeeReport.months y))))
      == sumQ (map (fun e => AutoClockout.hoursOrZero (hoursWorked e)) entries))%Q.
Proof.
  intros yr mo entries Hpos Hwin; cbv zeta. unfold EmployeeReport.yearlyDataOf.
  cbn [EmployeeReport.y_totalHours EmployeeReport.months].
  assert (Hsum : forall ks,
            NoDup ks -> (forall m, In m ks -> 1 <= m <= 12) ->
            (forall e, In e entries ->
               In (getMonth 0 (clockIn e) + 1) ks
               /\ newDate 0 yr (getMonth 0 (clockIn e) + 1 - 1) 1 0 0 0 0 <= clockIn e
                  < newDate 0 yr (getMonth 0 (clockIn e) + 1 - 1) 1 0 0 0 0
                    + daysInMonth yr (getMonth 0 (clockIn e) + 1) * msPerDay) ->
            forall p : EmployeeReport.MonthlyData -> bool,
              (forall md, p md = false -> (EmployeeReport.m_totalHours md <= 0)%Q) ->
              let included :=
                filter p
                  (map (EmployeeReport.monthlyDataOf 0 yr
                          (bucketsOf Z.eqb (fun e => getMonth 0 (clockIn e) + 1) entries))
                       ks) in
              (sumQ (map EmployeeReport.m_totalHours included)
               == sumQ (map (fun e => AutoClockout.hoursOrZero (hoursWorked e)) entries))%Q
              /\ (sumQ (map EmployeeReport.hours
                          (flat_map EmployeeReport.days
                             (flat_map EmployeeReport.weeks included)))
                  == sumQ (map (fun e => AutoClockout.hoursOrZero (hoursWorked e))
                               entries))%Q).
  { intros ks Hnd Hks Hes p Hp; cbv zeta.
    destruct (utc_months_hours yr entries ks Hnd Hks Hes) as [Htot Hall].
    cbv zeta in Htot, Hall. rewrite Forall_forall in Hall.
    assert (Hzero : forall md,
              In md (map (EmployeeReport.monthlyDataOf 0 yr
                            (bucketsOf Z.eqb (fun e => getMonth 0 (clockIn e) + 1) entries))
                         ks) ->
              p md = false -> (EmployeeReport.m_totalHours md == 0)%Q).
    { intros md Hmd Hf. destruct (Hall md Hmd) as [_ H0].
      apply Qle_antisym; [apply Hp, Hf|apply H0, Hpos]. }
    split.
    - rewrite sumQ_filter; [exact Htot|exact Hzero].
    - rewrite sumQ_flat_map2, sumQ_filter.
      + rewrite <- Htot. apply sumQ_ext. intros md Hmd. apply (Hall md Hmd).
      + intros md Hmd Hf. destruct (Hall md Hmd) as [-> _]. apply Hzero; assumption. }
  destruct (EmployeeReport.monthGiven mo) as [m|].
  - destruct Hwin as [Hm Hwin].
    apply (Hsum [m]).
    + constructor; [intros []|constructor].
    + intros k [<-|[]]. exact Hm.
    + intros e He. apply Hwin, month_query_window in He.
      destruct (month_window 0 yr m (clockIn e) Hm He) as (_ & -> & _).
      split; [left; reflexivity|exact He].
    + intros md H. cbn [isSome] in H. rewrite orb_true_r in H. discriminate.
  - change (map (fun i : nat => Z.of_nat i + 1) (seq 0 12))
      with (EmployeeReport.weekNumbers 12).
    apply Hsum.
    + apply weekNumbers_NoDup.
    + intros k Hk. apply weekNumbers_spec in Hk. exact Hk.
    + intros e He.
      destruct (year_query_window 0 yr (clockIn e) _ (Hwin e He) eq_refl) as [Hk Hw].
      split; [apply weekNumbers_spec; exact Hk|exact Hw].
    + intros md H. cbn [isSome] in H. rewrite orb_false_r in H.
      apply positiveQ_false, H.
Qed.

Lemma queryEntries_spec : forall emp startDate endDate db e,
  In e (EmployeeReport.queryEntries emp startDate endDate db) ->
  In e (timeEntries db) /\ startDate <= clockIn e <= endDate.
Proof.
  intros emp startDate endDate db e H. unfold EmployeeReport.queryEntries in H.
  apply (Permutation_in _ (sortBy_perm _ _)) in H.
  apply filter_In in H. destruct H as [Hin Hq].
  rewrite !andb_true_iff in Hq. destruct Hq as [[[[_ H1] H2] _] _].
  apply Z.leb_le in H1. apply Z.leb_le in H2. split; [exact Hin|lia].
Qed.

Lemma queryEntries_hours : forall emp startDate endDate db,
  (sumQ (map (fun e => AutoClockout.hoursOrZero (hoursWorked e))
             (EmployeeReport.queryEntries emp startDate endDate db))
   == sumQ (map (fun e => AutoClockout.hoursOrZero (hoursWorked e))
                (EmployeeReport.closedInWindow emp startDate endDate db)))%Q.
Proof.
  intros emp startDate endDate db.
  unfold EmployeeReport.queryEntries, EmployeeReport.closedInWindow.
  rewrite (sumQ_perm _ _ (Permutation_map _ (sortBy_perm _ _))).
  induction (timeEntries db) as [|e l IH]; cbn [filter]; [reflexivity|].
  destruct (Nat.eqb (employeeId e) emp && (startDate <=? clockIn e)
            && (clockIn e <=? endDate) && isSome (clockOut e)) eqn:E;
    cbn [andb].
  - destruct (hoursWorked e) as [h|] eqn:Eh; cbn [isSome map].
    + rewrite !sumQ_cons, IH. reflexivity.
    + rewrite sumQ_cons, IH, Eh. cbn [AutoClockout.hoursOrZero]. ring.
  - exact IH.
Qed.

(** X27. On a host whose local time is UTC the report is exact: for a
    month 1..12, or for the whole year, the day-level hours of the
    report add up to the hours of every closed entry of the employee
    that starts in the reporting window, and so does the total of the
    summary.  Off UTC this fails: months and weeks are cut in local
    time, days by the UTC date.  In the year report months without hours
    are left out, which changes no total since stored hours are never
    negative. *)
Theorem report_is_exact_on_a_utc_host :
  forall emp yr mo db r,
    reachable db ->
    match EmployeeReport.monthGiven mo with
    | Some m => 1 <= m <= 12
    | None => True
    end ->
    EmployeeReport.GET 0 emp yr mo db = inr r ->
    let window :=
      match EmployeeReport.monthGiven mo with
      | Some m => (newDate 0 yr (m - 1) 1 0 0 0 0, newDate 0 yr m 0 23 59 59 999)
      | None => (newDate 0 yr 0 1 0 0 0 0, newDate 0 yr 11 31 23 59 59 999)
      end in
    let worked :=
      sumQ (map (fun e => AutoClockout.hoursOrZero (hoursWorked e))
                (EmployeeReport.closedInWindow emp (fst window) (snd window) db)) in
    (sumQ (map EmployeeReport.hours (EmployeeReport.allDays r)) == worked)%Q
    /\ (EmployeeReport.totalHours (EmployeeReport.summary r) == worked)%Q
    /\ (EmployeeReport.y_totalHours (EmployeeReport.data r) == worked)%Q.
Proof.
  intros emp yr mo db r Hr Hmo H; cbv zeta.
  pose proof (reachable_wellFormed db Hr) as Hwf. rewrite Forall_forall in Hwf.
  unfold EmployeeReport.GET in H.
  destruct (Employee_findById emp db) as [employee|]; [|discriminate].
  cbn [orThrow bindExc] in H.
  assert (Hpos : forall startDate endDate e,
            In e (EmployeeReport.queryEntries emp startDate endDate db) ->
            (0 <= AutoClockout.hoursOrZero (hoursWorked e))%Q).
  { intros startDate endDate e He. apply queryEntries_spec in He.
    destruct He as [He _]. destruct (Hwf e He) as (_ & _ & _ & _ & _ & _ & _ & Hh).
    destruct (hoursWorked e) as [h|]; [apply Hh; reflexivity|apply Qle_refl]. }
  destruct (EmployeeReport.monthGiven mo) as [m|] eqn:Emo;
    injection H as <-;
    unfold EmployeeReport.allDays;
    cbn [EmployeeReport.data EmployeeReport.summary EmployeeReport.totalHours fst snd];
    rewrite <- queryEntries_hours.
  - destruct (utc_year_hours yr mo
                (EmployeeReport.queryEntries emp (newDate 0 yr (m - 1) 1 0 0 0 0)
                   (newDate 0 yr m 0 23 59 59 999) db)) as [H1 H2].
    + apply Hpos.
    + rewrite Emo. split; [exact Hmo|]. intros e He. apply queryEntries_spec in He.
      apply He.
    + cbv zeta in H1, H2. split; [exact H2|]. split; exact H1.
  - destruct (utc_year_hours yr mo
                (EmployeeReport.queryEntries emp (newDate 0 yr 0 1 0 0 0 0)
                   (newDate 0 yr 11 31 23 59 59 999) db)) as [H1 H2].
    + apply Hpos.
    + rewrite Emo. intros e He. apply queryEntries_spec in He. apply He.
    + cbv zeta in H1, H2. split; [exact H2|]. split; exact H1.
Qed.

Lemma report_is_exact_on_a_utc_host_witness :
  exists r,
    EmployeeReport.GET 0 1%nat 2024 (Some 3) Examples.splitShift = inr r
    /\ (sumQ (map EmployeeReport.hours (EmployeeReport.allDays r)) == 7)%Q.
Proof.
  destruct (EmployeeReport.GET 0 1%nat 2024 (Some 3) Examples.splitShift) as [err|r] eqn:E;
    [vm_compute in E; discriminate|].
  exists r. split; [reflexivity|].
  assert (Hr : reachable Examples.splitShift) by apply serve_reachable, reachable_init.
  assert (Hm : 1 <= 3 <= 12) by lia.
  destruct (report_is_exact_on_a_utc_host 1%nat 2024 (Some 3) Examples.splitShift r
              Hr Hm E) as (H & _).
  rewrite H. vm_compute. reflexivity.
Defined.
